(** * Verification of the stellar data generator (packages [generator],
    [config] and [tests])

    A shallow embedding of [generator/config.go] and [models/entities.go],
    and of [config/flags.go] and [tests/generator_test.go] (their conventions
    are given where they start).

    - Go's [float64] is Rocq's primitive binary64 [float]; its operations are
      the IEEE 754 operations that Go performs on amd64 (no fused
      multiply-add).  Go's decimal constants are rounded to the nearest
      binary64 value, as Rocq's float literals are.
    - Go's [int] (64 bits) and [int32] are [Z], with the wrap-around of every
      addition and subtraction written out.
    - [*rand.Rand] (package math/rand) and [uuid.New] (package google/uuid)
      are not part of the repository: the random stream is an interface
      ([RandSource]) carrying the documented contract of the methods the
      generator calls, the UUID generator is the sequence of identifiers it
      hands out.
    - A run-time panic is the result [None].  Running out of memory is not a
      panic but a fatal error of the runtime, and depends on the machine: it
      is outside the model, whose results are those of a machine with the
      memory the run needs. *)

Set Warnings "-inexact-float".
From Stdlib Require Import ZArith List String Ascii Bool Lia.
From Stdlib Require Import QArith Qpower Lqa Floats DecimalString.
From Stdlib Require Import Permutation DecimalPos DecimalZ.
Import ListNotations.

Local Open Scope Z_scope.

(** ** Go's machine integers *)

Definition wrap (bits z : Z) : Z :=
  (z + 2 ^ (bits - 1)) mod 2 ^ bits - 2 ^ (bits - 1).

Definition wrap32 : Z -> Z := wrap 32.
Definition wrap64 : Z -> Z := wrap 64.

Definition maxInt64 : Z := 2 ^ 63 - 1.
Definition minInt32 : Z := - 2 ^ 31.
Definition maxInt32 : Z := 2 ^ 31 - 1.

(** [fmt.Sprintf("%d", n)] *)
Definition itoa (n : Z) : string := NilZero.string_of_int (Z.to_int n).

(** [float64(n)] for an integer [n] *)
Definition float64_of_int (n : Z) : float :=
  if n <? 0 then (- of_uint63 (Uint63.of_Z (- n)))%float
  else of_uint63 (Uint63.of_Z n).

(** The integer part of a finite float (rounding toward zero). *)
Definition trunc_float (x : float) : option Z :=
  match Prim2SF x with
  | S754_zero _ => Some 0
  | S754_finite s m (Zneg p) => Some (cond_Zopp s (Z.pos m / 2 ^ Z.pos p))
  | S754_finite s m e => Some (cond_Zopp s (Z.pos m * 2 ^ e))
  | _ => None
  end.

(** [int32(x)] for a [float64] [x]: truncation toward zero.  When the value
    is not representable Go leaves the result to the implementation; amd64's
    conversion instruction yields the smallest int32. *)
Definition int32_of_float (x : float) : Z :=
  match trunc_float x with
  | Some z => if (minInt32 <=? z) && (z <=? maxInt32) then z else minInt32
  | None => minInt32
  end.

(** ** package models *)

Module Star.
Record t : Type := mk {
  ID : string;
  Name : string;
  SpectralType : string;
  Mass : float;
  Radius : float;
  Temperature : Z
}.
End Star.

Module Planet.
Record t : Type := mk {
  ID : string;
  Name : string;
  OrbitalPeriod : float;
  SemiMajorAxis : float;
  Eccentricity : float;
  Mass : float;
  Radius : float;
  Atmosphere : string;
  SurfaceTemp : Z;
  HasRings : bool;
  HasMoons : bool;
  DiscoveryYear : Z;
  StarID : string
}.
End Planet.

Module Exoplanet.
Record t : Type := mk {
  ID : string;
  Name : string;
  OrbitalPeriod : float;
  SemiMajorAxis : float;
  Eccentricity : float;
  Mass : float;
  Radius : float;
  DetectionMethod : string;
  HostDistance : float;
  SurfaceTemp : Z;
  DiscoveryYear : Z;
  StarID : string
}.
End Exoplanet.

(** ** package generator: configuration and result *)

Record Config : Type := {
  NumStars : Z;
  PlanetsPerStar : Z;
  ExoPerStar : Z;
  Seed : Z
}.

Record GeneratedData : Type := {
  Stars : list Star.t;
  Planets : list Planet.t;
  Exoplanets : list Exoplanet.t
}.

(** ** The random stream

    The methods of [*rand.Rand] that the generator calls, with the contract
    math/rand documents: [Float64] returns a number in the half-open interval
    from 0 to 1, [Int31n n] and [Intn n] return a number in the half-open
    interval from 0 to [n] (they panic when [n <= 0], which [r_Int31n] and
    [r_Intn] below add).  [NewRand seed] is [rand.New(rand.NewSource(seed))]. *)

Class RandSource : Type := {
  Rand : Type;
  NewRand : Z -> Rand;
  Float64 : Rand -> float * Rand;
  Int31n : Z -> Rand -> Z * Rand;
  Intn : Z -> Rand -> Z * Rand;
  Float64_range : forall r,
    (0 <=? fst (Float64 r))%float = true /\ (fst (Float64 r) <? 1)%float = true;
  Int31n_range : forall n r, 0 < n -> 0 <= fst (Int31n n r) < n;
  Intn_range : forall n r, 0 < n -> 0 <= fst (Intn n r) < n
}.

(** ** The state the generator threads: the random stream and the UUIDs that
    [uuid.New] will hand out, in order. *)

Section Generator.
Context {RS : RandSource}.

Record World : Type := {
  rng : Rand;
  uuids : nat -> string;
  next_uuid : nat
}.

(** State and panic monad. *)
Definition M (A : Type) : Type := World -> option (A * World).

Definition ret {A} (a : A) : M A := fun w => Some (a, w).

Definition bind {A B} (m : M A) (k : A -> M B) : M B :=
  fun w => match m w with
           | Some (a, w') => k a w'
           | None => None
           end.

Definition panic {A} : M A := fun _ => None.

Notation "x <- m ;; k" := (bind m (fun x => k))
  (at level 61, m at next level, right associativity).
Notation "' pat <- m ;; k" := (bind m (fun x => match x with pat => k end))
  (at level 61, pat pattern, m at next level, right associativity).

Definition r_Float64 : M float :=
  fun w => let (f, r') := Float64 (rng w) in
           Some (f, {| rng := r'; uuids := uuids w; next_uuid := next_uuid w |}).

Definition r_Int31n (n : Z) : M Z :=
  fun w => if n <=? 0 then None
           else let (v, r') := Int31n n (rng w) in
                Some (v, {| rng := r'; uuids := uuids w; next_uuid := next_uuid w |}).

Definition r_Intn (n : Z) : M Z :=
  fun w => if n <=? 0 then None
           else let (v, r') := Intn n (rng w) in
                Some (v, {| rng := r'; uuids := uuids w; next_uuid := next_uuid w |}).

(** [uuid.New().String()] *)
Definition uuid_New : M string :=
  fun w => Some (uuids w (next_uuid w),
                 {| rng := rng w; uuids := uuids w; next_uuid := S (next_uuid w) |}).

(** Indexing a slice: out of range panics. *)
Definition index {A} (l : list A) (i : Z) : M A :=
  if i <? 0 then panic
  else match nth_error l (Z.to_nat i) with
       | Some a => ret a
       | None => panic
       end.

(** [make([]models.Star, 0, n)].  The runtime ([makeslice]) multiplies the
    size of an element by the capacity and panics ("cap out of range") when
    the capacity is negative, when the product overflows, or when it is
    larger than [maxAlloc].  A [models.Star] (three strings, two [float64]
    and an [int32]) takes 72 bytes on a 64-bit platform, and [maxAlloc] is
    [2 ^ 48] bytes on amd64. *)
Definition star_size : Z := 72.
Definition maxAlloc : Z := 2 ^ 48.

Definition make_slice (n : Z) : M unit :=
  if (n <? 0) || (n * star_size >? maxAlloc) then panic else ret tt.

(** [for i := 0; i < n; i++ { s = body i s }] *)
Fixpoint for_from {S} (count : nat) (i : Z) (body : Z -> S -> M S) (s : S) : M S :=
  match count with
  | O => ret s
  | Datatypes.S c => s' <- body i s ;; for_from c (i + 1) body s'
  end.

Definition for_loop {S} (n : Z) (body : Z -> S -> M S) (s : S) : M S :=
  for_from (Z.to_nat n) 0 body s.

(** ** The tables of the generator *)

Record SpectralClass : Type := {
  class : string;
  massRange : float * float;
  radiusRange : float * float;
  tempRange : Z * Z
}.

Definition spectralTypes : list SpectralClass :=
  [ {| class := "O"; massRange := (16.0, 90.0)%float; radiusRange := (6.6, 15.0)%float; tempRange := (30000, 50000) |};
    {| class := "B"; massRange := (2.1, 16.0)%float; radiusRange := (1.8, 6.6)%float; tempRange := (10000, 30000) |};
    {| class := "A"; massRange := (1.4, 2.1)%float; radiusRange := (1.4, 1.8)%float; tempRange := (7500, 10000) |};
    {| class := "F"; massRange := (1.04, 1.4)%float; radiusRange := (1.15, 1.4)%float; tempRange := (6000, 7500) |};
    {| class := "G"; massRange := (0.8, 1.04)%float; radiusRange := (0.96, 1.15)%float; tempRange := (5200, 6000) |};
    {| class := "K"; massRange := (0.45, 0.8)%float; radiusRange := (0.7, 0.96)%float; tempRange := (3700, 5200) |};
    {| class := "M"; massRange := (0.08, 0.45)%float; radiusRange := (0.1, 0.7)%float; tempRange := (2400, 3700) |} ].

Definition atmosphereTypes : list string :=
  [ "H2/He dominant"; "N2/O2 dominant"; "CO2 dominant"; "Thin atmosphere";
    "No atmosphere"; "H2/He with methane"; "Sulfuric compounds"; "Water vapor rich" ]%string.

Definition detectionMethods : list string :=
  [ "Transit"; "Radial Velocity"; "Direct Imaging"; "Gravitational Microlensing";
    "Astrometry"; "Transit Timing Variation" ]%string.

(** ** The sampling routines *)

Definition randFloat (min max : float) : M float :=
  f <- r_Float64 ;; ret (min + f * (max - min))%float.

Definition randInt (min max : Z) : M Z :=
  v <- r_Int31n (wrap32 (wrap32 (max - min) + 1)) ;; ret (wrap32 (min + v)).

Definition weights : list float :=
  [0.00003; 0.13; 2.0; 3.0; 7.6; 12.1; 76.45]%float.

(** [for _, w := range weights { total += w }] *)
Definition total_weight (ws : list float) : float :=
  fold_left PrimFloat.add ws 0%float.

(** The selection loop of [generateSpectralType]: [i] is the index of the
    weight at the head of [ws], [cumulative] the sum before it; the loop
    breaks at the first weight whose cumulative sum reaches [val], and
    [classIdx] keeps its initial 0 when none does. *)
Fixpoint pick_class (ws : list float) (i : Z) (cumulative val : float) : Z :=
  match ws with
  | [] => 0
  | w :: ws' =>
      let cumulative := (cumulative + w)%float in
      if (val <=? cumulative)%float then i
      else pick_class ws' (i + 1) cumulative val
  end.

Definition generateSpectralType : M string :=
  let total := total_weight weights in
  f <- r_Float64 ;;
  let val := (f * total)%float in
  let classIdx := pick_class weights 0 0%float val in
  st <- index spectralTypes classIdx ;;
  subclass <- r_Intn 10 ;;
  ret (class st ++ itoa subclass ++ "V")%string.

(** [spectralType[0]]: the first byte of a string; an empty string panics. *)
Definition first_byte (s : string) : M ascii :=
  match s with
  | EmptyString => panic
  | String c _ => ret c
  end.

(** The search loop of [generateStar] for the class of a letter. *)
Fixpoint find_class (l : list SpectralClass) (i : Z) (classChar : ascii) : M Z :=
  match l with
  | [] => ret 0
  | st :: l' =>
      c <- first_byte (class st) ;;
      if Ascii.eqb c classChar then ret i else find_class l' (i + 1) classChar
  end.

Definition generateStar (idx : Z) : M Star.t :=
  spectralType <- generateSpectralType ;;
  classChar <- first_byte spectralType ;;
  classIdx <- find_class spectralTypes 0 classChar ;;
  st <- index spectralTypes classIdx ;;
  id <- uuid_New ;;
  mass <- randFloat (fst (massRange st)) (snd (massRange st)) ;;
  radius <- randFloat (fst (radiusRange st)) (snd (radiusRange st)) ;;
  temp <- randInt (fst (tempRange st)) (snd (tempRange st)) ;;
  ret {| Star.ID := id;
         Star.Name := "Star-" ++ itoa idx;
         Star.SpectralType := spectralType;
         Star.Mass := mass;
         Star.Radius := radius;
         Star.Temperature := temp |}.

(** Kepler's third law as [generatePlanet] and [generateExoplanet] write it. *)
Definition kepler_period (semiMajorAxis starMass : float) : float :=
  (365.25 * sqrt (semiMajorAxis * semiMajorAxis * semiMajorAxis / starMass))%float.

(** The surface temperature as both routines write it. *)
Definition surface_temp (starTemp : Z) (starRadius semiMajorAxis : float) : Z :=
  int32_of_float
    (float64_of_int starTemp * sqrt (starRadius / (2.0 * semiMajorAxis)))%float.

(** The [if planetType < 0.3 ... else if planetType < 0.6 ... else] of
    [generatePlanet]: mass and radius. *)
Definition planet_body (planetType : float) : M (float * float) :=
  if (planetType <? 0.3)%float then
    mass <- randFloat 0.1 5.0 ;; radius <- randFloat 0.3 2.0 ;; ret (mass, radius)
  else if (planetType <? 0.6)%float then
    mass <- randFloat 5.0 20.0 ;; radius <- randFloat 2.0 4.0 ;; ret (mass, radius)
  else
    mass <- randFloat 20.0 1000.0 ;; radius <- randFloat 4.0 15.0 ;; ret (mass, radius).

Definition generatePlanet (star : Star.t) (idx : Z) : M Planet.t :=
  semiMajorAxis <- randFloat 0.05 50.0 ;;
  let orbitalPeriod := kepler_period semiMajorAxis (Star.Mass star) in
  planetType <- r_Float64 ;;
  '(mass, radius) <- planet_body planetType ;;
  let surfaceTemp := surface_temp (Star.Temperature star) (Star.Radius star) semiMajorAxis in
  id <- uuid_New ;;
  ecc <- randFloat 0.0 0.3 ;;
  atmIdx <- r_Intn (Z.of_nat (List.length atmosphereTypes)) ;;
  atm <- index atmosphereTypes atmIdx ;;
  rings <- r_Float64 ;;
  moons <- r_Float64 ;;
  year <- randInt 1990 2024 ;;
  ret {| Planet.ID := id;
         Planet.Name := Star.Name star ++ "-Planet-" ++ itoa idx;
         Planet.OrbitalPeriod := orbitalPeriod;
         Planet.SemiMajorAxis := semiMajorAxis;
         Planet.Eccentricity := ecc;
         Planet.Mass := mass;
         Planet.Radius := radius;
         Planet.Atmosphere := atm;
         Planet.SurfaceTemp := surfaceTemp;
         Planet.HasRings := (rings <? 0.2)%float;
         Planet.HasMoons := (moons <? 0.6)%float;
         Planet.DiscoveryYear := year;
         Planet.StarID := Star.ID star |}.

Definition generateExoplanet (star : Star.t) (idx : Z) : M Exoplanet.t :=
  semiMajorAxis <- randFloat 0.01 5.0 ;;
  let orbitalPeriod := kepler_period semiMajorAxis (Star.Mass star) in
  mass <- randFloat 0.5 500.0 ;;
  radius <- randFloat 0.5 12.0 ;;
  let surfaceTemp := surface_temp (Star.Temperature star) (Star.Radius star) semiMajorAxis in
  hostDistance <- randFloat 10.0 10000.0 ;;
  id <- uuid_New ;;
  ecc <- randFloat 0.0 0.5 ;;
  detIdx <- r_Intn (Z.of_nat (List.length detectionMethods)) ;;
  det <- index detectionMethods detIdx ;;
  year <- randInt 1990 2024 ;;
  ret {| Exoplanet.ID := id;
         Exoplanet.Name := Star.Name star ++ "-Exo-" ++ itoa idx;
         Exoplanet.OrbitalPeriod := orbitalPeriod;
         Exoplanet.SemiMajorAxis := semiMajorAxis;
         Exoplanet.Eccentricity := ecc;
         Exoplanet.Mass := mass;
         Exoplanet.Radius := radius;
         Exoplanet.DetectionMethod := det;
         Exoplanet.HostDistance := hostDistance;
         Exoplanet.SurfaceTemp := surfaceTemp;
         Exoplanet.DiscoveryYear := year;
         Exoplanet.StarID := Star.ID star |}.

(** ** The assembler *)

Definition add_star (s : Star.t) (d : GeneratedData) : GeneratedData :=
  {| Stars := Stars d ++ [s]; Planets := Planets d; Exoplanets := Exoplanets d |}.

Definition add_planet (p : Planet.t) (d : GeneratedData) : GeneratedData :=
  {| Stars := Stars d; Planets := Planets d ++ [p]; Exoplanets := Exoplanets d |}.

Definition add_exoplanet (e : Exoplanet.t) (d : GeneratedData) : GeneratedData :=
  {| Stars := Stars d; Planets := Planets d; Exoplanets := Exoplanets d ++ [e] |}.

Definition empty_data : GeneratedData :=
  {| Stars := []; Planets := []; Exoplanets := [] |}.

(** The body of the loop over the stars. *)
Definition star_step (cfg : Config) (i : Z) (data : GeneratedData) : M GeneratedData :=
  star <- generateStar (wrap64 (i + 1)) ;;
  let data := add_star star data in
  numPlanets <- r_Intn (wrap64 (PlanetsPerStar cfg + 1)) ;;
  data <- for_loop numPlanets
            (fun j data =>
               planet <- generatePlanet star (wrap64 (j + 1)) ;;
               ret (add_planet planet data)) data ;;
  numExoplanets <- r_Intn (wrap64 (ExoPerStar cfg + 1)) ;;
  for_loop numExoplanets
    (fun j data =>
       exoplanet <- generateExoplanet star (wrap64 (j + 1)) ;;
       ret (add_exoplanet exoplanet data)) data.

Definition GenerateAll_from (cfg : Config) : M GeneratedData :=
  _ <- make_slice (NumStars cfg) ;;
  for_loop (NumStars cfg) (star_step cfg) empty_data.

(** [GenerateAll cfg], in a process whose UUID generator hands out
    [ids 0], [ids 1], ... from this call on. *)
Definition GenerateAll (ids : nat -> string) (cfg : Config) : option GeneratedData :=
  match GenerateAll_from cfg
          {| rng := NewRand (Seed cfg); uuids := ids; next_uuid := 0 |} with
  | Some (data, _) => Some data
  | None => None
  end.

End Generator.

(** * package config

    [config/flags.go]: the command-line flags of the program and the
    configuration of the Cassandra writer.

    - [flag.Parse] is not part of the repository: [CommandLine] holds, for
      each flag, the value given on the command line, if one was given.
    - [time.Now().UnixNano()] is the argument [now] of [ParseFlags].
    - A Go string is a sequence of bytes ([string]); [for i, r := range s]
      decodes it as UTF-8 ([range_string]).
    - [strings.ToUpper] and [strings.TrimSpace] are not part of the
      repository: [GoStrings] carries what they do on strings of ASCII
      bytes. *)

Module AppConfig.
Record t : Type := mk {
  NumStars : Z;
  PlanetsPerStar : Z;
  ExoPerStar : Z;
  OutputFormat : string;
  OutputDir : string;
  ConfigFile : string;
  Seed : Z;
  DryRun : bool
}.
End AppConfig.

Record CommandLine : Type := {
  num_stars : option Z;
  planets_per_star : option Z;
  exo_per_star : option Z;
  output_format : option string;
  output_dir : option string;
  config : option string;
  seed : option Z;
  dry_run : option bool
}.

(** The value of a flag after [flag.Parse]: the one given, or the default
    the flag was declared with. *)
Definition flag_value {A} (default : A) (given : option A) : A :=
  match given with
  | Some v => v
  | None => default
  end.

Definition ParseFlags (cl : CommandLine) (now : Z) : AppConfig.t :=
  let NumStars := flag_value 100 (num_stars cl) in
  let PlanetsPerStar := flag_value 8 (planets_per_star cl) in
  let ExoPerStar := flag_value 5 (exo_per_star cl) in
  let OutputFormat := flag_value "csv"%string (output_format cl) in
  let OutputDir := flag_value "output"%string (output_dir cl) in
  let ConfigFile := flag_value ""%string (config cl) in
  let Seed := flag_value 0 (seed cl) in
  let DryRun := flag_value false (dry_run cl) in
  let Seed := if Seed =? 0 then now else Seed in
  let NumStars := if NumStars <? 1 then 1 else NumStars in
  let PlanetsPerStar := if PlanetsPerStar >? 15 then 15 else PlanetsPerStar in
  let ExoPerStar := if ExoPerStar >? 8 then 8 else ExoPerStar in
  AppConfig.mk NumStars PlanetsPerStar ExoPerStar OutputFormat OutputDir ConfigFile Seed DryRun.

(** The [generator.Config] that [main] builds from the flags. *)
Definition generator_config (cfg : AppConfig.t) : Config :=
  {| NumStars := AppConfig.NumStars cfg;
     PlanetsPerStar := AppConfig.PlanetsPerStar cfg;
     ExoPerStar := AppConfig.ExoPerStar cfg;
     Seed := AppConfig.Seed cfg |}.

(** ** Strings *)

Definition byte (c : ascii) : Z := Z.of_N (N_of_ascii c).

Definition bytes (s : string) : list Z := map byte (list_ascii_of_string s).

(** [utf8.RuneError] *)
Definition RuneError : Z := 0xFFFD.

Definition between (lo hi b : Z) : bool := (lo <=? b) && (b <=? hi).

(** The first code point of a byte sequence and its width in bytes: a
    sequence that is not the UTF-8 encoding of a code point (overlong forms
    and surrogates included) decodes as [RuneError], of width 1. *)
Definition decode_rune (bs : list Z) : Z * nat :=
  match bs with
  | [] => (RuneError, 0%nat)
  | b0 :: t =>
      if b0 <? 0x80 then (b0, 1%nat)
      else if between 0xC2 0xDF b0 then
        match t with
        | b1 :: _ =>
            if between 0x80 0xBF b1
            then ((b0 - 0xC0) * 64 + (b1 - 0x80), 2%nat)
            else (RuneError, 1%nat)
        | _ => (RuneError, 1%nat)
        end
      else if between 0xE0 0xEF b0 then
        match t with
        | b1 :: b2 :: _ =>
            let lo := if b0 =? 0xE0 then 0xA0 else 0x80 in
            let hi := if b0 =? 0xED then 0x9F else 0xBF in
            if between lo hi b1 && between 0x80 0xBF b2
            then ((b0 - 0xE0) * 4096 + (b1 - 0x80) * 64 + (b2 - 0x80), 3%nat)
            else (RuneError, 1%nat)
        | _ => (RuneError, 1%nat)
        end
      else if between 0xF0 0xF4 b0 then
        match t with
        | b1 :: b2 :: b3 :: _ =>
            let lo := if b0 =? 0xF0 then 0x90 else 0x80 in
            let hi := if b0 =? 0xF4 then 0x8F else 0xBF in
            if between lo hi b1 && between 0x80 0xBF b2 && between 0x80 0xBF b3
            then ((b0 - 0xF0) * 262144 + (b1 - 0x80) * 4096
                  + (b2 - 0x80) * 64 + (b3 - 0x80), 4%nat)
            else (RuneError, 1%nat)
        | _ => (RuneError, 1%nat)
        end
      else (RuneError, 1%nat)
  end.

(** [for i, r := range s]: the pairs (byte index, code point), in order. *)
Fixpoint range_from (fuel : nat) (i : Z) (bs : list Z) : list (Z * Z) :=
  match fuel, bs with
  | S fuel', _ :: _ =>
      let (r, n) := decode_rune bs in
      (i, r) :: range_from fuel' (i + Z.of_nat n) (skipn n bs)
  | _, _ => []
  end.

Definition range_string (s : string) : list (Z * Z) :=
  range_from (String.length s) 0 (bytes s).

Definition is_ascii_byte (b : Z) : bool := b <? 0x80.

Definition is_ascii (s : string) : bool := forallb is_ascii_byte (bytes s).

Definition ascii_upper (c : ascii) : ascii :=
  if between 0x61 0x7A (byte c) then ascii_of_N (N_of_ascii c - 32) else c.

Fixpoint ascii_to_upper (s : string) : string :=
  match s with
  | EmptyString => EmptyString
  | String c s' => String (ascii_upper c) (ascii_to_upper s')
  end.

(** The ASCII white space: tab, line feed, vertical tab, form feed, carriage
    return, space. *)
Definition ascii_space (c : ascii) : bool :=
  between 9 13 (byte c) || (byte c =? 32).

Fixpoint trim_left (s : string) : string :=
  match s with
  | EmptyString => EmptyString
  | String c s' => if ascii_space c then trim_left s' else s
  end.

(** [trim_right s]: [s] without its trailing white space. *)
Fixpoint trim_right (s : string) : string :=
  match s with
  | EmptyString => EmptyString
  | String c s' =>
      match trim_right s' with
      | EmptyString => if ascii_space c then EmptyString else String c EmptyString
      | t => String c t
      end
  end.

Definition ascii_trim (s : string) : string := trim_right (trim_left s).

Class GoStrings : Type := {
  ToUpper : string -> string;
  TrimSpace : string -> string;
  ToUpper_ascii : forall s, is_ascii s = true -> ToUpper s = ascii_to_upper s;
  TrimSpace_ascii : forall s, is_ascii s = true -> TrimSpace s = ascii_trim s
}.

(** ** The configuration of the Cassandra writer *)

Record CassandraConfig : Type := {
  Hosts : list string;
  Keyspace : string;
  Consistency : string;
  ReplicationClass : string;
  ReplicationFactor : Z;
  DataCenters : list (string * Z);
  Username : string;
  Password : string;
  Port : Z;
  Timeout : Z;
  ConnectTimeout : Z;
  NumConns : Z;
  DisableInitialHostLookup : bool
}.

(** [DataCenters] is a Go map: the list holds its entries in the order in
    which a [range] over the map visits them (an order Go does not fix). *)

Definition setDefaults (cfg : CassandraConfig) : CassandraConfig :=
  let hosts :=
    if Z.of_nat (List.length (Hosts cfg)) =? 0 then ["127.0.0.1"%string] else Hosts cfg in
  let keyspace := if String.eqb (Keyspace cfg) "" then "stellargen"%string else Keyspace cfg in
  let consistency :=
    if String.eqb (Consistency cfg) "" then "QUORUM"%string else Consistency cfg in
  let replicationClass :=
    if String.eqb (ReplicationClass cfg) "" then "SimpleStrategy"%string
    else ReplicationClass cfg in
  let replicationFactor :=
    if (ReplicationFactor cfg =? 0) && String.eqb replicationClass "SimpleStrategy"
    then 1 else ReplicationFactor cfg in
  let port := if Port cfg =? 0 then 9042 else Port cfg in
  let timeout := if Timeout cfg =? 0 then 30 else Timeout cfg in
  let connectTimeout := if ConnectTimeout cfg =? 0 then 10 else ConnectTimeout cfg in
  let numConns := if NumConns cfg =? 0 then 2 else NumConns cfg in
  {| Hosts := hosts;
     Keyspace := keyspace;
     Consistency := consistency;
     ReplicationClass := replicationClass;
     ReplicationFactor := replicationFactor;
     DataCenters := DataCenters cfg;
     Username := Username cfg;
     Password := Password cfg;
     Port := port;
     Timeout := timeout;
     ConnectTimeout := connectTimeout;
     NumConns := numConns;
     DisableInitialHostLookup := DisableInitialHostLookup cfg |}.

Definition is_digit_rune (r : Z) : bool := between 0x30 0x39 r.

Definition is_keyspace_rune (r : Z) : bool :=
  between 0x61 0x7A r || between 0x41 0x5A r || between 0x30 0x39 r || (r =? 0x5F).

(** The loop of [isValidKeyspaceName] over the code points of the name. *)
Fixpoint keyspace_loop (l : list (Z * Z)) : bool :=
  match l with
  | [] => true
  | (i, r) :: l' =>
      if (i =? 0) && is_digit_rune r then false
      else if negb (is_keyspace_rune r) then false
      else keyspace_loop l'
  end.

Definition isValidKeyspaceName (name : string) : bool :=
  let len := Z.of_nat (String.length name) in
  if (len =? 0) || (len >? 48) then false
  else keyspace_loop (range_string name).

Definition consistency_levels : list string :=
  ["ANY"; "ONE"; "TWO"; "THREE"; "QUORUM"; "ALL"; "LOCAL_QUORUM"; "EACH_QUORUM";
   "LOCAL_ONE"]%string.

Definition replication_strategies : list string :=
  ["SimpleStrategy"; "NetworkTopologyStrategy"]%string.

(** A lookup in a [map[string]bool] whose entries are all [true]: the keys
    give [true], any other string the zero value [false]. *)
Definition lookup_true (keys : list string) (s : string) : bool :=
  existsb (String.eqb s) keys.

Definition newline : string := String (ascii_of_nat 10) EmptyString.

(** What [validateCassandraConfig] leaves behind: the configuration, which it
    updates in place, the warnings it wrote to the standard error stream, and
    the error it returned ([None] for [nil]). *)
Record Validation : Type := {
  validated : CassandraConfig;
  warnings : list string;
  error : option string
}.

Definition failed (cfg : CassandraConfig) (ws : list string) (msg : string) : Validation :=
  {| validated := cfg; warnings := ws; error := Some msg |}.

(** [cfg.Consistency = c] *)
Definition set_Consistency (c : string) (cfg : CassandraConfig) : CassandraConfig :=
  {| Hosts := Hosts cfg;
     Keyspace := Keyspace cfg;
     Consistency := c;
     ReplicationClass := ReplicationClass cfg;
     ReplicationFactor := ReplicationFactor cfg;
     DataCenters := DataCenters cfg;
     Username := Username cfg;
     Password := Password cfg;
     Port := Port cfg;
     Timeout := Timeout cfg;
     ConnectTimeout := ConnectTimeout cfg;
     NumConns := NumConns cfg;
     DisableInitialHostLookup := DisableInitialHostLookup cfg |}.

Section Cassandra.
Context {GS : GoStrings}.

(** [for i, host := range cfg.Hosts]: the index of the first host that is
    empty once trimmed. *)
Fixpoint blank_host (i : Z) (hosts : list string) : option Z :=
  match hosts with
  | [] => None
  | host :: hosts' =>
      if String.eqb (TrimSpace host) "" then Some i else blank_host (i + 1) hosts'
  end.

(** [for dc, rf := range cfg.DataCenters]: the first data center visited
    whose replication factor is below 1. *)
Fixpoint bad_datacenter (dcs : list (string * Z)) : option string :=
  match dcs with
  | [] => None
  | (dc, rf) :: dcs' => if rf <? 1 then Some dc else bad_datacenter dcs'
  end.

Definition validateCassandraConfig (cfg : CassandraConfig) : Validation :=
  if Z.of_nat (List.length (Hosts cfg)) =? 0 then
    failed cfg [] "at least one host must be specified"
  else
  match blank_host 0 (Hosts cfg) with
  | Some i => failed cfg [] ("host at index " ++ itoa i ++ " is empty")
  | None =>
  if String.eqb (Keyspace cfg) "" then
    failed cfg [] "keyspace name cannot be empty"
  else if negb (isValidKeyspaceName (Keyspace cfg)) then
    failed cfg []
      ("invalid keyspace name '" ++ Keyspace cfg
       ++ "': must contain only alphanumeric characters and underscores")
  else if negb (lookup_true consistency_levels (ToUpper (Consistency cfg))) then
    failed cfg [] ("invalid consistency level '" ++ Consistency cfg ++ "'")
  else
  let cfg := set_Consistency (ToUpper (Consistency cfg)) cfg in
  if negb (lookup_true replication_strategies (ReplicationClass cfg)) then
    failed cfg []
      ("invalid replication class '" ++ ReplicationClass cfg
       ++ "', must be SimpleStrategy or NetworkTopologyStrategy")
  else
  let simple := String.eqb (ReplicationClass cfg) "SimpleStrategy" in
  if simple && (ReplicationFactor cfg <? 1) then
    failed cfg [] "replication_factor must be at least 1 for SimpleStrategy"
  else
  let ws :=
    if simple && (ReplicationFactor cfg >? 3) then
      [("Warning: High replication factor (" ++ itoa (ReplicationFactor cfg)
        ++ ") may impact performance" ++ newline)%string]
    else [] in
  let topology := String.eqb (ReplicationClass cfg) "NetworkTopologyStrategy" in
  if topology && (Z.of_nat (List.length (DataCenters cfg)) =? 0) then
    failed cfg ws "data_centers must be specified for NetworkTopologyStrategy"
  else
  match (if topology then bad_datacenter (DataCenters cfg) else None) with
  | Some dc =>
      failed cfg ws
        ("replication factor for datacenter '" ++ dc ++ "' must be at least 1")
  | None =>
  if (Port cfg <? 1) || (Port cfg >? 65535) then
    failed cfg ws ("invalid port " ++ itoa (Port cfg) ++ ", must be between 1 and 65535")
  else if Timeout cfg <? 1 then
    failed cfg ws "timeout must be at least 1 second"
  else if ConnectTimeout cfg <? 1 then
    failed cfg ws "connect_timeout must be at least 1 second"
  else if NumConns cfg <? 1 then
    failed cfg ws "num_conns must be at least 1"
  else
  let ws :=
    if NumConns cfg >? 10 then
      ws ++ [("Warning: High connection count (" ++ itoa (NumConns cfg)
              ++ ") per host" ++ newline)%string]
    else ws in
  {| validated := cfg; warnings := ws; error := None |}
  end
  end.

(** What [os.ReadFile] and [yaml.Unmarshal] made of the file. *)
Inductive FileContents : Type :=
  | ReadError (err : string)
  | YAMLError (err : string)
  | Unmarshalled (cfg : CassandraConfig).

(** [LoadCassandraConfig]: the configuration or the error returned, and the
    warnings written on the way. *)
Definition LoadCassandraConfig (file : FileContents)
  : (CassandraConfig + string) * list string :=
  match file with
  | ReadError err => (inr ("failed to read config file: " ++ err)%string, [])
  | YAMLError err => (inr ("failed to parse YAML config: " ++ err)%string, [])
  | Unmarshalled cfg =>
      let v := validateCassandraConfig (setDefaults cfg) in
      match error v with
      | Some err => (inr ("invalid configuration: " ++ err)%string, warnings v)
      | None => (inl (validated v), warnings v)
      end
  end.

End Cassandra.

Definition DefaultConfig : CassandraConfig :=
  {| Hosts := ["127.0.0.1"%string];
     Port := 9042;
     Keyspace := "stellargen";
     Consistency := "QUORUM";
     ReplicationClass := "SimpleStrategy";
     ReplicationFactor := 1;
     DataCenters := [];
     Username := "";
     Password := "";
     Timeout := 30;
     ConnectTimeout := 10;
     NumConns := 2;
     DisableInitialHostLookup := false |}.

Definition MultiDCConfig : CassandraConfig :=
  {| Hosts := ["10.0.1.1"; "10.0.2.1"; "10.0.3.1"]%string;
     Port := 9042;
     Keyspace := "stellargen";
     Consistency := "LOCAL_QUORUM";
     ReplicationClass := "NetworkTopologyStrategy";
     ReplicationFactor := 0;
     DataCenters := [("dc1"%string, 3); ("dc2"%string, 2)];
     Username := "stellargen_user";
     Password := "secure_password";
     Timeout := 30;
     ConnectTimeout := 10;
     NumConns := 3;
     DisableInitialHostLookup := false |}.

(** * package tests

    [tests/generator_test.go].  A test runs in a process whose UUID generator
    is the one of the state, while each call of [GenerateAll] seeds a random
    stream of its own.  The calls of [t.Error] and [t.Errorf] are counted: a
    test yields the number of errors it reported (it passed when there is
    none), unless it panics. *)

Section Tests.
Context {RS : RandSource}.

Notation "x <- m ;; k" := (bind m (fun x => k))
  (at level 61, m at next level, right associativity).

(** [generator.GenerateAll(cfg)], called by a test. *)
Definition call_GenerateAll (cfg : Config) : M GeneratedData :=
  fun w =>
    match GenerateAll_from cfg
            {| rng := NewRand (Seed cfg); uuids := uuids w; next_uuid := next_uuid w |} with
    | Some (data, w') =>
        Some (data, {| rng := rng w; uuids := uuids w'; next_uuid := next_uuid w' |})
    | None => None
    end.

(** [if failed { t.Error(...) }] *)
Definition report (failed : bool) : nat := if failed then 1%nat else 0%nat.

(** [for _, x := range l { ... }], counting the errors of each round. *)
Definition for_each {A} (l : list A) (errors : A -> nat) : nat :=
  fold_left (fun n x => (n + errors x)%nat) l 0%nat.

Definition len {A} (l : list A) : Z := Z.of_nat (List.length l).

Definition strlen (s : string) : Z := Z.of_nat (String.length s).

Definition TestGenerateAllBasic : M nat :=
  let cfg := {| NumStars := 10; PlanetsPerStar := 5; ExoPerStar := 3; Seed := 12345 |} in
  data <- call_GenerateAll cfg ;;
  ret (list_sum
         [ report (negb (len (Stars data) =? NumStars cfg));
           report (len (Planets data) >? wrap64 (NumStars cfg * PlanetsPerStar cfg));
           report (len (Exoplanets data) >? wrap64 (NumStars cfg * ExoPerStar cfg)) ]).

Definition TestGenerateAllReproducibility : M nat :=
  let cfg := {| NumStars := 5; PlanetsPerStar := 3; ExoPerStar := 2; Seed := 99999 |} in
  data1 <- call_GenerateAll cfg ;;
  data2 <- call_GenerateAll cfg ;;
  let e1 := report (negb (len (Stars data1) =? len (Stars data2))) in
  let e2 := report (negb (len (Planets data1) =? len (Planets data2))) in
  let e3 := report (negb (len (Exoplanets data1) =? len (Exoplanets data2))) in
  a1 <- index (Stars data1) 0 ;;
  a2 <- index (Stars data2) 0 ;;
  let e4 := report (negb (String.eqb (Star.Name a1) (Star.Name a2))) in
  b1 <- index (Stars data1) 0 ;;
  b2 <- index (Stars data2) 0 ;;
  let e5 := report (negb (Star.Mass b1 =? Star.Mass b2)%float) in
  ret (list_sum [e1; e2; e3; e4; e5]).

Definition star_errors (star : Star.t) : nat :=
  list_sum
    [ report (strlen (Star.ID star) =? 0);
      report (Star.Mass star <=? 0)%float;
      report (Star.Radius star <=? 0)%float;
      report (Star.Temperature star <=? 0);
      report (strlen (Star.SpectralType star) <? 2) ].

Definition TestStarValidation : M nat :=
  let cfg := {| NumStars := 100; PlanetsPerStar := 5; ExoPerStar := 3; Seed := 54321 |} in
  data <- call_GenerateAll cfg ;;
  ret (for_each (Stars data) star_errors).

Definition planet_errors (planet : Planet.t) : nat :=
  list_sum
    [ report (strlen (Planet.ID planet) =? 0);
      report (strlen (Planet.StarID planet) =? 0);
      report (Planet.OrbitalPeriod planet <=? 0)%float;
      report (Planet.SemiMajorAxis planet <=? 0)%float;
      report ((Planet.Eccentricity planet <? 0)%float
              || (1 <? Planet.Eccentricity planet)%float);
      report (Planet.Mass planet <=? 0)%float;
      report (Planet.Radius planet <=? 0)%float;
      report ((Planet.DiscoveryYear planet <? 1990)
              || (Planet.DiscoveryYear planet >? 2024)) ].

Definition TestPlanetValidation : M nat :=
  let cfg := {| NumStars := 50; PlanetsPerStar := 8; ExoPerStar := 3; Seed := 11111 |} in
  data <- call_GenerateAll cfg ;;
  ret (for_each (Planets data) planet_errors).

Definition exoplanet_errors (exo : Exoplanet.t) : nat :=
  list_sum
    [ report (strlen (Exoplanet.ID exo) =? 0);
      report (strlen (Exoplanet.StarID exo) =? 0);
      report (strlen (Exoplanet.DetectionMethod exo) =? 0);
      report (Exoplanet.HostDistance exo <=? 0)%float;
      report ((Exoplanet.Eccentricity exo <? 0)%float
              || (1 <? Exoplanet.Eccentricity exo)%float);
      report ((Exoplanet.DiscoveryYear exo <? 1990)
              || (Exoplanet.DiscoveryYear exo >? 2024)) ].

Definition TestExoplanetValidation : M nat :=
  let cfg := {| NumStars := 50; PlanetsPerStar := 5; ExoPerStar := 5; Seed := 22222 |} in
  data <- call_GenerateAll cfg ;;
  ret (for_each (Exoplanets data) exoplanet_errors).

(** The map [starIDs] of the test is the set of its keys: a lookup gives
    [true] for the [ID] of a star, [false] otherwise. *)
Definition TestReferentialIntegrity : M nat :=
  let cfg := {| NumStars := 20; PlanetsPerStar := 5; ExoPerStar := 3; Seed := 33333 |} in
  data <- call_GenerateAll cfg ;;
  let starIDs := map Star.ID (Stars data) in
  ret (list_sum
         [ for_each (Planets data)
             (fun planet => report (negb (lookup_true starIDs (Planet.StarID planet))));
           for_each (Exoplanets data)
             (fun exo => report (negb (lookup_true starIDs (Exoplanet.StarID exo)))) ]).

End Tests.

(** * Binary64 arithmetic

    Facts about the IEEE 754 operations, from their specification in the
    standard library ([SpecFloat]): what rounding to nearest does to a value
    enclosed by two floats. *)

Lemma digits2_pos_size p : digits2_pos p = Pos.size p.
Proof. induction p as [p IH|p IH|]; cbn; [rewrite IH|rewrite IH|]; reflexivity. Qed.

Lemma Zdigits2_bounds m :
  0 < m -> 2 ^ (Zdigits2 m - 1) <= m < 2 ^ Zdigits2 m.
Proof.
  destruct m as [|p|p]; try lia. intros _. cbn [Zdigits2].
  rewrite digits2_pos_size.
  pose proof (Pos.size_gt p) as Hgt. pose proof (Pos.size_le p) as Hle.
  apply Pos2Z.pos_lt_pos in Hgt. apply Pos2Z.pos_le_pos in Hle.
  rewrite Pos2Z.inj_pow in Hgt, Hle.
  replace (Z.pos (Pos.size p)) with ((Z.pos (Pos.size p) - 1) + 1) in Hle at 1 by lia.
  rewrite Z.pow_add_r in Hle by lia. change (2 ^ 1) with 2 in Hle.
  change (Z.pos p~0) with (2 * Z.pos p) in Hle. split; lia.
Qed.

Lemma Zdigits2_nonneg m : 0 <= Zdigits2 m.
Proof. destruct m; cbn; lia. Qed.

Lemma Zdigits2_pos m : 0 < m -> 0 < Zdigits2 m.
Proof. destruct m; cbn; lia. Qed.

Lemma Zdigits2_gt m k : 0 <= k -> 2 ^ k <= m -> k < Zdigits2 m.
Proof.
  intros Hk H. assert (0 < m) by (pose proof (Z.pow_pos_nonneg 2 k); lia).
  destruct (Zdigits2_bounds m ltac:(lia)) as [_ Hu].
  apply (Z.pow_lt_mono_r_iff 2); [lia | apply Zdigits2_nonneg | lia].
Qed.

Lemma Zdigits2_le m k : 0 <= m -> 0 <= k -> m < 2 ^ k -> Zdigits2 m <= k.
Proof.
  intros Hm Hk H. destruct (Z.eq_dec m 0) as [->|Hne]; [cbn; lia|].
  destruct (Zdigits2_bounds m ltac:(lia)) as [Hl _].
  assert (Zdigits2 m - 1 < k); [|lia].
  apply (Z.pow_lt_mono_r_iff 2); [lia | lia | lia].
Qed.

(** Shifting a mantissa right, one bit at a time, with the round and sticky bits. *)
Definition shr_inv (mt k : Z) (mrs : shr_record) : Prop :=
  shr_m mrs = mt / 2 ^ k /\
  (shr_r mrs = true <-> 2 ^ k <= 2 * (mt mod 2 ^ k)) /\
  (shr_s mrs = true <-> (mt mod 2 ^ k <> 0 /\ 2 * (mt mod 2 ^ k) <> 2 ^ k)).

Lemma shr_inv_step mt k mrs :
  0 <= mt -> 0 <= k -> shr_inv mt k mrs -> shr_inv mt (k + 1) (shr_1 mrs).
Proof.
  intros Hmt Hk (Hm & Hr & Hs).
  assert (HP : 0 < 2 ^ k) by (apply Z.pow_pos_nonneg; lia).
  unfold shr_inv. rewrite Z.pow_add_r by lia. change (2 ^ 1) with 2.
  pose proof (Z.div_mod mt (2 ^ k) ltac:(lia)) as Hdm.
  pose proof (Z.mod_pos_bound mt (2 ^ k) HP) as Hrho.
  assert (Hq : 0 <= mt / 2 ^ k) by (apply Z.div_pos; lia).
  rewrite (Z.rem_mul_r mt (2 ^ k) 2) by lia.
  rewrite <- (Z.div_div mt (2 ^ k) 2) by lia.
  set (q := mt / 2 ^ k) in *. set (rho := mt mod 2 ^ k) in *. set (P := 2 ^ k) in *.
  pose proof (Z.div_mod q 2 ltac:(lia)) as Hq2.
  pose proof (Z.mod_pos_bound q 2 ltac:(lia)) as Hb.
  destruct mrs as [m r s]. cbn [shr_m shr_r shr_s] in *. subst m.
  assert (Hrs : orb r s = true <-> rho <> 0).
  { rewrite orb_true_iff. split.
    - intros [H|H]; [apply Hr in H; lia | apply Hs in H; tauto].
    - intros H. destruct (Z_lt_le_dec (2 * rho) P) as [Hlt|Hge].
      + right. apply Hs. lia.
      + left. apply Hr. lia. }
  unfold shr_1.
  destruct q as [|[p|p|]|p]; cbn [shr_m shr_r shr_s]; try lia.
  - (* 0 *) change (0 / 2) with 0 in *. change (0 mod 2) with 0 in *.
    split; [reflexivity|]. split; [split; [discriminate | lia]|].
    rewrite Hrs. lia.
  - (* xI *) rewrite Pos2Z.inj_xI in *.
    assert (Z.pos p = (2 * Z.pos p + 1) / 2 /\ (2 * Z.pos p + 1) mod 2 = 1) as [E1 E2].
    { lia. }
    rewrite E2. split; [exact E1|]. split; [split; [lia | reflexivity]|].
    rewrite Hrs. lia.
  - (* xO *) rewrite Pos2Z.inj_xO in *.
    assert (Z.pos p = (2 * Z.pos p) / 2 /\ (2 * Z.pos p) mod 2 = 0) as [E1 E2].
    { lia. }
    rewrite E2. split; [exact E1|]. split; [split; [discriminate | lia]|].
    rewrite Hrs. lia.
  - (* 1 *) change (1 / 2) with 0. change (1 mod 2) with 1.
    split; [reflexivity|]. split; [split; [lia | reflexivity]|].
    rewrite Hrs. lia.
Qed.

Lemma shr_inv_iter mt p : forall k mrs,
  0 <= mt -> 0 <= k -> shr_inv mt k mrs ->
  shr_inv mt (k + Z.pos p) (iter_pos shr_1 p mrs).
Proof.
  induction p as [p IH|p IH|]; intros k mrs Hmt Hk H; cbn [iter_pos].
  - replace (k + Z.pos p~1) with (((k + 1) + Z.pos p) + Z.pos p) by lia.
    apply IH; [lia | lia |]. apply IH; [lia | lia |]. apply shr_inv_step; assumption.
  - replace (k + Z.pos p~0) with ((k + Z.pos p) + Z.pos p) by lia.
    apply IH; [lia | lia |]. apply IH; assumption.
  - apply shr_inv_step; assumption.
Qed.

(** The two bits that stand for a location. *)
Definition loc_code (l : location) : Z :=
  match l with
  | loc_Exact => 0
  | loc_Inexact Lt => 1
  | loc_Inexact Eq => 2
  | loc_Inexact Gt => 3
  end.

Lemma loc_code_range l : 0 <= loc_code l <= 3.
Proof. destruct l as [|[]]; cbn; lia. Qed.

Lemma shr_inv_of_loc m l : 0 <= m -> shr_inv (4 * m + loc_code l) 2 (shr_record_of_loc m l).
Proof.
  intros Hm. unfold shr_inv. change (2 ^ 2) with 4.
  pose proof (loc_code_range l) as Hc.
  assert (E1 : (4 * m + loc_code l) / 4 = m) by (symmetry; apply Z.div_unique with (loc_code l); lia).
  assert (E2 : (4 * m + loc_code l) mod 4 = loc_code l) by (symmetry; apply Z.mod_unique with m; lia).
  rewrite E1, E2.
  destruct l as [|[]]; cbn; repeat split; intros; try lia; try discriminate; try reflexivity.
Qed.

Lemma shr_spec m l e n :
  0 <= m -> 0 <= n ->
  snd (shr (shr_record_of_loc m l) e n) = e + n /\
  shr_inv (4 * m + loc_code l) (n + 2) (fst (shr (shr_record_of_loc m l) e n)).
Proof.
  intros Hm Hn. pose proof (loc_code_range l) as Hc. unfold shr.
  destruct n as [|p|p]; try lia; cbn [fst snd].
  - split; [lia|]. apply shr_inv_of_loc; exact Hm.
  - split; [reflexivity|]. replace (Z.pos p + 2) with (2 + Z.pos p) by lia.
    apply shr_inv_iter; [lia | lia |]. apply shr_inv_of_loc; exact Hm.
Qed.

(** Rounding to nearest: the rounded mantissa is within half a unit. *)
Lemma round_nearest_even_spec mt k mrs :
  0 <= mt -> 0 <= k -> shr_inv mt k mrs ->
  let mr := round_nearest_even (shr_m mrs) (loc_of_shr_record mrs) in
  0 <= mr /\ 2 * Z.abs (2 ^ k * mr - mt) <= 2 ^ k.
Proof.
  intros Hmt Hk (Hm & Hr & Hs).
  assert (HP : 0 < 2 ^ k) by (apply Z.pow_pos_nonneg; lia).
  pose proof (Z.div_mod mt (2 ^ k) ltac:(lia)) as Hdm.
  pose proof (Z.mod_pos_bound mt (2 ^ k) HP) as Hrho.
  assert (Hq : 0 <= mt / 2 ^ k) by (apply Z.div_pos; lia).
  set (q := mt / 2 ^ k) in *. set (rho := mt mod 2 ^ k) in *. set (P := 2 ^ k) in *.
  destruct mrs as [m r s]. cbn [shr_m shr_r shr_s loc_of_shr_record] in *. subst m.
  destruct r, s; cbn [round_nearest_even].
  - assert (P <= 2 * rho) by (apply Hr; reflexivity).
    assert (2 * rho <> P) by (apply Hs; reflexivity). split; [lia|].
    replace (P * (q + 1) - mt) with (P - rho) by lia. lia.
  - assert (P <= 2 * rho) by (apply Hr; reflexivity).
    assert (2 * rho = P).
    { destruct (Z.eq_dec (2 * rho) P) as [E|E]; [exact E|].
      assert (false = true); [apply Hs; lia | discriminate]. }
    destruct (Z.even q); (split; [lia|]).
    + replace (P * q - mt) with (- rho) by lia. lia.
    + replace (P * (q + 1) - mt) with (P - rho) by lia. lia.
  - assert (~ P <= 2 * rho) by (intros H; apply Hr in H; discriminate).
    split; [lia|]. replace (P * q - mt) with (- rho) by lia. lia.
  - assert (~ P <= 2 * rho) by (intros H; apply Hr in H; discriminate).
    split; [lia|]. replace (P * q - mt) with (- rho) by lia. lia.
Qed.

Definition fexp64 (e : Z) : Z := fexp prec emax e.

Lemma fexp64_eq e : fexp64 e = Z.max (e - 53) (-1074).
Proof. reflexivity. Qed.

Lemma shr_zero e n : shr_m (fst (shr (Build_shr_record 0 false false) e n)) = 0.
Proof.
  unfold shr. destruct n as [|p|p]; cbn [fst shr_m]; try reflexivity.
  assert (H : shr_inv 0 0 (Build_shr_record 0 false false)).
  { unfold shr_inv. cbn. repeat split; intros; try lia; try discriminate. }
  apply (shr_inv_iter 0 p 0) in H; [|lia|lia].
  destruct H as [H _]. rewrite H. apply Z.div_0_l.
  pose proof (Z.pow_pos_nonneg 2 (0 + Z.pos p)); lia.
Qed.

(** What [binary_round_aux] returns for a non-negative mantissa that is at
    least as fine as the format asks. *)
Lemma binary_round_aux_spec m e l :
  0 <= m -> e <= fexp64 (Zdigits2 m + e) ->
  let e1 := fexp64 (Zdigits2 m + e) in
  exists mr,
    0 <= mr /\
    2 * Z.abs (2 ^ (e1 - e + 2) * mr - (4 * m + loc_code l)) <= 2 ^ (e1 - e + 2) /\
    (-1074 < e1 -> 2 ^ 52 <= mr) /\
    ((mr = 0 /\ binary_round_aux prec emax false m e l = S754_zero false) \/
     (exists m2 e2,
        canonical_mantissa prec emax m2 e2 = true /\ e1 <= e2 /\
        Z.pos m2 * 2 ^ (e2 - e1) = mr /\
        binary_round_aux prec emax false m e l =
          if e2 <=? 971 then S754_finite false m2 e2 else S754_infinity false)).
Proof.
  intros Hm He e1. unfold binary_round_aux, shr_fexp. fold (fexp64 (Zdigits2 m + e)). fold e1.
  assert (He1 : e <= e1) by exact He.
  assert (Ee1 : e1 = Z.max (Zdigits2 m + e - 53) (-1074)) by reflexivity.
  clearbody e1.
  destruct (shr_spec m l e (e1 - e) Hm ltac:(lia)) as [He' Hinv].
  destruct (shr (shr_record_of_loc m l) e (e1 - e)) as [mrs' e'] eqn:Eshr.
  cbn [fst snd] in He', Hinv. replace (e + (e1 - e)) with e1 in He' by lia. subst e'.
  pose proof (loc_code_range l) as Hc.
  destruct (round_nearest_even_spec (4 * m + loc_code l) (e1 - e + 2) mrs'
              ltac:(lia) ltac:(lia) Hinv) as [Hmr0 Herr].
  set (mr := round_nearest_even (shr_m mrs') (loc_of_shr_record mrs')) in *.
  fold (fexp64 (Zdigits2 mr + e1)).
  set (d := Zdigits2 m) in *.
  assert (Hd0 : 0 <= d) by apply Zdigits2_nonneg.
  assert (Hmt : 4 * m + loc_code l < 2 ^ (d + 2)).
  { rewrite Z.pow_add_r by lia. change (2 ^ 2) with 4.
    destruct (Z.eq_dec m 0) as [->|Hne].
    - subst d. cbn. lia.
    - destruct (Zdigits2_bounds m ltac:(lia)) as [_ Hu]. fold d in Hu. lia. }
  set (P := 2 ^ (e1 - e + 2)) in *.
  assert (HP : 0 < P) by (apply Z.pow_pos_nonneg; lia).
  (* the size of the rounded mantissa *)
  assert (Hsize : (e1 = d + e - 53 /\ -1074 <= e1 /\ 2 ^ 52 <= mr <= 2 ^ 53) \/
                  (e1 = -1074 /\ mr <= 2 ^ 52)).
  { fold d in Ee1.
    destruct (Z_le_gt_dec (-1074) (d + e - 53)) as [Hn|Hs].
    - left. assert (E1 : e1 = d + e - 53) by lia.
      split; [lia|]. split; [lia|].
      assert (Hdpos : 0 < m).
      { destruct (Z.eq_dec m 0) as [->|]; [|lia]. subst d. cbn in *. lia. }
      destruct (Zdigits2_bounds m Hdpos) as [Hl _]. fold d in Hl.
      assert (EP : 2 ^ (d + 2) = 2 ^ 53 * P).
      { unfold P. rewrite <- Z.pow_add_r by lia. f_equal. lia. }
      assert (EL : 4 * 2 ^ (d - 1) = 2 ^ 52 * P).
      { unfold P. change 4 with (2 ^ 2). rewrite <- !Z.pow_add_r by lia. f_equal. lia. }
      split; nia.
    - right. assert (E1 : e1 = -1074) by lia.
      split; [lia|].
      assert (EP : 2 ^ (d + 2) <= 2 ^ 52 * P).
      { unfold P. rewrite <- Z.pow_add_r by lia. apply Z.pow_le_mono_r; lia. }
      nia. }
  exists mr. split; [exact Hmr0|]. split; [exact Herr|]. split.
  { intros Hgt. destruct Hsize as [(_ & _ & H & _)|[H _]]; [exact H | lia]. }
  destruct (Z.eq_dec mr 0) as [Hz|Hnz].
  - left. split; [exact Hz|]. rewrite Hz. cbn [shr_record_of_loc].
    pose proof (shr_zero e1 (fexp64 (Zdigits2 0 + e1) - e1)) as Hz0.
    destruct (shr _ e1 _) as [mrs2 e2]. cbn [fst] in Hz0. rewrite Hz0. reflexivity.
  - right. assert (Hmrpos : 0 < mr) by lia.
    destruct (Zdigits2_bounds mr Hmrpos) as [Hdl Hdu].
    pose proof (Zdigits2_pos mr Hmrpos) as Hdrpos.
    set (dr := Zdigits2 mr) in *.
    assert (Hcases : (fexp64 (dr + e1) = e1) \/ (mr = 2 ^ 53 /\ fexp64 (dr + e1) = e1 + 1)).
    { rewrite fexp64_eq. destruct Hsize as [(E1 & Hge & Hlo & Hhi)|[E1 Hhi]].
      - destruct (Z.eq_dec mr (2 ^ 53)) as [E|NE].
        + right. split; [exact E|].
          assert (dr = 54); [|lia].
          assert (53 < dr) by (apply Zdigits2_gt; lia).
          assert (dr <= 54) by (apply Zdigits2_le; [lia | lia | rewrite E; reflexivity]).
          lia.
        + left. assert (dr = 53); [|lia].
          assert (52 < dr) by (apply Zdigits2_gt; lia).
          assert (dr <= 53) by (apply Zdigits2_le; lia).
          lia.
      - left. assert (dr <= 53); [|lia].
        apply Zdigits2_le; [lia | lia |].
        assert (2 ^ 52 < 2 ^ 53) by reflexivity. lia. }
    destruct Hcases as [Hc0 | [Hmr Hc1]].
    + rewrite Hc0. replace (e1 - e1) with 0 by lia. cbn [shr shr_record_of_loc shr_m].
      destruct mr as [|pm|pm] eqn:Emr; try lia.
      exists pm, e1. split.
      { unfold canonical_mantissa. apply Z.eqb_eq.
        change (Z.pos (digits2_pos pm)) with (Zdigits2 (Z.pos pm)). exact Hc0. }
      split; [lia|]. split; [replace (e1 - e1) with 0 by lia; cbn; lia|].
      reflexivity.
    + rewrite Hc1. replace (e1 + 1 - e1) with 1 by lia. rewrite Hmr.
      cbn [shr shr_record_of_loc shr_m Z.pow Z.pow_pos Pos.iter Z.mul Pos.mul iter_pos shr_1].
      exists (4503599627370496)%positive, (e1 + 1). split.
      { unfold canonical_mantissa. apply Z.eqb_eq. cbn [digits2_pos Pos.succ].
        change (fexp prec emax) with fexp64. rewrite fexp64_eq. lia. }
      split; [lia|]. split; [replace (e1 + 1 - e1) with 1 by lia; reflexivity|].
      change (emax - prec)%Z with 971. reflexivity.
Qed.

(** Dyadic numbers [m * 2^e] as rationals. *)
Definition dy (m e : Z) : Q := (inject_Z m * 2 ^ e)%Q.

Lemma inject_Z_minus a b : (inject_Z (a - b) == inject_Z a - inject_Z b)%Q.
Proof. unfold Z.sub. rewrite inject_Z_plus, inject_Z_opp. ring. Qed.

Lemma q2_pos e : (0 < 2 ^ e)%Q.
Proof. apply Qpower_0_lt. reflexivity. Qed.

Lemma q2_add a b : (2 ^ (a + b) == 2 ^ a * 2 ^ b)%Q.
Proof. apply Qpower_plus. discriminate. Qed.

Lemma q2_Z n : 0 <= n -> (2 ^ n == inject_Z (2 ^ n))%Q.
Proof. intros H. rewrite Zpower_Qpower by exact H. reflexivity. Qed.

Lemma q2_le a b : a <= b -> (2 ^ a <= 2 ^ b)%Q.
Proof.
  intros H. destruct (Z.eq_dec a b) as [->|Hne]; [apply Qle_refl|].
  apply Qlt_le_weak. apply Qpower_lt_compat_l; [lia | reflexivity].
Qed.

Lemma q2_lt_inv a b : (2 ^ a < 2 ^ b)%Q -> a < b.
Proof. intros H. apply (Qpower_lt_compat_l_inv 2); [exact H | reflexivity]. Qed.

Lemma dy_scale b e e' : e <= e' -> (dy b e' == dy (b * 2 ^ (e' - e)) e)%Q.
Proof.
  intros H. unfold dy. rewrite inject_Z_mult, <- q2_Z by lia.
  replace e' with ((e' - e) + e) at 1 by lia. rewrite q2_add. ring.
Qed.

Lemma dy_le a b e : (dy a e <= dy b e)%Q <-> a <= b.
Proof.
  unfold dy. pose proof (q2_pos e) as H. rewrite Zle_Qle. split; intros; nra.
Qed.

Lemma dy_lt a b e : (dy a e < dy b e)%Q <-> a < b.
Proof.
  unfold dy. pose proof (q2_pos e) as H. rewrite Zlt_Qlt. split; intros; nra.
Qed.

Lemma dy_nonneg m e : 0 <= m -> (0 <= dy m e)%Q.
Proof.
  intros H. unfold dy. pose proof (q2_pos e). rewrite Zle_Qle in H. change (inject_Z 0) with 0%Q in H. nra.
Qed.

Lemma dy_digits m e :
  0 < m -> (2 ^ (Zdigits2 m - 1 + e) <= dy m e /\ dy m e < 2 ^ (Zdigits2 m + e))%Q.
Proof.
  intros H. destruct (Zdigits2_bounds m H) as [Hl Hu].
  pose proof (Zdigits2_pos m H) as Hd. pose proof (q2_pos e) as He.
  rewrite !q2_add. rewrite (q2_Z (Zdigits2 m - 1)), (q2_Z (Zdigits2 m)) by lia.
  unfold dy. rewrite Zle_Qle in Hl. rewrite Zlt_Qlt in Hu. split; nra.
Qed.

Definition SF2Q (x : spec_float) : Q :=
  match x with
  | S754_finite s m e => dy (cond_Zopp s (Z.pos m)) e
  | _ => 0%Q
  end.

Definition nonneg_finite (x : spec_float) : Prop :=
  match x with
  | S754_zero _ => True
  | S754_finite false _ _ => True
  | _ => False
  end.

Lemma canonical_facts m e :
  canonical_mantissa prec emax m e = true ->
  e = Z.max (Zdigits2 (Z.pos m) + e - 53) (-1074).
Proof.
  unfold canonical_mantissa. intros H. apply Z.eqb_eq in H.
  change (fexp prec emax) with fexp64 in H. rewrite fexp64_eq in H. cbn [Zdigits2]. lia.
Qed.

Lemma bounded_facts m e :
  bounded prec emax m e = true ->
  e = Z.max (Zdigits2 (Z.pos m) + e - 53) (-1074) /\ e <= 971.
Proof.
  unfold bounded. intros H. apply andb_true_iff in H. destruct H as [H1 H2].
  split; [apply canonical_facts; exact H1 | apply Z.leb_le in H2; exact H2].
Qed.

(** A positive float is below [2^1024]. *)
Lemma bounded_lt_max m e :
  bounded prec emax m e = true -> (dy (Z.pos m) e < 2 ^ 1024)%Q.
Proof.
  intros H. destruct (bounded_facts m e H) as [Hc He].
  destruct (dy_digits (Z.pos m) e ltac:(lia)) as [_ Hu].
  eapply Qlt_le_trans; [exact Hu|]. apply q2_le. lia.
Qed.

(** Rounding keeps a value between two floats that enclose it.  The value
    rounded lies in the cell from [m * 2^e] to [(m + 1) * 2^e]: at its lower
    end when the location is exact, strictly inside otherwise. *)
Lemma round_interval m e l L U :
  0 <= m -> e <= fexp64 (Zdigits2 m + e) ->
  valid_binary L = true -> nonneg_finite L ->
  valid_binary U = true -> nonneg_finite U ->
  (SF2Q L < dy (m + 1) e)%Q ->
  (dy m e <= SF2Q U)%Q ->
  (l <> loc_Exact -> dy m e < SF2Q U)%Q ->
  let R := binary_round_aux prec emax false m e l in
  valid_binary R = true /\ nonneg_finite R /\ (SF2Q L <= SF2Q R <= SF2Q U)%Q.
Proof.
  intros Hm He HvL HnL HvU HnU HL HU HU' R.
  destruct (binary_round_aux_spec m e l Hm He) as (mr & Hmr0 & Herr & Hbig & Hres).
  fold R in Hres.
  set (e1 := fexp64 (Zdigits2 m + e)) in *.
  assert (Ee1 : e1 = Z.max (Zdigits2 m + e - 53) (-1074)) by reflexivity.
  clearbody e1.
  pose proof (loc_code_range l) as Hc.
  assert (Hcx : l = loc_Exact -> loc_code l = 0) by (intros ->; reflexivity).
  set (P := 2 ^ (e1 - e + 2)) in *.
  assert (HP : 0 < P) by (apply Z.pow_pos_nonneg; lia).
  assert (EP : P = 4 * 2 ^ (e1 - e)).
  { unfold P. rewrite Z.pow_add_r by lia. change (2 ^ 2) with 4. lia. }
  assert (HPn : 0 < 2 ^ (e1 - e)) by (apply Z.pow_pos_nonneg; lia).
  (* the upper bound *)
  assert (HmrU : (dy mr e1 <= SF2Q U)%Q).
  { destruct U as [sU| |  |sU mU eU]; cbn [nonneg_finite] in HnU; try contradiction.
    - cbn [SF2Q] in *. assert (m = 0).
      { destruct (Z.eq_dec m 0) as [|Hne]; [assumption|].
        assert (0 < dy m e)%Q; [|lra].
        unfold dy. pose proof (q2_pos e). assert (0 < inject_Z m)%Q; [|nra].
        change 0%Q with (inject_Z 0). rewrite <- Zlt_Qlt. lia. }
      subst m. assert (l = loc_Exact).
      { destruct l; [reflexivity|]. assert (dy 0 e < 0)%Q by (apply HU'; discriminate).
        exfalso. unfold dy in H. change (inject_Z 0) with 0%Q in H. lra. }
      rewrite (Hcx H) in Herr. assert (mr = 0) by nia. subst mr. unfold dy.
      change (inject_Z 0) with 0%Q. lra.
    - destruct sU; [contradiction|]. cbn [SF2Q cond_Zopp] in *.
      cbn [valid_binary] in HvU. destruct (bounded_facts mU eU HvU) as [HcU HeU].
      assert (HeU1 : e1 <= eU).
      { destruct (Z.eq_dec m 0) as [Hz|Hnz]; [subst m; cbn [Zdigits2] in *; lia|].
        destruct (dy_digits m e ltac:(lia)) as [Hlo _].
        destruct (dy_digits (Z.pos mU) eU ltac:(lia)) as [_ Hhi].
        assert (Zdigits2 m - 1 + e < Zdigits2 (Z.pos mU) + eU).
        { apply q2_lt_inv. lra. }
        lia. }
      rewrite (dy_scale (Z.pos mU) e1 eU HeU1) in *.
      set (K := Z.pos mU * 2 ^ (eU - e1)) in *.
      apply dy_le.
      rewrite (dy_scale K e e1 He) in HU, HU'.
      apply dy_le in HU.
      destruct l as [|c].
      + cbn [loc_code] in *. nia.
      + assert (m < K * 2 ^ (e1 - e)).
        { apply (proj1 (dy_lt _ _ e)). apply HU'. discriminate. }
        nia. }
  (* the lower bound *)
  assert (HmrL : (SF2Q L <= dy mr e1)%Q).
  { destruct L as [sL| |  |sL mL eL]; cbn [nonneg_finite] in HnL; try contradiction.
    - cbn [SF2Q]. apply dy_nonneg. exact Hmr0.
    - destruct sL; [contradiction|]. cbn [SF2Q cond_Zopp] in *.
      cbn [valid_binary] in HvL. destruct (bounded_facts mL eL HvL) as [HcL HeL].
      destruct (Z_le_gt_dec e1 eL) as [Hge|Hlt].
      + rewrite (dy_scale (Z.pos mL) e1 eL Hge) in *.
        set (K := Z.pos mL * 2 ^ (eL - e1)) in *.
        apply dy_le.
        rewrite (dy_scale K e e1 He) in HL. apply dy_lt in HL.
        destruct (Z_le_gt_dec K mr) as [|Hcontra]; [assumption|exfalso].
        assert (2 ^ (e1 - e) * mr <= 2 ^ (e1 - e) * (K - 1))
          by (apply Z.mul_le_mono_nonneg_l; lia).
        lia.
      + assert (H52 : 2 ^ 52 <= mr) by (apply Hbig; lia).
        destruct (dy_digits (Z.pos mL) eL ltac:(lia)) as [_ Hhi].
        apply Qlt_le_weak. eapply Qlt_le_trans; [exact Hhi|].
        apply Qle_trans with (2 ^ (52 + e1))%Q; [apply q2_le; lia|].
        rewrite q2_add. rewrite (q2_Z 52) by lia. unfold dy.
        pose proof (q2_pos e1). rewrite Zle_Qle in H52. nra. }
  destruct Hres as [[Hz HR] | (m2 & e2 & Hcan & He2 & Hval & HR)].
  - rewrite HR. cbn [valid_binary nonneg_finite SF2Q]. subst mr.
    unfold dy in HmrU, HmrL. change (inject_Z 0) with 0%Q in HmrU, HmrL.
    split; [reflexivity|]. split; [exact I|]. lra.
  - assert (Hv : (dy (Z.pos m2) e2 == dy mr e1)%Q).
    { rewrite (dy_scale (Z.pos m2) e1 e2 He2). rewrite Hval. reflexivity. }
    assert (Hfin : e2 <= 971).
    { destruct (Z_le_gt_dec e2 971) as [|Hov]; [assumption|exfalso].
      pose proof (canonical_facts m2 e2 Hcan) as Hc2.
      destruct (dy_digits (Z.pos m2) e2 ltac:(lia)) as [Hlo _].
      assert (Hbig2 : (2 ^ 1024 <= dy (Z.pos m2) e2)%Q).
      { eapply Qle_trans; [|exact Hlo]. apply q2_le. lia. }
      destruct U as [sU| |  |sU mU eU]; cbn [nonneg_finite] in HnU; try contradiction.
      - cbn [SF2Q] in HmrU. pose proof (q2_pos 1024). lra.
      - destruct sU; [contradiction|]. cbn [SF2Q cond_Zopp valid_binary] in *.
        pose proof (bounded_lt_max mU eU HvU). lra. }
    apply Z.leb_le in Hfin. rewrite Hfin in HR. rewrite HR.
    cbn [valid_binary nonneg_finite SF2Q cond_Zopp]. unfold bounded.
    rewrite Hcan. change (emax - prec) with 971. rewrite Hfin.
    split; [reflexivity|]. split; [exact I|]. rewrite Hv. split; assumption.
Qed.

Lemma Zdigits2_mul_pow2 m k : 0 < m -> 0 <= k -> Zdigits2 (m * 2 ^ k) = Zdigits2 m + k.
Proof.
  intros Hm Hk. destruct (Zdigits2_bounds m Hm) as [Hl Hu].
  pose proof (Zdigits2_pos m Hm) as Hd.
  assert (HP : 0 < 2 ^ k) by (apply Z.pow_pos_nonneg; lia).
  assert (Zdigits2 m + k - 1 < Zdigits2 (m * 2 ^ k)).
  { apply Zdigits2_gt; [lia|]. replace (Zdigits2 m + k - 1) with ((Zdigits2 m - 1) + k) by lia.
    rewrite Z.pow_add_r by lia. nia. }
  assert (Zdigits2 (m * 2 ^ k) <= Zdigits2 m + k).
  { apply Zdigits2_le; [nia | lia |]. rewrite Z.pow_add_r by lia. nia. }
  lia.
Qed.

Lemma Zdigits2_mul_ge a b :
  0 < a -> 0 < b -> Zdigits2 a + Zdigits2 b - 1 <= Zdigits2 (a * b).
Proof.
  intros Ha Hb. destruct (Zdigits2_bounds a Ha) as [Hal _]. destruct (Zdigits2_bounds b Hb) as [Hbl _].
  pose proof (Zdigits2_pos a Ha). pose proof (Zdigits2_pos b Hb).
  assert (Zdigits2 a + Zdigits2 b - 2 < Zdigits2 (a * b)); [|lia].
  apply Zdigits2_gt; [lia|].
  replace (Zdigits2 a + Zdigits2 b - 2) with ((Zdigits2 a - 1) + (Zdigits2 b - 1)) by lia.
  rewrite Z.pow_add_r by lia.
  assert (0 < 2 ^ (Zdigits2 a - 1)) by (apply Z.pow_pos_nonneg; lia).
  assert (0 < 2 ^ (Zdigits2 b - 1)) by (apply Z.pow_pos_nonneg; lia).
  nia.
Qed.

Lemma Zdigits2_mono a b : 0 <= a <= b -> Zdigits2 a <= Zdigits2 b.
Proof.
  intros [Ha Hab]. destruct (Z.eq_dec a 0) as [->|Hne]; [apply Zdigits2_nonneg|].
  destruct (Zdigits2_bounds a ltac:(lia)) as [Hl _].
  pose proof (Zdigits2_pos a ltac:(lia)).
  assert (Zdigits2 a - 1 < Zdigits2 b); [|lia].
  apply Zdigits2_gt; lia.
Qed.

Lemma fexp64_mono a b : a <= b -> fexp64 a <= fexp64 b.
Proof. rewrite !fexp64_eq. lia. Qed.

Lemma dy_mul a ea b eb : (dy (a * b) (ea + eb) == dy a ea * dy b eb)%Q.
Proof. unfold dy. rewrite inject_Z_mult, q2_add. ring. Qed.

Lemma dy_pos m e : 0 < m -> (0 < dy m e)%Q.
Proof.
  intros H. unfold dy. pose proof (q2_pos e). rewrite Zlt_Qlt in H.
  change (inject_Z 0) with 0%Q in H. nra.
Qed.

Lemma SF2Q_nonneg x : nonneg_finite x -> (0 <= SF2Q x)%Q.
Proof.
  destruct x as [s| | |[] m e]; cbn; intros H; try contradiction; try lra.
  apply dy_nonneg. lia.
Qed.

(** *** Multiplication *)

Lemma SFmul_interval x y L U :
  valid_binary x = true -> nonneg_finite x ->
  valid_binary y = true -> nonneg_finite y ->
  valid_binary L = true -> nonneg_finite L ->
  valid_binary U = true -> nonneg_finite U ->
  (SF2Q L <= SF2Q x * SF2Q y <= SF2Q U)%Q ->
  let R := SFmul prec emax x y in
  valid_binary R = true /\ nonneg_finite R /\ (SF2Q L <= SF2Q R <= SF2Q U)%Q.
Proof.
  intros Hvx Hnx Hvy Hny HvL HnL HvU HnU HLU.
  destruct x as [sx| | |sx mx ex]; cbn [nonneg_finite] in Hnx; try contradiction;
  destruct y as [sy| | |sy my ey]; cbn [nonneg_finite] in Hny; try contradiction;
    cbn [SFmul SF2Q] in *.
  - cbn. split; [reflexivity|]. split; [exact I|]. lra.
  - cbn. split; [reflexivity|]. split; [exact I|]. lra.
  - cbn. split; [reflexivity|]. split; [exact I|]. lra.
  - destruct sx; [contradiction|]. destruct sy; [contradiction|].
    cbn [xorb cond_Zopp valid_binary] in *.
    destruct (bounded_facts mx ex Hvx) as [Hcx _]. destruct (bounded_facts my ey Hvy) as [Hcy _].
    pose proof (Zdigits2_mul_ge (Z.pos mx) (Z.pos my) ltac:(lia) ltac:(lia)) as Hd.
    pose proof (Zdigits2_pos (Z.pos mx) ltac:(lia)). pose proof (Zdigits2_pos (Z.pos my) ltac:(lia)).
    change (Z.pos (mx * my)) with (Z.pos mx * Z.pos my) in *.
    rewrite <- dy_mul in HLU.
    apply round_interval; try assumption; try lia.
    + rewrite fexp64_eq. lia.
    + eapply Qle_lt_trans; [apply HLU|]. apply dy_lt. lia.
    + apply HLU.
    + intros Hne. exfalso. apply Hne. reflexivity.
Qed.

(** *** Rounding an exact positive dyadic number ([binary_round]) *)

Lemma Pos_iter_xO m d : Z.pos (Pos.iter xO m d) = Z.pos m * 2 ^ Z.pos d.
Proof.
  induction d as [|d IH] using Pos.peano_ind.
  - cbn. lia.
  - rewrite Pos.iter_succ, Pos2Z.inj_succ, Z.pow_succ_r by lia.
    rewrite Pos2Z.inj_xO, IH. lia.
Qed.

Lemma shl_align_spec mx ex ez :
  let p := shl_align mx ex ez in
  snd p = Z.min ex ez /\ Z.pos (fst p) = Z.pos mx * 2 ^ (ex - Z.min ex ez).
Proof.
  unfold shl_align. destruct (ez - ex) as [|d|d] eqn:E; cbn [fst snd].
  - replace (Z.min ex ez) with ex by lia. rewrite Z.sub_diag. cbn. lia.
  - replace (Z.min ex ez) with ex by lia. rewrite Z.sub_diag. cbn. lia.
  - replace (Z.min ex ez) with ez by lia. rewrite Pos_iter_xO.
    replace (ex - ez) with (Z.pos d) by lia. split; reflexivity.
Qed.

Lemma binary_round_interval mx ex L U :
  valid_binary L = true -> nonneg_finite L ->
  valid_binary U = true -> nonneg_finite U ->
  (SF2Q L <= dy (Z.pos mx) ex <= SF2Q U)%Q ->
  let R := binary_round prec emax false mx ex in
  valid_binary R = true /\ nonneg_finite R /\ (SF2Q L <= SF2Q R <= SF2Q U)%Q.
Proof.
  intros HvL HnL HvU HnU HLU. unfold binary_round.
  fold (Zdigits2 (Z.pos mx)). fold (fexp64 (Zdigits2 (Z.pos mx) + ex)).
  destruct (shl_align_spec mx ex (fexp64 (Zdigits2 (Z.pos mx) + ex))) as [He Hm].
  destruct (shl_align mx ex (fexp64 (Zdigits2 (Z.pos mx) + ex))) as [mz ez].
  cbn [fst snd] in He, Hm.
  set (t := fexp64 (Zdigits2 (Z.pos mx) + ex)) in *.
  assert (Hv : (dy (Z.pos mz) ez == dy (Z.pos mx) ex)%Q).
  { rewrite Hm. rewrite (dy_scale (Z.pos mx) ez ex) by lia. subst ez. reflexivity. }
  assert (Hd : Zdigits2 (Z.pos mz) + ez = Zdigits2 (Z.pos mx) + ex).
  { rewrite Hm, Zdigits2_mul_pow2 by lia. lia. }
  rewrite <- Hv in HLU.
  apply round_interval; try assumption; try lia.
  - rewrite Hd. fold t. lia.
  - eapply Qle_lt_trans; [apply HLU|]. apply dy_lt. lia.
  - apply HLU.
  - intros Hne. exfalso. apply Hne. reflexivity.
Qed.

(** *** Addition of non-negative numbers *)

Lemma SFadd_interval x y L U :
  valid_binary x = true -> nonneg_finite x ->
  valid_binary y = true -> nonneg_finite y ->
  valid_binary L = true -> nonneg_finite L ->
  valid_binary U = true -> nonneg_finite U ->
  (SF2Q L <= SF2Q x + SF2Q y <= SF2Q U)%Q ->
  let R := SFadd prec emax x y in
  valid_binary R = true /\ nonneg_finite R /\ (SF2Q L <= SF2Q R <= SF2Q U)%Q.
Proof.
  intros Hvx Hnx Hvy Hny HvL HnL HvU HnU HLU.
  destruct x as [sx| | |sx mx ex]; cbn [nonneg_finite] in Hnx; try contradiction;
  destruct y as [sy| | |sy my ey]; cbn [nonneg_finite] in Hny; try contradiction.
  - cbn [SFadd SF2Q] in *.
    destruct sx, sy; cbn; (split; [reflexivity|]; split; [exact I|]; lra).
  - cbn [SFadd]. change (SF2Q (S754_zero sx)) with 0%Q in HLU.
    split; [assumption|]. split; [assumption|]. lra.
  - cbn [SFadd]. change (SF2Q (S754_zero sy)) with 0%Q in HLU.
    split; [assumption|]. split; [assumption|]. lra.
  - destruct sx; [contradiction|]. destruct sy; [contradiction|].
    cbn [SFadd cond_Zopp SF2Q] in *.
    destruct (shl_align_spec mx ex (Z.min ex ey)) as [_ Hx].
    destruct (shl_align_spec my ey (Z.min ex ey)) as [_ Hy].
    replace (Z.min ex (Z.min ex ey)) with (Z.min ex ey) in Hx by lia.
    replace (Z.min ey (Z.min ex ey)) with (Z.min ex ey) in Hy by lia.
    set (ez := Z.min ex ey) in *.
    set (ax := fst (shl_align mx ex ez)) in *. set (ay := fst (shl_align my ey ez)) in *.
    change (Z.pos ax + Z.pos ay) with (Z.pos (ax + ay)). cbn [binary_normalize].
    apply binary_round_interval; try assumption.
    rewrite Pos2Z.inj_add, Hx, Hy.
    rewrite (dy_scale (Z.pos mx) ez ex), (dy_scale (Z.pos my) ez ey) in HLU by lia.
    unfold dy in *. rewrite inject_Z_plus. lra.
Qed.

(** *** Division *)

Lemma new_location_exact n k : new_location n k = loc_Exact <-> k = 0.
Proof.
  unfold new_location, new_location_even, new_location_odd.
  destruct (Z.even n); destruct (Z.eqb_spec k 0) as [E|E]; split; intros H;
    try reflexivity; try assumption; try discriminate; try contradiction.
Qed.

Lemma shift_mantissa m s :
  0 <= s ->
  match s with Z.pos _ => Z.shiftl m s | 0 => m | Z.neg _ => 0 end = m * 2 ^ s.
Proof.
  intros Hs. destruct s as [|p|p].
  - rewrite Z.pow_0_r. lia.
  - apply Z.shiftl_mul_pow2. lia.
  - lia.
Qed.

Lemma SFdiv_core_spec mx ex my ey :
  let '(q, e', l) := SFdiv_core_binary prec emax (Z.pos mx) ex (Z.pos my) ey in
  0 <= q /\ e' <= fexp64 (Zdigits2 q + e') /\ e' <= ex - ey /\
  exists r, 0 <= r < Z.pos my /\
            Z.pos mx * 2 ^ (ex - ey - e') = Z.pos my * q + r /\
            (l = loc_Exact <-> r = 0).
Proof.
  unfold SFdiv_core_binary.
  set (d1 := Zdigits2 (Z.pos mx)). set (d2 := Zdigits2 (Z.pos my)).
  change (fexp prec emax) with fexp64.
  set (e' := Z.min (fexp64 (d1 + ex - (d2 + ey))) (ex - ey)).
  set (s := ex - ey - e').
  assert (Hs : 0 <= s) by (unfold s, e'; lia).
  rewrite (shift_mantissa (Z.pos mx) s Hs).
  pose proof (Z_div_mod (Z.pos mx * 2 ^ s) (Z.pos my) ltac:(lia)) as Hdm.
  destruct (Z.div_eucl (Z.pos mx * 2 ^ s) (Z.pos my)) as [q r].
  destruct Hdm as [Hdm Hr].
  assert (HP : 0 < 2 ^ s) by (apply Z.pow_pos_nonneg; lia).
  assert (Hq : 0 <= q) by nia.
  split; [exact Hq|]. split; [|split; [unfold e'; lia|]].
  - apply Z.le_trans with (fexp64 (d1 + ex - (d2 + ey))); [unfold e'; lia|].
    apply fexp64_mono.
    assert (d1 - d2 + s <= Zdigits2 q); [|unfold s; lia].
    destruct (Zdigits2_bounds (Z.pos mx) ltac:(lia)) as [Hl1 _]. fold d1 in Hl1.
    destruct (Zdigits2_bounds (Z.pos my) ltac:(lia)) as [_ Hu2]. fold d2 in Hu2.
    pose proof (Zdigits2_pos (Z.pos mx) ltac:(lia)) as Hd1. fold d1 in Hd1.
    pose proof (Zdigits2_pos (Z.pos my) ltac:(lia)) as Hd2. fold d2 in Hd2.
    pose proof (Zdigits2_nonneg q).
    destruct (Z_lt_le_dec (d1 - 1 + s - d2) 0) as [Hneg|Hk]; [lia|].
    assert (d1 - 1 + s - d2 < Zdigits2 q); [|lia].
    apply Zdigits2_gt; [lia|].
    assert (E : 2 ^ (d1 - 1) * 2 ^ s = 2 ^ (d1 - 1 + s - d2) * 2 ^ d2).
    { rewrite <- !Z.pow_add_r by lia. f_equal. lia. }
    assert (0 < 2 ^ (d1 - 1 + s - d2)) by (apply Z.pow_pos_nonneg; lia).
    assert (0 < 2 ^ d2) by (apply Z.pow_pos_nonneg; lia).
    nia.
  - exists r. split; [lia|]. split; [fold s; lia|]. apply new_location_exact.
Qed.

Lemma SFdiv_interval x y L U :
  valid_binary x = true -> nonneg_finite x ->
  valid_binary y = true -> nonneg_finite y -> (0 < SF2Q y)%Q ->
  valid_binary L = true -> nonneg_finite L ->
  valid_binary U = true -> nonneg_finite U ->
  (SF2Q L * SF2Q y <= SF2Q x <= SF2Q U * SF2Q y)%Q ->
  let R := SFdiv prec emax x y in
  valid_binary R = true /\ nonneg_finite R /\ (SF2Q L <= SF2Q R <= SF2Q U)%Q.
Proof.
  intros Hvx Hnx Hvy Hny Hypos HvL HnL HvU HnU HLU.
  destruct y as [sy| | |sy my ey]; cbn [nonneg_finite] in Hny; try contradiction;
    [cbn [SF2Q] in Hypos; lra|].
  destruct sy; [contradiction|].
  destruct x as [sx| | |sx mx ex]; cbn [nonneg_finite] in Hnx; try contradiction.
  - cbn [SFdiv SF2Q cond_Zopp] in *. cbn [valid_binary nonneg_finite].
    split; [reflexivity|]. split; [exact I|]. nra.
  - destruct sx; [contradiction|]. cbn [SFdiv SF2Q cond_Zopp xorb] in *.
    pose proof (SFdiv_core_spec mx ex my ey) as Hcore.
    destruct (SFdiv_core_binary prec emax (Z.pos mx) ex (Z.pos my) ey) as [[q e'] l].
    destruct Hcore as (Hq & He' & Hee & r & Hr & Hdiv & Hl).
    assert (Hx : (dy (Z.pos mx) ex == dy (Z.pos my * q + r) (e' + ey))%Q).
    { rewrite (dy_scale (Z.pos mx) (e' + ey) ex) by lia.
      replace (ex - (e' + ey)) with (ex - ey - e') by lia. rewrite Hdiv. reflexivity. }
    rewrite Hx in HLU. unfold dy in HLU, Hypos.
    rewrite q2_add, inject_Z_plus, inject_Z_mult in HLU.
    pose proof (q2_pos e') as HE. pose proof (q2_pos ey) as HEy.
    assert (HM : (0 < inject_Z (Z.pos my))%Q) by (change 0%Q with (inject_Z 0); rewrite <- Zlt_Qlt; lia).
    assert (Hr0 : (0 <= inject_Z r)%Q) by (change 0%Q with (inject_Z 0); rewrite <- Zle_Qle; lia).
    assert (Hr1 : (inject_Z r < inject_Z (Z.pos my))%Q) by (rewrite <- Zlt_Qlt; lia).
    set (M := inject_Z (Z.pos my)) in *. set (qq := inject_Z q) in *. set (rr := inject_Z r) in *.
    set (E := (2 ^ e')%Q) in *. set (Ey := (2 ^ ey)%Q) in *.
    destruct HLU as [HLo HHi].
    assert (HLo' : (SF2Q L * M <= (M * qq + rr) * E)%Q).
    { apply Qmult_le_r with Ey; [exact HEy|]. lra. }
    assert (HHi' : ((M * qq + rr) * E <= SF2Q U * M)%Q).
    { apply Qmult_le_r with Ey; [exact HEy|]. lra. }
    apply round_interval; try assumption.
    + unfold dy. rewrite inject_Z_plus. fold qq E. change (inject_Z 1) with 1%Q.
      apply Qmult_lt_r with M; [exact HM|]. nra.
    + unfold dy. fold qq E. apply Qmult_le_r with M; [exact HM|]. nra.
    + intros Hne. unfold dy. fold qq E.
      assert (0 < r) by (destruct (Z.eq_dec r 0) as [Ez|]; [apply Hl in Ez; contradiction | lia]).
      assert (0 < rr)%Q by (change 0%Q with (inject_Z 0); unfold rr; rewrite <- Zlt_Qlt; lia).
      apply Qmult_lt_r with M; [exact HM|]. nra.
Qed.

(** *** Square root *)

Lemma SFsqrt_core_spec mx ex :
  let '(q, e', l) := SFsqrt_core_binary prec emax (Z.pos mx) ex in
  0 <= q /\ e' <= fexp64 (Zdigits2 q + e') /\ 2 * e' <= ex /\
  exists r, 0 <= r <= 2 * q /\
            Z.pos mx * 2 ^ (ex - 2 * e') = q * q + r /\
            (l = loc_Exact <-> r = 0).
Proof.
  unfold SFsqrt_core_binary.
  set (d := Zdigits2 (Z.pos mx)).
  change (fexp prec emax) with fexp64. rewrite !Z.div2_div.
  set (e' := Z.min (fexp64 ((d + ex + 1) / 2)) (ex / 2)).
  pose proof (Z.div_mod ex 2 ltac:(lia)) as Hex. pose proof (Z.mod_pos_bound ex 2 ltac:(lia)) as Hexb.
  assert (He'2 : 2 * e' <= ex) by (unfold e'; lia).
  set (s := ex - 2 * e'). assert (Hs : 0 <= s) by (unfold s; lia).
  rewrite (shift_mantissa (Z.pos mx) s Hs).
  assert (HP : 0 < 2 ^ s) by (apply Z.pow_pos_nonneg; lia).
  pose proof (Z.sqrtrem_spec (Z.pos mx * 2 ^ s) ltac:(nia)) as Hsq.
  destruct (Z.sqrtrem (Z.pos mx * 2 ^ s)) as [q r]. destruct Hsq as [Hsq Hr].
  assert (Hq : 0 <= q) by lia.
  split; [exact Hq|]. split; [|split; [exact He'2|]].
  - apply Z.le_trans with (fexp64 ((d + ex + 1) / 2)); [unfold e'; lia|].
    apply fexp64_mono.
    pose proof (Zdigits2_pos (Z.pos mx) ltac:(lia)) as Hd. fold d in Hd.
    destruct (Zdigits2_bounds (Z.pos mx) ltac:(lia)) as [Hl _]. fold d in Hl.
    set (j := (d + s - 1) / 2).
    pose proof (Z.div_mod (d + s - 1) 2 ltac:(lia)) as Hj. fold j in Hj.
    pose proof (Z.mod_pos_bound (d + s - 1) 2 ltac:(lia)) as Hjb.
    assert (Hj0 : 0 <= j) by lia.
    assert (Hdq : j < Zdigits2 q).
    { apply Zdigits2_gt; [exact Hj0|].
      assert (Hpow : 2 ^ j * 2 ^ j <= 2 ^ (d - 1) * 2 ^ s).
      { rewrite <- !Z.pow_add_r by lia. apply Z.pow_le_mono_r; lia. }
      assert (0 < 2 ^ j) by (apply Z.pow_pos_nonneg; lia).
      nia. }
    assert (E : (d + ex + 1) / 2 = j + 1 + e').
    { symmetry. apply Z.div_unique with ((d + s - 1) mod 2); [lia|]. unfold s in *. lia. }
    lia.
  - exists r. split; [exact Hr|]. split; [fold s; lia|].
    destruct (Z.eqb_spec r 0) as [E|E]; split; intros H; try reflexivity; try assumption;
      try discriminate; contradiction.
Qed.

Lemma SFsqrt_interval x L U :
  valid_binary x = true -> nonneg_finite x ->
  valid_binary L = true -> nonneg_finite L ->
  valid_binary U = true -> nonneg_finite U ->
  (SF2Q L * SF2Q L <= SF2Q x <= SF2Q U * SF2Q U)%Q ->
  let R := SFsqrt prec emax x in
  valid_binary R = true /\ nonneg_finite R /\ (SF2Q L <= SF2Q R <= SF2Q U)%Q.
Proof.
  intros Hvx Hnx HvL HnL HvU HnU HLU.
  pose proof (SF2Q_nonneg L HnL) as HL0. pose proof (SF2Q_nonneg U HnU) as HU0.
  destruct x as [sx| | |sx mx ex]; cbn [nonneg_finite] in Hnx; try contradiction.
  - cbn [SFsqrt SF2Q] in *. split; [reflexivity|]. split; [exact I|]. nra.
  - destruct sx; [contradiction|]. cbn [SFsqrt SF2Q cond_Zopp] in *.
    pose proof (SFsqrt_core_spec mx ex) as Hcore.
    destruct (SFsqrt_core_binary prec emax (Z.pos mx) ex) as [[q e'] l].
    destruct Hcore as (Hq & He' & Hee & r & Hr & Hsq & Hl).
    assert (Hx : (dy (Z.pos mx) ex == dy (q * q + r) (e' + e'))%Q).
    { rewrite (dy_scale (Z.pos mx) (e' + e') ex) by lia.
      replace (ex - (e' + e')) with (ex - 2 * e') by lia. rewrite Hsq. reflexivity. }
    rewrite Hx in HLU. unfold dy in HLU.
    rewrite q2_add, inject_Z_plus, inject_Z_mult in HLU.
    pose proof (q2_pos e') as HE.
    assert (Hq0 : (0 <= inject_Z q)%Q) by (change 0%Q with (inject_Z 0); rewrite <- Zle_Qle; lia).
    assert (Hr0 : (0 <= inject_Z r)%Q) by (change 0%Q with (inject_Z 0); rewrite <- Zle_Qle; lia).
    assert (Hr1 : (inject_Z r <= 2 * inject_Z q)%Q).
    { change 2%Q with (inject_Z 2). rewrite <- inject_Z_mult, <- Zle_Qle. lia. }
    set (qq := inject_Z q) in *. set (rr := inject_Z r) in *. set (E := (2 ^ e')%Q) in *.
    destruct HLU as [HLo HHi].
    assert (HEE : (0 < E * E)%Q) by nra.
    assert (Ha0 : (0 <= qq * E)%Q) by nra.
    set (EE := (E * E)%Q) in *.
    assert (Hsq1 : ((qq * E) * (qq * E) == qq * qq * EE)%Q) by (unfold EE; ring).
    assert (Hsq2 : (((qq + 1) * E) * ((qq + 1) * E) == (qq * qq + 2 * qq + 1) * EE)%Q)
      by (unfold EE; ring).
    apply round_interval; try assumption.
    + unfold dy. rewrite inject_Z_plus. fold qq E. change (inject_Z 1) with 1%Q.
      destruct (Qlt_le_dec (SF2Q L) ((qq + 1) * E)) as [|Hc]; [assumption|exfalso].
      set (a := ((qq + 1) * E)%Q) in *.
      assert (0 <= a)%Q by (unfold a; nra).
      assert (a * a <= SF2Q L * SF2Q L)%Q by nra.
      nra.
    + unfold dy. fold qq E.
      destruct (Qlt_le_dec (SF2Q U) (qq * E)) as [Hc|]; [exfalso|assumption].
      set (a := (qq * E)%Q) in *.
      assert (SF2Q U * SF2Q U < a * a)%Q by nra.
      nra.
    + intros Hne. unfold dy. fold qq E.
      assert (0 < r) by (destruct (Z.eq_dec r 0) as [Ez|]; [apply Hl in Ez; contradiction | lia]).
      assert (0 < rr)%Q by (change 0%Q with (inject_Z 0); unfold rr; rewrite <- Zlt_Qlt; lia).
      destruct (Qlt_le_dec (qq * E) (SF2Q U)) as [|Hc]; [assumption|exfalso].
      set (a := (qq * E)%Q) in *.
      assert (SF2Q U * SF2Q U <= a * a)%Q by nra.
      nra.
Qed.

(** *** Conversion of a non-negative integer *)

Lemma binary_normalize_interval z L U :
  0 <= z ->
  valid_binary L = true -> nonneg_finite L ->
  valid_binary U = true -> nonneg_finite U ->
  (SF2Q L <= inject_Z z <= SF2Q U)%Q ->
  let R := binary_normalize prec emax z 0 false in
  valid_binary R = true /\ nonneg_finite R /\ (SF2Q L <= SF2Q R <= SF2Q U)%Q.
Proof.
  intros Hz HvL HnL HvU HnU HLU. destruct z as [|p|p]; try lia; cbn [binary_normalize].
  - cbn. change (inject_Z 0) with 0%Q in HLU. split; [reflexivity|]. split; [exact I|]. lra.
  - apply binary_round_interval; try assumption.
    unfold dy. change (2 ^ 0)%Q with 1%Q. lra.
Qed.

(** *** Comparison *)

Lemma canonical_exp_lt m1 e1 m2 e2 :
  bounded prec emax m1 e1 = true -> bounded prec emax m2 e2 = true ->
  e1 < e2 -> (dy (Z.pos m1) e1 < dy (Z.pos m2) e2)%Q.
Proof.
  intros H1 H2 Hlt.
  destruct (bounded_facts m1 e1 H1) as [Hc1 _]. destruct (bounded_facts m2 e2 H2) as [Hc2 _].
  destruct (dy_digits (Z.pos m1) e1 ltac:(lia)) as [_ Hu].
  destruct (dy_digits (Z.pos m2) e2 ltac:(lia)) as [Hl _].
  eapply Qlt_le_trans; [exact Hu|]. eapply Qle_trans; [|exact Hl]. apply q2_le. lia.
Qed.

Lemma SFcompare_Q x y :
  valid_binary x = true -> nonneg_finite x ->
  valid_binary y = true -> nonneg_finite y ->
  SFcompare x y = Some (SF2Q x ?= SF2Q y)%Q.
Proof.
  intros Hvx Hnx Hvy Hny.
  destruct x as [sx| | |sx mx ex]; cbn [nonneg_finite] in Hnx; try contradiction;
  destruct y as [sy| | |sy my ey]; cbn [nonneg_finite] in Hny; try contradiction.
  - reflexivity.
  - destruct sy; [contradiction|]. cbn [SFcompare SF2Q cond_Zopp]. f_equal. symmetry.
    apply Qlt_alt. apply dy_pos. lia.
  - destruct sx; [contradiction|]. cbn [SFcompare SF2Q cond_Zopp]. f_equal. symmetry.
    apply Qgt_alt. apply dy_pos. lia.
  - destruct sx; [contradiction|]. destruct sy; [contradiction|].
    cbn [SFcompare SF2Q cond_Zopp valid_binary] in *. f_equal. symmetry.
    destruct (Z.compare_spec ex ey) as [E|E|E].
    + subst ey. rewrite Pos.compare_cont_spec. cbn [Pos.switch_Eq].
      destruct (Pos.compare_spec mx my) as [Em|Em|Em].
      * subst my. apply Qeq_alt. reflexivity.
      * apply Qlt_alt. apply dy_lt. lia.
      * apply Qgt_alt. apply dy_lt. lia.
    + apply Qlt_alt. apply canonical_exp_lt; assumption.
    + apply Qgt_alt. apply canonical_exp_lt; assumption.
Qed.

Lemma SFltb_Q x y :
  valid_binary x = true -> nonneg_finite x ->
  valid_binary y = true -> nonneg_finite y ->
  (SFltb x y = true <-> (SF2Q x < SF2Q y)%Q).
Proof.
  intros Hvx Hnx Hvy Hny. unfold SFltb. rewrite (SFcompare_Q x y) by assumption.
  rewrite Qlt_alt. destruct (SF2Q x ?= SF2Q y)%Q; split; intros H; try reflexivity; discriminate.
Qed.

Lemma SFleb_Q x y :
  valid_binary x = true -> nonneg_finite x ->
  valid_binary y = true -> nonneg_finite y ->
  (SFleb x y = true <-> (SF2Q x <= SF2Q y)%Q).
Proof.
  intros Hvx Hnx Hvy Hny. unfold SFleb. rewrite (SFcompare_Q x y) by assumption.
  rewrite Qle_alt. destruct (SF2Q x ?= SF2Q y)%Q; split; intros H; try reflexivity;
    try discriminate; try (exfalso; apply H; reflexivity).
Qed.

(** A number that compares as at least zero and below a finite number is
    finite and not negative. *)
Lemma nonneg_finite_of_bounds x c :
  SFleb (S754_zero false) x = true -> SFltb x c = true -> nonneg_finite x.
Proof.
  destruct x as [sx|sx| |sx mx ex]; cbn; intros H0 H1; try exact I; try discriminate.
  - destruct sx; [discriminate|]. destruct c as [sc|sc| |sc mc ec]; cbn in H1; try discriminate.
    destruct sc; discriminate.
  - destruct sx; [discriminate|exact I].
Qed.

(** ** The same facts for the primitive floats *)

Definition F2Q (x : float) : Q := SF2Q (Prim2SF x).

Definition fnn (x : float) : Prop := nonneg_finite (Prim2SF x).

Lemma F2Q_nonneg x : fnn x -> (0 <= F2Q x)%Q.
Proof. apply SF2Q_nonneg. Qed.

Lemma mul_interval x y L U :
  fnn x -> fnn y -> fnn L -> fnn U ->
  (F2Q L <= F2Q x * F2Q y <= F2Q U)%Q ->
  fnn (x * y) /\ (F2Q L <= F2Q (x * y) <= F2Q U)%Q.
Proof.
  intros Hx Hy HL HU H. unfold fnn, F2Q in *. rewrite mul_spec.
  apply SFmul_interval; try assumption; apply Prim2SF_valid.
Qed.

Lemma add_interval x y L U :
  fnn x -> fnn y -> fnn L -> fnn U ->
  (F2Q L <= F2Q x + F2Q y <= F2Q U)%Q ->
  fnn (x + y) /\ (F2Q L <= F2Q (x + y) <= F2Q U)%Q.
Proof.
  intros Hx Hy HL HU H. unfold fnn, F2Q in *. rewrite add_spec.
  apply SFadd_interval; try assumption; apply Prim2SF_valid.
Qed.

Lemma div_interval x y L U :
  fnn x -> fnn y -> (0 < F2Q y)%Q -> fnn L -> fnn U ->
  (F2Q L * F2Q y <= F2Q x <= F2Q U * F2Q y)%Q ->
  fnn (x / y) /\ (F2Q L <= F2Q (x / y) <= F2Q U)%Q.
Proof.
  intros Hx Hy Hy0 HL HU H. unfold fnn, F2Q in *. rewrite div_spec.
  apply SFdiv_interval; try assumption; apply Prim2SF_valid.
Qed.

Lemma sqrt_interval x L U :
  fnn x -> fnn L -> fnn U ->
  (F2Q L * F2Q L <= F2Q x <= F2Q U * F2Q U)%Q ->
  fnn (sqrt x) /\ (F2Q L <= F2Q (sqrt x) <= F2Q U)%Q.
Proof.
  intros Hx HL HU H. unfold fnn, F2Q in *. rewrite sqrt_spec.
  apply SFsqrt_interval; try assumption; apply Prim2SF_valid.
Qed.

Lemma ltb_Q x y : fnn x -> fnn y -> ((x <? y)%float = true <-> (F2Q x < F2Q y)%Q).
Proof.
  intros Hx Hy. rewrite ltb_spec. apply SFltb_Q; try assumption; apply Prim2SF_valid.
Qed.

Lemma leb_Q x y : fnn x -> fnn y -> ((x <=? y)%float = true <-> (F2Q x <= F2Q y)%Q).
Proof.
  intros Hx Hy. rewrite leb_spec. apply SFleb_Q; try assumption; apply Prim2SF_valid.
Qed.

Lemma fnn_of_bounds x c :
  (0 <=? x)%float = true -> (x <? c)%float = true -> fnn x.
Proof.
  rewrite leb_spec, ltb_spec. apply nonneg_finite_of_bounds.
Qed.

(** ** Intervals *)

Definition in_range (a b : Q) (x : float) : Prop :=
  fnn x /\ (a <= F2Q x <= b)%Q.

Lemma in_range_weaken a b a' b' x :
  in_range a b x -> (a' <= a)%Q -> (b <= b')%Q -> in_range a' b' x.
Proof. intros [Hn H] Ha Hb. split; [exact Hn | lra]. Qed.

Lemma mul_range a1 b1 a2 b2 x y L U :
  in_range a1 b1 x -> in_range a2 b2 y -> (0 <= a1)%Q -> (0 <= a2)%Q ->
  fnn L -> fnn U -> (F2Q L <= a1 * a2)%Q -> (b1 * b2 <= F2Q U)%Q ->
  in_range (F2Q L) (F2Q U) (x * y).
Proof.
  intros [Hx Hxr] [Hy Hyr] Ha1 Ha2 HL HU HLa HUb.
  apply mul_interval; try assumption. split; nra.
Qed.

Lemma add_range a1 b1 a2 b2 x y L U :
  in_range a1 b1 x -> in_range a2 b2 y ->
  fnn L -> fnn U -> (F2Q L <= a1 + a2)%Q -> (b1 + b2 <= F2Q U)%Q ->
  in_range (F2Q L) (F2Q U) (x + y).
Proof.
  intros [Hx Hxr] [Hy Hyr] HL HU HLa HUb.
  apply add_interval; try assumption. split; lra.
Qed.

Lemma div_range a1 b1 a2 b2 x y L U :
  in_range a1 b1 x -> in_range a2 b2 y -> (0 <= a1)%Q -> (0 < a2)%Q ->
  fnn L -> fnn U -> (F2Q L * b2 <= a1)%Q -> (b1 <= F2Q U * a2)%Q ->
  in_range (F2Q L) (F2Q U) (x / y).
Proof.
  intros [Hx Hxr] [Hy Hyr] Ha1 Ha2 HL HU HLa HUb.
  pose proof (F2Q_nonneg L HL). pose proof (F2Q_nonneg U HU).
  apply div_interval; try assumption; [lra|]. split; nra.
Qed.

Lemma sqrt_range a b x L U :
  in_range a b x -> fnn L -> fnn U ->
  (F2Q L * F2Q L <= a)%Q -> (b <= F2Q U * F2Q U)%Q ->
  in_range (F2Q L) (F2Q U) (sqrt x).
Proof.
  intros [Hx Hxr] HL HU HLa HUb.
  apply sqrt_interval; try assumption. split; lra.
Qed.

(** A draw [f] of the unit interval, scaled: [lo + f * d]. *)
Lemma scaled_draw_range lo d f U :
  (0 <=? f)%float = true -> (f <? 1)%float = true ->
  fnn lo -> fnn d -> fnn U -> (F2Q lo + F2Q d <= F2Q U)%Q ->
  in_range (F2Q lo) (F2Q U) (lo + f * d).
Proof.
  intros H0 H1 Hlo Hd HU Hsum.
  pose proof (fnn_of_bounds f 1 H0 H1) as Hf.
  assert (Hone : fnn 1) by exact I.
  assert (Hf1 : (F2Q f < 1)%Q).
  { assert (E : (F2Q 1 == 1)%Q) by (vm_compute; reflexivity).
    rewrite <- E. apply (proj1 (ltb_Q f 1 Hf Hone)). exact H1. }
  pose proof (F2Q_nonneg f Hf) as Hf0. pose proof (F2Q_nonneg d Hd) as Hd0.
  assert (Hz : fnn 0) by exact I.
  assert (Hp : in_range (F2Q 0) (F2Q d) (f * d)).
  { apply mul_interval; try assumption. change (F2Q 0) with 0%Q. split; nra. }
  change (F2Q 0) with 0%Q in Hp.
  eapply (add_range (F2Q lo) (F2Q lo) 0 (F2Q d)); try eassumption.
  - split; [exact Hlo | lra].
  - lra.
Qed.

(** The integer part. *)
Lemma trunc_float_spec x :
  fnn x -> exists z, trunc_float x = Some z /\ 0 <= z /\
                     (inject_Z z <= F2Q x < inject_Z z + 1)%Q.
Proof.
  unfold fnn, F2Q, trunc_float. destruct (Prim2SF x) as [s| | |s m e]; cbn [nonneg_finite];
    intros H; try contradiction.
  - exists 0. split; [reflexivity|]. split; [lia|].
    change (SF2Q (S754_zero s)) with 0%Q. change (inject_Z 0) with 0%Q. lra.
  - destruct s; [contradiction|]. cbn [SF2Q cond_Zopp].
    destruct e as [|p|p].
    + exists (Z.pos m * 2 ^ 0). split; [reflexivity|]. split; [lia|].
      unfold dy. rewrite Z.pow_0_r, Z.mul_1_r. change (2 ^ 0)%Q with 1%Q. lra.
    + exists (Z.pos m * 2 ^ Z.pos p). split; [reflexivity|].
      assert (0 < 2 ^ Z.pos p) by (apply Z.pow_pos_nonneg; lia). split; [nia|].
      rewrite (dy_scale (Z.pos m) 0 (Z.pos p)) by lia. rewrite Z.sub_0_r.
      unfold dy. change (2 ^ 0)%Q with 1%Q. lra.
    + exists (Z.pos m / 2 ^ Z.pos p). split; [reflexivity|].
      assert (HP : 0 < 2 ^ Z.pos p) by (apply Z.pow_pos_nonneg; lia).
      pose proof (Z.div_mod (Z.pos m) (2 ^ Z.pos p) ltac:(lia)) as Hdm.
      pose proof (Z.mod_pos_bound (Z.pos m) (2 ^ Z.pos p) HP) as Hr.
      assert (Hq : 0 <= Z.pos m / 2 ^ Z.pos p) by (apply Z.div_pos; lia).
      split; [exact Hq|].
      set (q := Z.pos m / 2 ^ Z.pos p) in *. set (r := Z.pos m mod 2 ^ Z.pos p) in *.
      assert (E1 : (inject_Z q == dy (q * 2 ^ Z.pos p) (Z.neg p))%Q).
      { rewrite <- (dy_scale q (Z.neg p) 0) by lia. unfold dy. change (2 ^ 0)%Q with 1%Q. ring. }
      assert (E2 : (inject_Z q + 1 == dy ((q + 1) * 2 ^ Z.pos p) (Z.neg p))%Q).
      { rewrite <- (dy_scale (q + 1) (Z.neg p) 0) by lia. unfold dy.
        rewrite inject_Z_plus. change (2 ^ 0)%Q with 1%Q. change (inject_Z 1) with 1%Q. ring. }
      split; [rewrite E1; apply dy_le; lia | rewrite E2; apply dy_lt; lia].
Qed.

Lemma int32_of_float_range a b x :
  in_range a b x -> (1 <= a)%Q -> (b <= inject_Z maxInt32)%Q ->
  0 < int32_of_float x <= maxInt32 /\
  (inject_Z (int32_of_float x) <= F2Q x < inject_Z (int32_of_float x) + 1)%Q.
Proof.
  intros [Hx Hr] Ha Hb. unfold int32_of_float.
  destruct (trunc_float_spec x Hx) as (z & -> & Hz & Hlo & Hhi).
  assert (Hz1 : 0 < z).
  { assert (0 < inject_Z z + 1)%Q by lra.
    assert (inject_Z 0 < inject_Z (z + 1))%Q by (rewrite inject_Z_plus; exact H).
    rewrite <- Zlt_Qlt in H0. destruct (Z.eq_dec z 0) as [->|]; [|lia].
    change (inject_Z 0) with 0%Q in *. lra. }
  assert (Hz2 : z <= maxInt32) by (rewrite Zle_Qle; lra).
  assert (E : (minInt32 <=? z) && (z <=? maxInt32) = true).
  { apply andb_true_iff. split; apply Z.leb_le; [unfold minInt32; lia | exact Hz2]. }
  rewrite E. split; [lia | split; assumption].
Qed.

Lemma float64_of_int_range z L U :
  0 <= z < 2 ^ 63 -> fnn L -> fnn U ->
  (F2Q L <= inject_Z z <= F2Q U)%Q ->
  in_range (F2Q L) (F2Q U) (float64_of_int z).
Proof.
  intros Hz HL HU H. unfold float64_of_int.
  destruct (z <? 0) eqn:E; [apply Z.ltb_lt in E; lia|].
  unfold in_range, fnn, F2Q. rewrite of_uint63_spec, Uint63.of_Z_spec.
  rewrite Z.mod_small by (change Uint63.wB with (2 ^ 63); lia).
  apply binary_normalize_interval; try assumption; try lia; apply Prim2SF_valid.
Qed.

(** Closed side conditions are settled by evaluation. *)
Ltac closed_Q :=
  match goal with
  | |- (_ <= _)%Q => vm_compute; let H := fresh in intro H; discriminate H
  | |- (_ < _)%Q => vm_compute; reflexivity
  | |- fnn _ => vm_compute; exact I
  end.

(** Kepler's period is positive and finite for the axes and star masses the
    generator draws. *)
Lemma kepler_period_range a M :
  in_range (F2Q 0x1p-7) (F2Q 0x1p+6) a -> in_range (F2Q 0x1p-4) (F2Q 0x1p+7) M ->
  in_range (F2Q 0x1p-6) (F2Q 0x1p+20) (kepler_period a M).
Proof.
  intros Ha HM. unfold kepler_period.
  assert (H2 : in_range (F2Q 0x1p-14) (F2Q 0x1p+12) (a * a)).
  { eapply mul_range; try eassumption; closed_Q. }
  assert (H3 : in_range (F2Q 0x1p-21) (F2Q 0x1p+18) (a * a * a)).
  { eapply mul_range; try eassumption; closed_Q. }
  assert (H4 : in_range (F2Q 0x1p-28) (F2Q 0x1p+22) (a * a * a / M)).
  { eapply div_range; try eassumption; closed_Q. }
  assert (H5 : in_range (F2Q 0x1p-14) (F2Q 0x1p+11) (sqrt (a * a * a / M))).
  { eapply sqrt_range; try eassumption; closed_Q. }
  assert (Hc : in_range (F2Q 365.25) (F2Q 365.25) 365.25).
  { split; [closed_Q|]. split; apply Qle_refl. }
  eapply mul_range; try eassumption; closed_Q.
Qed.

(** Rounding an exact value to nearest: when the result is finite it lies
    within half a unit in the last place of the value. *)
Lemma round_error m e :
  0 <= m -> e <= fexp64 (Zdigits2 m + e) ->
  let R := binary_round_aux prec emax false m e loc_Exact in
  nonneg_finite R ->
  (2 * (SF2Q R - dy m e) <= 2 ^ fexp64 (Zdigits2 m + e))%Q.
Proof.
  intros Hm He R HR.
  destruct (binary_round_aux_spec m e loc_Exact Hm He) as (mr & Hmr0 & Herr & _ & Hres).
  fold R in Hres. set (e1 := fexp64 (Zdigits2 m + e)) in *. clearbody e1.
  cbn [loc_code] in Herr.
  assert (HPn : 0 < 2 ^ (e1 - e)) by (apply Z.pow_pos_nonneg; lia).
  assert (EP : 2 ^ (e1 - e + 2) = 4 * 2 ^ (e1 - e)).
  { rewrite Z.pow_add_r by lia. change (2 ^ 2) with 4. lia. }
  rewrite EP in Herr.
  assert (Hval : (SF2Q R == dy mr e1)%Q).
  { destruct Hres as [[Hz E] | (m2 & e2 & Hcan & He2 & Hv & E)].
    - rewrite E, Hz. unfold dy. cbn [SF2Q]. change (inject_Z 0) with 0%Q. ring.
    - rewrite E in HR |- *. destruct (e2 <=? 971); [|contradiction].
      cbn [SF2Q cond_Zopp]. rewrite (dy_scale (Z.pos m2) e1 e2 He2), Hv. reflexivity. }
  rewrite Hval. rewrite (dy_scale mr e e1 He).
  assert (E1 : (2 ^ e1 == dy (2 ^ (e1 - e)) e)%Q).
  { pose proof (dy_scale 1 e e1 He) as Hs. rewrite Z.mul_1_l in Hs. rewrite <- Hs.
    unfold dy. change (inject_Z 1) with 1%Q. ring. }
  rewrite E1. unfold dy. pose proof (q2_pos e) as HE.
  assert (Hz : 2 * (mr * 2 ^ (e1 - e) - m) <= 2 ^ (e1 - e)) by lia.
  rewrite Zle_Qle in Hz.
  rewrite inject_Z_mult, inject_Z_minus in Hz. change (inject_Z 2) with 2%Q in Hz.
  set (a := inject_Z (mr * 2 ^ (e1 - e))) in *. set (b := inject_Z m) in *.
  set (c := inject_Z (2 ^ (e1 - e))) in *. nra.
Qed.

(** A float below one is at most the largest float below one. *)
Lemma SF_below_one x :
  valid_binary x = true -> nonneg_finite x -> (SF2Q x < 1)%Q ->
  (SF2Q x <= 1 - 2 ^ (-53))%Q.
Proof.
  intros Hv Hn H1. destruct x as [s| | |s m e]; cbn [nonneg_finite] in Hn; try contradiction.
  - cbn. intro H; discriminate H.
  - destruct s; [contradiction|]. cbn [SF2Q cond_Zopp valid_binary] in *.
    destruct (bounded_facts m e Hv) as [Hc _].
    destruct (dy_digits (Z.pos m) e ltac:(lia)) as [Hlo Hhi].
    pose proof (Zdigits2_pos (Z.pos m) ltac:(lia)) as Hd.
    destruct (Z_le_gt_dec (-53) e) as [Hge|Hlt].
    + assert (He0 : e < 0).
      { apply q2_lt_inv. change (2 ^ 0)%Q with 1%Q.
        eapply Qle_lt_trans; [|exact H1]. eapply Qle_trans; [|exact Hlo]. apply q2_le. lia. }
      assert (E1 : (1 == dy (2 ^ (- e)) e)%Q).
      { pose proof (dy_scale 1 e 0 ltac:(lia)) as Hs. rewrite Z.mul_1_l, Z.sub_0_l in Hs.
        rewrite <- Hs. unfold dy. change (2 ^ 0)%Q with 1%Q.
        change (inject_Z 1) with 1%Q. ring. }
      rewrite E1 in H1. apply dy_lt in H1.
      assert (Hm : Z.pos m <= 2 ^ (- e) - 1) by lia.
      apply (proj2 (dy_le _ _ e)) in Hm. unfold dy in Hm, E1 |- *.
      rewrite inject_Z_minus in Hm. change (inject_Z 1) with 1%Q in Hm.
      pose proof (q2_le (-53) e Hge). lra.
    + eapply Qle_trans; [apply Qlt_le_weak; exact Hhi|].
      apply Qle_trans with (2 ^ (-1))%Q; [apply q2_le; lia|].
      vm_compute. intro H; discriminate H.
Qed.

(** Scaling a float that is not a power of two by a factor below one gives a
    float strictly below it. *)
Lemma SFmul_below x my ey :
  valid_binary x = true -> nonneg_finite x -> (SF2Q x < 1)%Q ->
  bounded prec emax my ey = true -> 2 ^ 52 < Z.pos my ->
  let y := S754_finite false my ey in
  (SF2Q (SFmul prec emax x y) < SF2Q y)%Q.
Proof.
  intros Hvx Hnx Hx1 Hby Hmy y.
  pose proof (SF_below_one x Hvx Hnx Hx1) as Hx53.
  destruct x as [sx| | |sx mx ex]; cbn [nonneg_finite] in Hnx; try contradiction.
  - cbn [SFmul y SF2Q cond_Zopp]. apply dy_pos. lia.
  - destruct sx; [contradiction|]. unfold y. cbn [SFmul xorb SF2Q cond_Zopp valid_binary] in *.
    destruct (bounded_facts mx ex Hvx) as [Hcx _]. destruct (bounded_facts my ey Hby) as [Hcy _].
    pose proof (Zdigits2_mul_ge (Z.pos mx) (Z.pos my) ltac:(lia) ltac:(lia)) as Hd.
    pose proof (Zdigits2_pos (Z.pos mx) ltac:(lia)). pose proof (Zdigits2_pos (Z.pos my) ltac:(lia)).
    change (Z.pos (mx * my)) with (Z.pos mx * Z.pos my) in *.
    set (m := Z.pos mx * Z.pos my) in *. set (e := ex + ey) in *.
    assert (Hexp : e <= fexp64 (Zdigits2 m + e)) by (rewrite fexp64_eq; unfold e; lia).
    assert (Hv : (dy m e == dy (Z.pos mx) ex * dy (Z.pos my) ey)%Q) by apply dy_mul.
    pose proof (dy_pos (Z.pos my) ey ltac:(lia)) as Hypos.
    pose proof (dy_pos (Z.pos mx) ex ltac:(lia)) as Hxpos.
    assert (Hvle : (dy m e <= dy (Z.pos my) ey)%Q) by (rewrite Hv; nra).
    destruct (round_interval m e loc_Exact (S754_zero false) (S754_finite false my ey))
      as (_ & HnR & _ & HRy); try assumption; try lia; try exact I; try reflexivity.
    { cbn [SF2Q]. apply dy_pos. lia. }
    { intros Hne. exfalso. apply Hne. reflexivity. }
    pose proof (round_error m e ltac:(lia) Hexp HnR) as Herr.
    cbn [SF2Q cond_Zopp] in HRy.
    set (R := binary_round_aux prec emax false m e loc_Exact) in *.
    assert (He1 : fexp64 (Zdigits2 m + e) <= ey).
    { destruct (dy_digits m e ltac:(lia)) as [Hlo _].
      destruct (dy_digits (Z.pos my) ey ltac:(lia)) as [_ Hhi].
      assert (Zdigits2 m - 1 + e < Zdigits2 (Z.pos my) + ey) by (apply q2_lt_inv; lra).
      rewrite fexp64_eq. lia. }
    destruct (Qlt_le_dec (SF2Q R) (dy (Z.pos my) ey)) as [|Hge]; [assumption|exfalso].
    pose proof (q2_le _ _ He1) as Hpow.
    assert (H52 : (2 ^ 52 * 2 ^ ey < dy (Z.pos my) ey)%Q).
    { rewrite (q2_Z 52) by lia. apply dy_lt. exact Hmy. }
    assert (E53 : (2 ^ (-53) * 2 ^ 52 * 2 == 1)%Q) by reflexivity.
    pose proof (q2_pos ey). set (T := dy (Z.pos my) ey) in *. set (X := dy (Z.pos mx) ex) in *.
    set (E := (2 ^ ey)%Q) in *. set (c := (2 ^ (-53))%Q) in *. set (p52 := (2 ^ 52)%Q) in *.
    assert (0 < c)%Q by reflexivity.
    assert (2 * (c * T) <= E)%Q by nra.
    assert (c * (p52 * E) < c * T)%Q by nra.
    nra.
Qed.

Lemma mul_below f T my ey :
  (0 <=? f)%float = true -> (f <? 1)%float = true ->
  Prim2SF T = S754_finite false my ey -> 2 ^ 52 < Z.pos my ->
  (0 <=? f * T)%float = true /\ (f * T <? T)%float = true.
Proof.
  intros H0 H1 HT Hmy.
  pose proof (fnn_of_bounds f 1 H0 H1) as Hf.
  assert (HfT : fnn T) by (unfold fnn; rewrite HT; exact I).
  assert (Hf1 : (F2Q f < 1)%Q).
  { assert (E : (F2Q 1 == 1)%Q) by (vm_compute; reflexivity).
    rewrite <- E. assert (Hone : fnn 1) by exact I.
    apply (proj1 (ltb_Q f 1 Hf Hone)). exact H1. }
  pose proof (F2Q_nonneg f Hf) as Hf0. pose proof (F2Q_nonneg T HfT) as HT0.
  assert (Hp : in_range (F2Q 0) (F2Q T) (f * T)).
  { apply mul_interval; try assumption; [exact I|]. change (F2Q 0) with 0%Q. split; nra. }
  destruct Hp as [Hn Hr]. split.
  - assert (Hz : fnn 0) by exact I.
    apply (proj2 (leb_Q 0 (f * T) Hz Hn)). apply Hr.
  - apply (proj2 (ltb_Q (f * T) T Hn HfT)). unfold F2Q. rewrite mul_spec, HT.
    apply SFmul_below; try assumption.
    + apply Prim2SF_valid.
    + pose proof (Prim2SF_valid T) as Hv. rewrite HT in Hv. exact Hv.
Qed.

(** A float below a float whose mantissa is not the smallest of its binade
    is at most that float's predecessor. *)
Lemma SF_below_pred y md ed :
  valid_binary y = true -> nonneg_finite y ->
  bounded prec emax md ed = true -> 2 ^ 52 < Z.pos md ->
  (SF2Q y < dy (Z.pos md) ed)%Q ->
  (SF2Q y <= dy (Z.pos md - 1) ed)%Q.
Proof.
  intros Hv Hn Hb Hmd Hlt.
  destruct y as [s| | |s m e]; cbn [nonneg_finite] in Hn; try contradiction.
  - cbn [SF2Q]. apply dy_nonneg. lia.
  - destruct s; [contradiction|]. cbn [SF2Q cond_Zopp valid_binary] in *.
    destruct (Z.compare_spec e ed) as [E|E|E].
    + subst e. apply dy_lt in Hlt. apply dy_le. lia.
    + destruct (bounded_facts m e Hv) as [Hc _].
      destruct (dy_digits (Z.pos m) e ltac:(lia)) as [_ Hhi].
      apply Qlt_le_weak. eapply Qlt_le_trans; [exact Hhi|].
      apply Qle_trans with (dy (2 ^ 52) ed).
      * unfold dy. rewrite <- (q2_Z 52) by lia. rewrite <- q2_add. apply q2_le. lia.
      * apply dy_le. lia.
    + exfalso. pose proof (canonical_exp_lt md ed m e Hb Hv E). lra.
Qed.

(** The surface temperature is a positive int32, the integer part of the
    float product it is converted from. *)
Lemma surface_temp_range T R a :
  2400 <= T <= 50000 ->
  in_range (F2Q 0x1p-4) (F2Q 0x1p+4) R -> in_range (F2Q 0x1p-7) (F2Q 0x1p+6) a ->
  0 < surface_temp T R a <= maxInt32 /\
  (inject_Z (surface_temp T R a)
     <= F2Q (float64_of_int T * sqrt (R / (2.0 * a)))
     < inject_Z (surface_temp T R a) + 1)%Q.
Proof.
  intros HT HR Ha. unfold surface_temp.
  assert (H2 : in_range (F2Q 2) (F2Q 2) 2).
  { split; [closed_Q|]. split; apply Qle_refl. }
  assert (H2a : in_range (F2Q 0x1p-6) (F2Q 0x1p+7) (2 * a)).
  { eapply mul_range; try eassumption; closed_Q. }
  assert (Hq : in_range (F2Q 0x1p-11) (F2Q 0x1p+10) (R / (2 * a))).
  { eapply div_range; try eassumption; closed_Q. }
  assert (Hs : in_range (F2Q 0x1p-6) (F2Q 0x1p+5) (sqrt (R / (2 * a)))).
  { eapply sqrt_range; try eassumption; closed_Q. }
  assert (Ht : in_range (F2Q 0x1p+11) (F2Q 0x1p+16) (float64_of_int T)).
  { apply float64_of_int_range; try closed_Q; [lia|].
    split.
    - apply Qle_trans with (inject_Z 2400); [closed_Q | rewrite <- Zle_Qle; lia].
    - apply Qle_trans with (inject_Z 50000); [rewrite <- Zle_Qle; lia | closed_Q]. }
  assert (Hp : in_range (F2Q 0x1p+5) (F2Q 0x1p+21)
                 (float64_of_int T * sqrt (R / (2 * a)))).
  { eapply mul_range; try eassumption; closed_Q. }
  eapply int32_of_float_range; [exact Hp | closed_Q | closed_Q].
Qed.

(** * Reasoning about the generator *)

Section GeneratorProofs.
Context {RS : RandSource}.

Notation "x <- m ;; k" := (bind m (fun x => k))
  (at level 61, m at next level, right associativity).
Notation "' pat <- m ;; k" := (bind m (fun x => match x with pat => k end))
  (at level 61, pat pattern, m at next level, right associativity).

(** ** Reasoning about runs

    [returns m Q]: every result of [m] satisfies [Q] (whatever the state it
    starts from).  [total m]: [m] never panics. *)

Definition returns {A} (m : M A) (Q : A -> Prop) : Prop :=
  forall w a w', m w = Some (a, w') -> Q a.

Definition total {A} (m : M A) : Prop :=
  forall w, m w <> None.

Lemma returns_ret {A} (a : A) (Q : A -> Prop) : Q a -> returns (ret a) Q.
Proof. intros H w a' w' E. inversion E; subst; exact H. Qed.

Lemma returns_bind {A B} (m : M A) (k : A -> M B) (P : A -> Prop) (Q : B -> Prop) :
  returns m P -> (forall a, P a -> returns (k a) Q) -> returns (bind m k) Q.
Proof.
  intros Hm Hk w b w' E. unfold bind in E.
  destruct (m w) as [[a w1]|] eqn:Em; [|discriminate].
  exact (Hk a (Hm _ _ _ Em) _ _ _ E).
Qed.

Lemma returns_weaken {A} (m : M A) (P Q : A -> Prop) :
  returns m P -> (forall a, P a -> Q a) -> returns m Q.
Proof. intros Hm HPQ w a w' E. apply HPQ. exact (Hm _ _ _ E). Qed.

Lemma returns_conj {A} (m : M A) (P Q : A -> Prop) :
  returns m P -> returns m Q -> returns m (fun a => P a /\ Q a).
Proof. intros HP HQ w a w' E. split; [exact (HP _ _ _ E) | exact (HQ _ _ _ E)]. Qed.

Lemma returns_any {A} (m : M A) : returns m (fun _ => True).
Proof. intros w a w' _. exact I. Qed.

Lemma returns_panic {A} (Q : A -> Prop) : returns panic Q.
Proof. intros w a w' E. discriminate. Qed.

Lemma total_ret {A} (a : A) : total (ret a).
Proof. intros w. discriminate. Qed.

Lemma total_bind {A B} (m : M A) (k : A -> M B) (P : A -> Prop) :
  total m -> returns m P -> (forall a, P a -> total (k a)) -> total (bind m k).
Proof.
  intros Tm Hm Tk w. unfold bind.
  destruct (m w) as [[a w1]|] eqn:Em.
  - apply (Tk a). exact (Hm _ _ _ Em).
  - exfalso. exact (Tm w Em).
Qed.

(** The loop rule: an invariant indexed by the loop counter. *)
Lemma returns_for_from {S} (I : Z -> S -> Prop) (body : Z -> S -> M S) :
  forall count i s,
    I i s ->
    (forall j s', i <= j < i + Z.of_nat count -> I j s' -> returns (body j s') (I (j + 1))) ->
    returns (for_from count i body s) (I (i + Z.of_nat count)).
Proof.
  induction count as [|c IH]; intros i s Hi Hbody.
  - simpl. apply returns_ret. replace (i + 0) with i by lia. exact Hi.
  - cbn [for_from]. eapply returns_bind.
    + apply (Hbody i s); [lia | exact Hi].
    + intros s1 H1. replace (i + Z.of_nat (Datatypes.S c)) with ((i + 1) + Z.of_nat c) by lia.
      apply IH; [exact H1|]. intros j s' Hj. apply Hbody. lia.
Qed.

Lemma returns_for_loop {S} (I : Z -> S -> Prop) (body : Z -> S -> M S) n s :
  I 0 s ->
  (forall j s', 0 <= j < n -> I j s' -> returns (body j s') (I (j + 1))) ->
  returns (for_loop n body s) (I (Z.max 0 n)).
Proof.
  intros H0 Hbody. unfold for_loop.
  replace (Z.max 0 n) with (0 + Z.of_nat (Z.to_nat n)) by lia.
  apply returns_for_from; [exact H0|].
  intros j s' Hj. apply Hbody. lia.
Qed.

Lemma total_for_from {S} (I : Z -> S -> Prop) (body : Z -> S -> M S) :
  forall count i s,
    I i s ->
    (forall j s', i <= j < i + Z.of_nat count -> I j s' ->
       total (body j s') /\ returns (body j s') (I (j + 1))) ->
    total (for_from count i body s).
Proof.
  induction count as [|c IH]; intros i s Hi Hbody.
  - apply total_ret.
  - cbn [for_from]. destruct (Hbody i s) as [T R]; [lia | exact Hi |].
    eapply total_bind; [exact T | exact R |].
    intros s1 H1. apply IH; [exact H1|]. intros j s' Hj. apply Hbody. lia.
Qed.

Lemma total_for_loop {S} (I : Z -> S -> Prop) (body : Z -> S -> M S) n s :
  I 0 s ->
  (forall j s', 0 <= j < n -> I j s' ->
     total (body j s') /\ returns (body j s') (I (j + 1))) ->
  total (for_loop n body s).
Proof.
  intros H0 Hbody. unfold for_loop. apply (total_for_from I); [exact H0|].
  intros j s' Hj. apply Hbody. lia.
Qed.

(** A draw of [Float64]: a float in the half-open unit interval. *)
Definition unit_draw (f : float) : Prop :=
  (0 <=? f)%float = true /\ (f <? 1)%float = true.

Lemma returns_Float64 : returns r_Float64 unit_draw.
Proof.
  intros w a w' E. unfold r_Float64 in E.
  pose proof (Float64_range (rng w)) as H.
  destruct (Float64 (rng w)) as [f r']. inversion E; subst. exact H.
Qed.

Lemma total_Float64 : total r_Float64.
Proof. intros w. unfold r_Float64. destruct (Float64 (rng w)). discriminate. Qed.

Lemma returns_Intn n : returns (r_Intn n) (fun v => 0 <= v < n).
Proof.
  intros w a w' E. unfold r_Intn in E.
  destruct (n <=? 0) eqn:Hn; [discriminate|]. apply Z.leb_gt in Hn.
  pose proof (Intn_range n (rng w) Hn) as H.
  destruct (Intn n (rng w)) as [v r']. inversion E; subst. exact H.
Qed.

Lemma total_Intn n : 0 < n -> total (r_Intn n).
Proof.
  intros Hn w. unfold r_Intn.
  destruct (n <=? 0) eqn:E; [apply Z.leb_le in E; lia|].
  destruct (Intn n (rng w)). discriminate.
Qed.

Lemma returns_Int31n n : returns (r_Int31n n) (fun v => 0 <= v < n).
Proof.
  intros w a w' E. unfold r_Int31n in E.
  destruct (n <=? 0) eqn:Hn; [discriminate|]. apply Z.leb_gt in Hn.
  pose proof (Int31n_range n (rng w) Hn) as H.
  destruct (Int31n n (rng w)) as [v r']. inversion E; subst. exact H.
Qed.

Lemma total_Int31n n : 0 < n -> total (r_Int31n n).
Proof.
  intros Hn w. unfold r_Int31n.
  destruct (n <=? 0) eqn:E; [apply Z.leb_le in E; lia|].
  destruct (Int31n n (rng w)). discriminate.
Qed.

Lemma total_uuid_New : total uuid_New.
Proof. intros w. discriminate. Qed.

Lemma returns_index {A} (l : list A) i :
  returns (index l i) (fun a => 0 <= i /\ nth_error l (Z.to_nat i) = Some a).
Proof.
  unfold index. destruct (i <? 0) eqn:Hi; [apply returns_panic|].
  apply Z.ltb_ge in Hi.
  destruct (nth_error l (Z.to_nat i)) as [a|] eqn:E; [|apply returns_panic].
  apply returns_ret. split; [exact Hi | reflexivity].
Qed.

Lemma total_index {A} (l : list A) i :
  0 <= i < Z.of_nat (List.length l) -> total (index l i).
Proof.
  intros Hi. unfold index.
  destruct (i <? 0) eqn:E; [apply Z.ltb_lt in E; lia|].
  destruct (nth_error l (Z.to_nat i)) eqn:En; [apply total_ret|].
  apply nth_error_None in En. lia.
Qed.


(** ** What each sampling routine returns *)

Definition randFloat_post (min max x : float) : Prop :=
  exists f, unit_draw f /\ x = (min + f * (max - min))%float.

Definition randInt_post (min max x : Z) : Prop :=
  exists v, 0 <= v < wrap32 (wrap32 (max - min) + 1) /\ x = wrap32 (min + v).

Lemma returns_randFloat min max : returns (randFloat min max) (randFloat_post min max).
Proof.
  unfold randFloat. eapply returns_bind; [apply returns_Float64|].
  intros f Hf. apply returns_ret. exists f. split; [exact Hf | reflexivity].
Qed.

Lemma total_randFloat min max : total (randFloat min max).
Proof.
  unfold randFloat. eapply total_bind; [apply total_Float64 | apply returns_Float64 |].
  intros f _. apply total_ret.
Qed.

Lemma returns_randInt min max : returns (randInt min max) (randInt_post min max).
Proof.
  unfold randInt. eapply returns_bind; [apply returns_Int31n|].
  intros v Hv. apply returns_ret. exists v. split; [exact Hv | reflexivity].
Qed.

Lemma total_randInt min max :
  0 < wrap32 (wrap32 (max - min) + 1) -> total (randInt min max).
Proof.
  intros H. unfold randInt.
  eapply total_bind; [apply total_Int31n; exact H | apply returns_Int31n |].
  intros v _. apply total_ret.
Qed.

(** The index [pick_class] returns is 0 or the index of one of the weights. *)
Lemma pick_class_range ws : forall i c v,
  0 <= i -> 0 <= pick_class ws i c v < Z.max 1 (i + Z.of_nat (List.length ws)).
Proof.
  induction ws as [|w ws IH]; intros i c v Hi; cbn [pick_class List.length].
  - lia.
  - destruct (v <=? c + w)%float.
    + lia.
    + specialize (IH (i + 1) (c + w)%float v). lia.
Qed.

(** The row of [spectralTypes] at an index, by its letter. *)
Lemma find_class_table i st rest :
  nth_error spectralTypes i = Some st ->
  exists c, first_byte (class st ++ rest) = ret c /\
            find_class spectralTypes 0 c = ret (Z.of_nat i).
Proof.
  intros H.
  do 7 (destruct i as [|i];
        [inversion H; subst st; eexists; split; reflexivity|]).
  destruct i; discriminate.
Qed.

Definition star_post (idx : Z) (s : Star.t) : Prop :=
  exists st d,
    In st spectralTypes /\ 0 <= d < 10 /\
    Star.SpectralType s = (class st ++ itoa d ++ "V")%string /\
    Star.Name s = ("Star-" ++ itoa idx)%string /\
    randFloat_post (fst (massRange st)) (snd (massRange st)) (Star.Mass s) /\
    randFloat_post (fst (radiusRange st)) (snd (radiusRange st)) (Star.Radius s) /\
    randInt_post (fst (tempRange st)) (snd (tempRange st)) (Star.Temperature s).

Definition spectral_post (s : string) : Prop :=
  exists i st d,
    nth_error spectralTypes i = Some st /\ 0 <= d < 10 /\
    s = (class st ++ itoa d ++ "V")%string.

Lemma returns_generateSpectralType : returns generateSpectralType spectral_post.
Proof.
  unfold generateSpectralType.
  eapply returns_bind; [apply returns_Float64|]. intros f Hf. cbv zeta.
  eapply returns_bind; [apply returns_index|]. intros st [Hi Hst].
  eapply returns_bind; [apply returns_Intn|]. intros d Hd.
  apply returns_ret. eexists _, st, d.
  split; [exact Hst|]. split; [exact Hd | reflexivity].
Qed.

Lemma total_generateSpectralType : total generateSpectralType.
Proof.
  unfold generateSpectralType.
  eapply total_bind; [apply total_Float64 | apply returns_Float64 |]. intros f _. cbv zeta.
  eapply total_bind; [| apply returns_index |].
  - apply total_index.
    pose proof (pick_class_range weights 0 0%float (f * total_weight weights)%float).
    cbn [List.length weights spectralTypes] in *. lia.
  - intros st _.
    eapply total_bind; [apply total_Intn; lia | apply returns_Intn |].
    intros d _. apply total_ret.
Qed.

Lemma returns_generateStar idx : returns (generateStar idx) (star_post idx).
Proof.
  unfold generateStar.
  eapply returns_bind; [apply returns_generateSpectralType|].
  intros sp (i & st & d & Hst & Hd & ->).
  destruct (find_class_table i st (itoa d ++ "V") Hst) as (c & -> & Hfind).
  eapply (returns_bind _ _ (eq c)); [apply returns_ret; reflexivity|]. intros c' <-.
  rewrite Hfind.
  eapply (returns_bind _ _ (eq (Z.of_nat i))); [apply returns_ret; reflexivity|]. intros k <-.
  eapply returns_bind; [apply returns_index|]. intros st' [_ Hst'].
  rewrite Nat2Z.id, Hst in Hst'. inversion Hst'; subst st'.
  eapply (returns_bind _ _ (fun _ => True)); [apply returns_any|]. intros id _.
  eapply returns_bind; [apply returns_randFloat|]. intros mass Hm.
  eapply returns_bind; [apply returns_randFloat|]. intros radius Hr.
  eapply returns_bind; [apply returns_randInt|]. intros temp Ht.
  apply returns_ret. unfold star_post. exists st, d.
  cbn [Star.SpectralType Star.Name Star.Mass Star.Radius Star.Temperature].
  split; [eapply nth_error_In; exact Hst|].
  repeat (split; [first [assumption | reflexivity]|]). assumption.
Qed.

Lemma temp_ranges_ok st :
  In st spectralTypes -> 0 < wrap32 (wrap32 (snd (tempRange st) - fst (tempRange st)) + 1).
Proof.
  intros H. cbn in H.
  repeat (destruct H as [<- | H]; [reflexivity|]). contradiction.
Qed.

Lemma total_generateStar idx : total (generateStar idx).
Proof.
  unfold generateStar.
  eapply total_bind; [apply total_generateSpectralType | apply returns_generateSpectralType |].
  intros sp (i & st & d & Hst & Hd & ->).
  destruct (find_class_table i st (itoa d ++ "V") Hst) as (c & -> & Hfind).
  eapply (total_bind _ _ (eq c)); [apply total_ret | apply returns_ret; reflexivity |]. intros c' <-.
  rewrite Hfind.
  eapply (total_bind _ _ (eq (Z.of_nat i))); [apply total_ret | apply returns_ret; reflexivity |]. intros k <-.
  eapply total_bind; [| apply returns_index |].
  { apply total_index. split; [lia|]. apply Nat2Z.inj_lt.
    apply nth_error_Some. rewrite Hst. discriminate. }
  intros st' [_ Hst']. rewrite Nat2Z.id, Hst in Hst'. inversion Hst'; subst st'.
  eapply (total_bind _ _ (fun _ => True)); [apply total_uuid_New | apply returns_any |]. intros id _.
  eapply total_bind; [apply total_randFloat | apply returns_randFloat |]. intros mass _.
  eapply total_bind; [apply total_randFloat | apply returns_randFloat |]. intros radius _.
  eapply total_bind; [| apply returns_randInt |].
  { apply total_randInt. apply temp_ranges_ok. eapply nth_error_In; exact Hst. }
  intros temp _. apply total_ret.
Qed.


(** The three (mass range, radius range) pairs of [generatePlanet]. *)
Definition planet_regimes : list ((float * float) * (float * float)) :=
  [ ((0.1, 5.0), (0.3, 2.0)); ((5.0, 20.0), (2.0, 4.0)); ((20.0, 1000.0), (4.0, 15.0)) ]%float.

Definition planet_post (star : Star.t) (p : Planet.t) : Prop :=
  Planet.StarID p = Star.ID star /\
  randFloat_post 0.05 50.0 (Planet.SemiMajorAxis p) /\
  Planet.OrbitalPeriod p = kepler_period (Planet.SemiMajorAxis p) (Star.Mass star) /\
  Planet.SurfaceTemp p =
    surface_temp (Star.Temperature star) (Star.Radius star) (Planet.SemiMajorAxis p) /\
  (exists r, In r planet_regimes /\
     randFloat_post (fst (fst r)) (snd (fst r)) (Planet.Mass p) /\
     randFloat_post (fst (snd r)) (snd (snd r)) (Planet.Radius p)) /\
  randFloat_post 0.0 0.3 (Planet.Eccentricity p) /\
  In (Planet.Atmosphere p) atmosphereTypes /\
  randInt_post 1990 2024 (Planet.DiscoveryYear p).

Definition exoplanet_post (star : Star.t) (e : Exoplanet.t) : Prop :=
  Exoplanet.StarID e = Star.ID star /\
  randFloat_post 0.01 5.0 (Exoplanet.SemiMajorAxis e) /\
  Exoplanet.OrbitalPeriod e = kepler_period (Exoplanet.SemiMajorAxis e) (Star.Mass star) /\
  Exoplanet.SurfaceTemp e =
    surface_temp (Star.Temperature star) (Star.Radius star) (Exoplanet.SemiMajorAxis e) /\
  randFloat_post 0.5 500.0 (Exoplanet.Mass e) /\
  randFloat_post 0.5 12.0 (Exoplanet.Radius e) /\
  randFloat_post 10.0 10000.0 (Exoplanet.HostDistance e) /\
  randFloat_post 0.0 0.5 (Exoplanet.Eccentricity e) /\
  In (Exoplanet.DetectionMethod e) detectionMethods /\
  randInt_post 1990 2024 (Exoplanet.DiscoveryYear e).

Lemma returns_planet_body x :
  returns (planet_body x)
    (fun mr => exists r, In r planet_regimes /\
       randFloat_post (fst (fst r)) (snd (fst r)) (fst mr) /\
       randFloat_post (fst (snd r)) (snd (snd r)) (snd mr)).
Proof.
  unfold planet_body.
  destruct (x <? 0.3)%float; [|destruct (x <? 0.6)%float];
    (eapply returns_bind; [apply returns_randFloat|]; intros mass Hm;
     eapply returns_bind; [apply returns_randFloat|]; intros radius Hr;
     apply returns_ret).
  - exists ((0.1, 5.0), (0.3, 2.0))%float. cbn. auto.
  - exists ((5.0, 20.0), (2.0, 4.0))%float. cbn. auto.
  - exists ((20.0, 1000.0), (4.0, 15.0))%float. cbn. auto.
Qed.

Lemma total_planet_body x : total (planet_body x).
Proof.
  unfold planet_body.
  destruct (x <? 0.3)%float; [|destruct (x <? 0.6)%float];
    (eapply total_bind; [apply total_randFloat | apply returns_randFloat |]; intros mass _;
     eapply total_bind; [apply total_randFloat | apply returns_randFloat |]; intros radius _;
     apply total_ret).
Qed.

Lemma returns_generatePlanet star idx :
  returns (generatePlanet star idx) (planet_post star).
Proof.
  unfold generatePlanet.
  eapply returns_bind; [apply returns_randFloat|]. intros axis Haxis. cbv zeta.
  eapply returns_bind; [apply returns_Float64|]. intros planetType _.
  eapply returns_bind; [apply returns_planet_body|]. intros [mass radius] Hbody.
  eapply (returns_bind _ _ (fun _ => True)); [apply returns_any|]. intros id _.
  eapply returns_bind; [apply returns_randFloat|]. intros ecc Hecc.
  eapply returns_bind; [apply returns_Intn|]. intros atmIdx _.
  eapply returns_bind; [apply returns_index|]. intros atm [_ Hatm].
  eapply returns_bind; [apply returns_Float64|]. intros rings _.
  eapply returns_bind; [apply returns_Float64|]. intros moons _.
  eapply returns_bind; [apply returns_randInt|]. intros year Hyear.
  apply returns_ret. unfold planet_post. cbn -[kepler_period surface_temp atmosphereTypes].
  repeat (split; [first [assumption | reflexivity]|]).
  split; [eapply nth_error_In; exact Hatm | assumption].
Qed.

Lemma total_generatePlanet star idx : total (generatePlanet star idx).
Proof.
  unfold generatePlanet.
  eapply total_bind; [apply total_randFloat | apply returns_randFloat |]. intros axis _. cbv zeta.
  eapply total_bind; [apply total_Float64 | apply returns_Float64 |]. intros planetType _.
  eapply total_bind; [apply total_planet_body | apply returns_planet_body |]. intros [mass radius] _.
  eapply (total_bind _ _ (fun _ => True)); [apply total_uuid_New | apply returns_any |]. intros id _.
  eapply total_bind; [apply total_randFloat | apply returns_randFloat |]. intros ecc _.
  eapply total_bind; [apply total_Intn; reflexivity | apply returns_Intn |]. intros atmIdx HatmIdx.
  eapply total_bind; [apply total_index; exact HatmIdx | apply returns_index |]. intros atm _.
  eapply total_bind; [apply total_Float64 | apply returns_Float64 |]. intros rings _.
  eapply total_bind; [apply total_Float64 | apply returns_Float64 |]. intros moons _.
  eapply total_bind; [apply total_randInt; reflexivity | apply returns_randInt |]. intros year _.
  apply total_ret.
Qed.

Lemma returns_generateExoplanet star idx :
  returns (generateExoplanet star idx) (exoplanet_post star).
Proof.
  unfold generateExoplanet.
  eapply returns_bind; [apply returns_randFloat|]. intros axis Haxis. cbv zeta.
  eapply returns_bind; [apply returns_randFloat|]. intros mass Hmass.
  eapply returns_bind; [apply returns_randFloat|]. intros radius Hradius.
  eapply returns_bind; [apply returns_randFloat|]. intros dist Hdist.
  eapply (returns_bind _ _ (fun _ => True)); [apply returns_any|]. intros id _.
  eapply returns_bind; [apply returns_randFloat|]. intros ecc Hecc.
  eapply returns_bind; [apply returns_Intn|]. intros detIdx _.
  eapply returns_bind; [apply returns_index|]. intros det [_ Hdet].
  eapply returns_bind; [apply returns_randInt|]. intros year Hyear.
  apply returns_ret. unfold exoplanet_post. cbn -[kepler_period surface_temp detectionMethods].
  repeat (split; [first [assumption | reflexivity]|]).
  split; [eapply nth_error_In; exact Hdet | assumption].
Qed.

Lemma total_generateExoplanet star idx : total (generateExoplanet star idx).
Proof.
  unfold generateExoplanet.
  eapply total_bind; [apply total_randFloat | apply returns_randFloat |]. intros axis _. cbv zeta.
  eapply total_bind; [apply total_randFloat | apply returns_randFloat |]. intros mass _.
  eapply total_bind; [apply total_randFloat | apply returns_randFloat |]. intros radius _.
  eapply total_bind; [apply total_randFloat | apply returns_randFloat |]. intros dist _.
  eapply (total_bind _ _ (fun _ => True)); [apply total_uuid_New | apply returns_any |]. intros id _.
  eapply total_bind; [apply total_randFloat | apply returns_randFloat |]. intros ecc _.
  eapply total_bind; [apply total_Intn; reflexivity | apply returns_Intn |]. intros detIdx HdetIdx.
  eapply total_bind; [apply total_index; exact HdetIdx | apply returns_index |]. intros det _.
  eapply total_bind; [apply total_randInt; reflexivity | apply returns_randInt |]. intros year _.
  apply total_ret.
Qed.


(** ** The invariant of the assembler *)

(** The largest count [r.Intn(cap + 1)] can return. *)
Definition draw_cap (cap : Z) : Z := Z.max 0 (wrap64 (cap + 1) - 1).

Definition data_inv (d : GeneratedData) : Prop :=
  (forall s, In s (Stars d) -> exists idx, star_post idx s) /\
  (forall p, In p (Planets d) -> exists s, In s (Stars d) /\ planet_post s p) /\
  (forall e, In e (Exoplanets d) -> exists s, In s (Stars d) /\ exoplanet_post s e).

Definition count_inv (cfg : Config) (i : Z) (d : GeneratedData) : Prop :=
  Z.of_nat (List.length (Stars d)) = i /\
  Z.of_nat (List.length (Planets d)) <= i * draw_cap (PlanetsPerStar cfg) /\
  Z.of_nat (List.length (Exoplanets d)) <= i * draw_cap (ExoPerStar cfg).

Definition planets_inv (d0 : GeneratedData) (star : Star.t) (j : Z) (d : GeneratedData) : Prop :=
  Stars d = Stars d0 ++ [star] /\
  Z.of_nat (List.length (Planets d)) = Z.of_nat (List.length (Planets d0)) + j /\
  Exoplanets d = Exoplanets d0 /\
  data_inv d.

Definition exoplanets_inv (d0 : GeneratedData) (star : Star.t) (np j : Z) (d : GeneratedData) : Prop :=
  Stars d = Stars d0 ++ [star] /\
  Z.of_nat (List.length (Planets d)) = Z.of_nat (List.length (Planets d0)) + np /\
  Z.of_nat (List.length (Exoplanets d)) = Z.of_nat (List.length (Exoplanets d0)) + j /\
  data_inv d.

Lemma data_inv_add_star d star idx :
  data_inv d -> star_post idx star -> data_inv (add_star star d).
Proof.
  intros (Hs & Hp & He) Hstar. unfold data_inv, add_star. cbn [Stars Planets Exoplanets].
  split; [|split].
  - intros s Hin. apply in_app_or in Hin. destruct Hin as [Hin | [<- | []]].
    + apply Hs; exact Hin.
    + exists idx; exact Hstar.
  - intros p Hin. destruct (Hp p Hin) as (s & Hin' & Hpost).
    exists s. split; [apply in_or_app; left; exact Hin' | exact Hpost].
  - intros e Hin. destruct (He e Hin) as (s & Hin' & Hpost).
    exists s. split; [apply in_or_app; left; exact Hin' | exact Hpost].
Qed.

Lemma data_inv_add_planet d star p :
  data_inv d -> In star (Stars d) -> planet_post star p -> data_inv (add_planet p d).
Proof.
  intros (Hs & Hp & He) Hin Hpost. unfold data_inv, add_planet. cbn [Stars Planets Exoplanets].
  split; [exact Hs | split; [|exact He]].
  intros p' Hin'. apply in_app_or in Hin'. destruct Hin' as [Hin' | [<- | []]].
  - apply Hp; exact Hin'.
  - exists star. split; assumption.
Qed.

Lemma data_inv_add_exoplanet d star e :
  data_inv d -> In star (Stars d) -> exoplanet_post star e -> data_inv (add_exoplanet e d).
Proof.
  intros (Hs & Hp & He) Hin Hpost. unfold data_inv, add_exoplanet. cbn [Stars Planets Exoplanets].
  split; [exact Hs | split; [exact Hp|]].
  intros e' Hin'. apply in_app_or in Hin'. destruct Hin' as [Hin' | [<- | []]].
  - apply He; exact Hin'.
  - exists star. split; assumption.
Qed.

Lemma returns_planet_loop d0 star n d :
  planets_inv d0 star 0 d ->
  returns
    (for_loop n (fun j data =>
                   planet <- generatePlanet star (wrap64 (j + 1)) ;;
                   ret (add_planet planet data)) d)
    (planets_inv d0 star (Z.max 0 n)).
Proof.
  intros H0. apply returns_for_loop; [exact H0|].
  intros j d' _ (HS & HP & HE & Hinv).
  eapply returns_bind; [apply returns_generatePlanet|]. intros p Hp.
  apply returns_ret. unfold planets_inv, add_planet in *. cbn [Stars Planets Exoplanets].
  split; [exact HS | split; [|split; [exact HE|]]].
  - rewrite length_app. cbn [List.length]. lia.
  - apply (data_inv_add_planet d' star p Hinv); [|exact Hp].
    rewrite HS. apply in_or_app. right. left. reflexivity.
Qed.

Lemma returns_exoplanet_loop d0 star np n d :
  exoplanets_inv d0 star np 0 d ->
  returns
    (for_loop n (fun j data =>
                   exoplanet <- generateExoplanet star (wrap64 (j + 1)) ;;
                   ret (add_exoplanet exoplanet data)) d)
    (exoplanets_inv d0 star np (Z.max 0 n)).
Proof.
  intros H0. apply returns_for_loop; [exact H0|].
  intros j d' _ (HS & HP & HE & Hinv).
  eapply returns_bind; [apply returns_generateExoplanet|]. intros e He.
  apply returns_ret. unfold exoplanets_inv, add_exoplanet in *. cbn [Stars Planets Exoplanets].
  split; [exact HS | split; [exact HP | split]].
  - rewrite length_app. cbn [List.length]. lia.
  - apply (data_inv_add_exoplanet d' star e Hinv); [|exact He].
    rewrite HS. apply in_or_app. right. left. reflexivity.
Qed.

Lemma returns_star_step cfg i d :
  0 <= i -> count_inv cfg i d /\ data_inv d ->
  returns (star_step cfg i d) (fun d' => count_inv cfg (i + 1) d' /\ data_inv d').
Proof.
  intros Hi [(HnS & HnP & HnE) Hinv]. unfold star_step.
  eapply returns_bind; [apply returns_generateStar|]. intros star Hstar. cbv zeta.
  eapply returns_bind; [apply returns_Intn|]. intros np Hnp.
  eapply returns_bind.
  { apply (returns_planet_loop d star). unfold planets_inv, add_star. cbn [Stars Planets Exoplanets].
    split; [reflexivity | split; [lia | split; [reflexivity|]]].
    exact (data_inv_add_star d star _ Hinv Hstar). }
  intros d1 (HS1 & HP1 & HE1 & Hinv1).
  eapply returns_bind; [apply returns_Intn|]. intros ne Hne.
  eapply returns_weaken.
  { apply (returns_exoplanet_loop d star (Z.max 0 np)). unfold exoplanets_inv.
    split; [exact HS1 | split; [exact HP1 | split; [rewrite HE1; lia | exact Hinv1]]]. }
  intros d2 (HS2 & HP2 & HE2 & Hinv2). split; [|exact Hinv2].
  unfold count_inv, draw_cap in *. rewrite HS2, length_app. cbn [List.length].
  split; [lia | split; lia].
Qed.

Lemma returns_GenerateAll_from cfg :
  returns (GenerateAll_from cfg)
    (fun d => count_inv cfg (Z.max 0 (NumStars cfg)) d /\ data_inv d).
Proof.
  unfold GenerateAll_from.
  eapply (returns_bind _ _ (fun _ => True)); [apply returns_any|]. intros _ _.
  eapply returns_weaken.
  - apply (returns_for_loop (fun i d => count_inv cfg i d /\ data_inv d)).
    + unfold count_inv, data_inv, empty_data. cbn.
      repeat split; try lia; intros ? [].
    + intros j d Hj H. apply returns_star_step; [lia | exact H].
  - intros d H. exact H.
Qed.


(** ** When the assembler panics and when it does not *)

Lemma total_star_step cfg i d :
  0 < wrap64 (PlanetsPerStar cfg + 1) -> 0 < wrap64 (ExoPerStar cfg + 1) ->
  total (star_step cfg i d).
Proof.
  intros HP HE. unfold star_step.
  eapply total_bind; [apply total_generateStar | apply returns_generateStar |].
  intros star _. cbv zeta.
  eapply total_bind; [apply total_Intn; exact HP | apply returns_Intn |]. intros np _.
  eapply (total_bind _ _ (fun _ => True)); [| apply returns_any |].
  { apply (total_for_loop (fun _ _ => True)); [exact I|].
    intros j d' _ _. split; [|apply returns_any].
    eapply total_bind; [apply total_generatePlanet | apply returns_generatePlanet |].
    intros p _. apply total_ret. }
  intros d1 _.
  eapply total_bind; [apply total_Intn; exact HE | apply returns_Intn |]. intros ne _.
  apply (total_for_loop (fun _ _ => True)); [exact I|].
  intros j d' _ _. split; [|apply returns_any].
  eapply total_bind; [apply total_generateExoplanet | apply returns_generateExoplanet |].
  intros e _. apply total_ret.
Qed.

Lemma make_slice_ok n : 0 <= n -> n * star_size <= maxAlloc -> make_slice n = ret tt.
Proof.
  intros H0 H1. unfold make_slice.
  replace (n <? 0) with false by (symmetry; apply Z.ltb_ge; exact H0).
  replace (n * star_size >? maxAlloc) with false; [reflexivity|].
  symmetry. rewrite Z.gtb_ltb. apply Z.ltb_ge. exact H1.
Qed.

Lemma make_slice_panics n : n < 0 \/ maxAlloc < n * star_size -> make_slice n = panic.
Proof.
  intros H. unfold make_slice.
  replace ((n <? 0) || (n * star_size >? maxAlloc)) with true; [reflexivity|].
  symmetry. apply orb_true_iff. rewrite Z.gtb_ltb, !Z.ltb_lt. exact H.
Qed.

Lemma make_slice_returns n w u w' :
  make_slice n w = Some (u, w') -> 0 <= n /\ n * star_size <= maxAlloc /\ w' = w.
Proof.
  unfold make_slice. intros H.
  destruct ((n <? 0) || (n * star_size >? maxAlloc)) eqn:E; [discriminate|].
  apply orb_false_iff in E. destruct E as [E1 E2].
  apply Z.ltb_ge in E1. rewrite Z.gtb_ltb in E2. apply Z.ltb_ge in E2.
  inversion H. auto.
Qed.

Lemma total_GenerateAll_from cfg :
  0 <= NumStars cfg -> NumStars cfg * star_size <= maxAlloc ->
  (0 < NumStars cfg ->
   0 < wrap64 (PlanetsPerStar cfg + 1) /\ 0 < wrap64 (ExoPerStar cfg + 1)) ->
  total (GenerateAll_from cfg).
Proof.
  intros HN HA Hcaps. unfold GenerateAll_from. rewrite (make_slice_ok _ HN HA).
  eapply (total_bind _ _ (fun _ => True)); [apply total_ret | apply returns_any |].
  intros _ _. apply (total_for_loop (fun _ _ => True)); [exact I|].
  intros j d Hj _. split; [|apply returns_any].
  destruct Hcaps as [HP HE]; [lia|]. apply total_star_step; assumption.
Qed.

Lemma GenerateAll_from_negative cfg w :
  NumStars cfg < 0 -> GenerateAll_from cfg w = None.
Proof.
  intros H. unfold GenerateAll_from, bind.
  rewrite make_slice_panics by (left; exact H). reflexivity.
Qed.

Lemma GenerateAll_from_too_many cfg w :
  maxAlloc < NumStars cfg * star_size -> GenerateAll_from cfg w = None.
Proof.
  intros H. unfold GenerateAll_from, bind.
  rewrite make_slice_panics by (right; exact H). reflexivity.
Qed.

Lemma star_step_cap_panics cfg i d w :
  wrap64 (PlanetsPerStar cfg + 1) <= 0 -> star_step cfg i d w = None.
Proof.
  intros H. unfold star_step, bind.
  destruct (generateStar (wrap64 (i + 1)) w) as [[star w1]|]; [|reflexivity].
  cbv zeta. unfold r_Intn. apply Z.leb_le in H. rewrite H. reflexivity.
Qed.

Lemma GenerateAll_from_cap_panics cfg w :
  0 < NumStars cfg -> wrap64 (PlanetsPerStar cfg + 1) <= 0 ->
  GenerateAll_from cfg w = None.
Proof.
  intros HN HP. unfold GenerateAll_from, bind.
  destruct (make_slice (NumStars cfg) w) as [[[] w0]|] eqn:E; [|reflexivity].
  apply make_slice_returns in E. destruct E as (_ & _ & ->).
  unfold for_loop. destruct (Z.to_nat (NumStars cfg)) as [|c] eqn:Ec; [lia|].
  cbn [for_from]. unfold bind. rewrite (star_step_cap_panics cfg 0 empty_data w HP).
  reflexivity.
Qed.

(** ** Two runs side by side

    [related R m1 m2]: started from states with the same random stream
    (whatever their UUIDs), [m1] and [m2] either both panic or return
    results related by [R], and leave the same random stream. *)

Definition same_rng (w1 w2 : World) : Prop := rng w1 = rng w2.

Definition related {A} (R : A -> A -> Prop) (m1 m2 : M A) : Prop :=
  forall w1 w2, same_rng w1 w2 ->
    match m1 w1, m2 w2 with
    | Some (a1, w1'), Some (a2, w2') => R a1 a2 /\ same_rng w1' w2'
    | None, None => True
    | _, _ => False
    end.

Lemma related_ret {A} (R : A -> A -> Prop) a1 a2 : R a1 a2 -> related R (ret a1) (ret a2).
Proof. intros H w1 w2 Hw. cbn. split; assumption. Qed.

Lemma related_panic {A} (R : A -> A -> Prop) : related R panic panic.
Proof. intros w1 w2 Hw. exact I. Qed.

Lemma related_bind {A B} (R : A -> A -> Prop) (Q : B -> B -> Prop) m1 m2 k1 k2 :
  related R m1 m2 ->
  (forall a1 a2, R a1 a2 -> related Q (k1 a1) (k2 a2)) ->
  related Q (bind m1 k1) (bind m2 k2).
Proof.
  intros Hm Hk w1 w2 Hw. unfold bind. specialize (Hm w1 w2 Hw).
  destruct (m1 w1) as [[a1 w1']|], (m2 w2) as [[a2 w2']|]; try contradiction; [|exact I].
  destruct Hm as [Ha Hw']. exact (Hk a1 a2 Ha w1' w2' Hw').
Qed.

Lemma related_Float64 : related eq r_Float64 r_Float64.
Proof.
  intros w1 w2 Hw. unfold r_Float64, same_rng in *. rewrite Hw.
  destruct (Float64 (rng w2)). cbn. split; reflexivity.
Qed.

Lemma related_Intn n : related eq (r_Intn n) (r_Intn n).
Proof.
  intros w1 w2 Hw. unfold r_Intn, same_rng in *. rewrite Hw.
  destruct (n <=? 0); [exact I|]. destruct (Intn n (rng w2)). cbn. split; reflexivity.
Qed.

Lemma related_Int31n n : related eq (r_Int31n n) (r_Int31n n).
Proof.
  intros w1 w2 Hw. unfold r_Int31n, same_rng in *. rewrite Hw.
  destruct (n <=? 0); [exact I|]. destruct (Int31n n (rng w2)). cbn. split; reflexivity.
Qed.

Lemma related_uuid_New : related (fun _ _ => True) uuid_New uuid_New.
Proof. intros w1 w2 Hw. unfold uuid_New, same_rng in *. cbn. split; [exact I | exact Hw]. Qed.

Lemma related_index {A} (l : list A) i : related eq (index l i) (index l i).
Proof.
  unfold index. destruct (i <? 0); [apply related_panic|].
  destruct (nth_error l (Z.to_nat i)); [apply related_ret; reflexivity | apply related_panic].
Qed.

Lemma related_for_from {S} (R : S -> S -> Prop) (body1 body2 : Z -> S -> M S) :
  (forall j s1 s2, R s1 s2 -> related R (body1 j s1) (body2 j s2)) ->
  forall count i s1 s2, R s1 s2 ->
    related R (for_from count i body1 s1) (for_from count i body2 s2).
Proof.
  intros Hbody. induction count as [|c IH]; intros i s1 s2 Hs; cbn [for_from].
  - apply related_ret; exact Hs.
  - eapply related_bind; [apply Hbody; exact Hs|]. intros a1 a2 Ha. apply IH; exact Ha.
Qed.

Lemma related_randFloat min max : related eq (randFloat min max) (randFloat min max).
Proof.
  unfold randFloat. eapply related_bind; [apply related_Float64|].
  intros f ? <-. apply related_ret. reflexivity.
Qed.

Lemma related_randInt min max : related eq (randInt min max) (randInt min max).
Proof.
  unfold randInt. eapply related_bind; [apply related_Int31n|].
  intros v ? <-. apply related_ret. reflexivity.
Qed.

Lemma related_first_byte s : related eq (first_byte s) (first_byte s).
Proof. destruct s; [apply related_panic | apply related_ret; reflexivity]. Qed.

Lemma related_find_class l c : forall i, related eq (find_class l i c) (find_class l i c).
Proof.
  induction l as [|st l IH]; intros i; cbn [find_class].
  - apply related_ret; reflexivity.
  - eapply related_bind; [apply related_first_byte|]. intros b ? <-.
    destruct (Ascii.eqb b c); [apply related_ret; reflexivity | apply IH].
Qed.

Lemma related_generateSpectralType : related eq generateSpectralType generateSpectralType.
Proof.
  unfold generateSpectralType.
  eapply related_bind; [apply related_Float64|]. intros f ? <-. cbv zeta.
  eapply related_bind; [apply related_index|]. intros st ? <-.
  eapply related_bind; [apply related_Intn|]. intros d ? <-.
  apply related_ret. reflexivity.
Qed.

Lemma related_planet_body x : related eq (planet_body x) (planet_body x).
Proof.
  unfold planet_body.
  destruct (x <? 0.3)%float; [|destruct (x <? 0.6)%float];
    (eapply related_bind; [apply related_randFloat|]; intros mass ? <-;
     eapply related_bind; [apply related_randFloat|]; intros radius ? <-;
     apply related_ret; reflexivity).
Qed.


(** Entities with their identifiers blanked: what is left is what the seed
    determines. *)

Definition anon_star (s : Star.t) : Star.t :=
  {| Star.ID := ""; Star.Name := Star.Name s; Star.SpectralType := Star.SpectralType s;
     Star.Mass := Star.Mass s; Star.Radius := Star.Radius s;
     Star.Temperature := Star.Temperature s |}.

Definition anon_planet (p : Planet.t) : Planet.t :=
  {| Planet.ID := ""; Planet.Name := Planet.Name p;
     Planet.OrbitalPeriod := Planet.OrbitalPeriod p;
     Planet.SemiMajorAxis := Planet.SemiMajorAxis p;
     Planet.Eccentricity := Planet.Eccentricity p;
     Planet.Mass := Planet.Mass p; Planet.Radius := Planet.Radius p;
     Planet.Atmosphere := Planet.Atmosphere p;
     Planet.SurfaceTemp := Planet.SurfaceTemp p;
     Planet.HasRings := Planet.HasRings p; Planet.HasMoons := Planet.HasMoons p;
     Planet.DiscoveryYear := Planet.DiscoveryYear p;
     Planet.StarID := "" |}.

Definition anon_exoplanet (e : Exoplanet.t) : Exoplanet.t :=
  {| Exoplanet.ID := ""; Exoplanet.Name := Exoplanet.Name e;
     Exoplanet.OrbitalPeriod := Exoplanet.OrbitalPeriod e;
     Exoplanet.SemiMajorAxis := Exoplanet.SemiMajorAxis e;
     Exoplanet.Eccentricity := Exoplanet.Eccentricity e;
     Exoplanet.Mass := Exoplanet.Mass e; Exoplanet.Radius := Exoplanet.Radius e;
     Exoplanet.DetectionMethod := Exoplanet.DetectionMethod e;
     Exoplanet.HostDistance := Exoplanet.HostDistance e;
     Exoplanet.SurfaceTemp := Exoplanet.SurfaceTemp e;
     Exoplanet.DiscoveryYear := Exoplanet.DiscoveryYear e;
     Exoplanet.StarID := "" |}.

Definition anon_data (d : GeneratedData) : GeneratedData :=
  {| Stars := map anon_star (Stars d);
     Planets := map anon_planet (Planets d);
     Exoplanets := map anon_exoplanet (Exoplanets d) |}.

Definition same_star (s1 s2 : Star.t) : Prop := anon_star s1 = anon_star s2.
Definition same_data (d1 d2 : GeneratedData) : Prop := anon_data d1 = anon_data d2.

Lemma same_star_fields s1 s2 :
  same_star s1 s2 ->
  Star.Name s1 = Star.Name s2 /\ Star.SpectralType s1 = Star.SpectralType s2 /\
  Star.Mass s1 = Star.Mass s2 /\ Star.Radius s1 = Star.Radius s2 /\
  Star.Temperature s1 = Star.Temperature s2.
Proof.
  intros H. unfold same_star, anon_star in H. inversion H. auto.
Qed.

Lemma related_generateStar idx : related same_star (generateStar idx) (generateStar idx).
Proof.
  unfold generateStar.
  eapply related_bind; [apply related_generateSpectralType|]. intros sp ? <-.
  eapply related_bind; [apply related_first_byte|]. intros c ? <-.
  eapply related_bind; [apply related_find_class|]. intros k ? <-.
  eapply related_bind; [apply related_index|]. intros st ? <-.
  eapply related_bind; [apply related_uuid_New|]. intros id1 id2 _.
  eapply related_bind; [apply related_randFloat|]. intros mass ? <-.
  eapply related_bind; [apply related_randFloat|]. intros radius ? <-.
  eapply related_bind; [apply related_randInt|]. intros temp ? <-.
  apply related_ret. reflexivity.
Qed.

Lemma related_generatePlanet s1 s2 idx :
  same_star s1 s2 ->
  related (fun p1 p2 => anon_planet p1 = anon_planet p2)
          (generatePlanet s1 idx) (generatePlanet s2 idx).
Proof.
  intros H. destruct (same_star_fields _ _ H) as (Hn & _ & Hm & Hr & Ht).
  unfold generatePlanet. rewrite Hn, Hm, Hr, Ht.
  eapply related_bind; [apply related_randFloat|]. intros axis ? <-. cbv zeta.
  eapply related_bind; [apply related_Float64|]. intros planetType ? <-.
  eapply related_bind; [apply related_planet_body|]. intros [mass radius] ? <-.
  eapply related_bind; [apply related_uuid_New|]. intros id1 id2 _.
  eapply related_bind; [apply related_randFloat|]. intros ecc ? <-.
  eapply related_bind; [apply related_Intn|]. intros atmIdx ? <-.
  eapply related_bind; [apply related_index|]. intros atm ? <-.
  eapply related_bind; [apply related_Float64|]. intros rings ? <-.
  eapply related_bind; [apply related_Float64|]. intros moons ? <-.
  eapply related_bind; [apply related_randInt|]. intros year ? <-.
  apply related_ret. reflexivity.
Qed.

Lemma related_generateExoplanet s1 s2 idx :
  same_star s1 s2 ->
  related (fun e1 e2 => anon_exoplanet e1 = anon_exoplanet e2)
          (generateExoplanet s1 idx) (generateExoplanet s2 idx).
Proof.
  intros H. destruct (same_star_fields _ _ H) as (Hn & _ & Hm & Hr & Ht).
  unfold generateExoplanet. rewrite Hn, Hm, Hr, Ht.
  eapply related_bind; [apply related_randFloat|]. intros axis ? <-. cbv zeta.
  eapply related_bind; [apply related_randFloat|]. intros mass ? <-.
  eapply related_bind; [apply related_randFloat|]. intros radius ? <-.
  eapply related_bind; [apply related_randFloat|]. intros dist ? <-.
  eapply related_bind; [apply related_uuid_New|]. intros id1 id2 _.
  eapply related_bind; [apply related_randFloat|]. intros ecc ? <-.
  eapply related_bind; [apply related_Intn|]. intros detIdx ? <-.
  eapply related_bind; [apply related_index|]. intros det ? <-.
  eapply related_bind; [apply related_randInt|]. intros year ? <-.
  apply related_ret. reflexivity.
Qed.

Lemma same_data_add_star s1 s2 d1 d2 :
  same_star s1 s2 -> same_data d1 d2 -> same_data (add_star s1 d1) (add_star s2 d2).
Proof.
  unfold same_star, same_data, anon_data, add_star. cbn [Stars Planets Exoplanets].
  intros Hs Hd. inversion Hd as [[HS HP HE]]. rewrite !map_app. cbn [map].
  rewrite HS, Hs. reflexivity.
Qed.

Lemma same_data_add_planet p1 p2 d1 d2 :
  anon_planet p1 = anon_planet p2 -> same_data d1 d2 ->
  same_data (add_planet p1 d1) (add_planet p2 d2).
Proof.
  unfold same_data, anon_data, add_planet. cbn [Stars Planets Exoplanets].
  intros Hp Hd. inversion Hd as [[HS HP HE]]. rewrite !map_app. cbn [map].
  rewrite HP, Hp. reflexivity.
Qed.

Lemma same_data_add_exoplanet e1 e2 d1 d2 :
  anon_exoplanet e1 = anon_exoplanet e2 -> same_data d1 d2 ->
  same_data (add_exoplanet e1 d1) (add_exoplanet e2 d2).
Proof.
  unfold same_data, anon_data, add_exoplanet. cbn [Stars Planets Exoplanets].
  intros He Hd. inversion Hd as [[HS HP HE]]. rewrite !map_app. cbn [map].
  rewrite HE, He. reflexivity.
Qed.

Lemma related_star_step cfg i d1 d2 :
  same_data d1 d2 -> related same_data (star_step cfg i d1) (star_step cfg i d2).
Proof.
  intros Hd. unfold star_step.
  eapply related_bind; [apply related_generateStar|]. intros s1 s2 Hs. cbv zeta.
  eapply related_bind; [apply related_Intn|]. intros np ? <-.
  eapply related_bind.
  { unfold for_loop. apply related_for_from.
    - intros j a1 a2 Ha.
      eapply related_bind; [apply related_generatePlanet; exact Hs|].
      intros p1 p2 Hp. apply related_ret. apply same_data_add_planet; assumption.
    - apply same_data_add_star; assumption. }
  intros a1 a2 Ha.
  eapply related_bind; [apply related_Intn|]. intros ne ? <-.
  unfold for_loop. apply related_for_from; [|exact Ha].
  intros j b1 b2 Hb.
  eapply related_bind; [apply related_generateExoplanet; exact Hs|].
  intros e1 e2 He. apply related_ret. apply same_data_add_exoplanet; assumption.
Qed.

Lemma related_GenerateAll_from cfg :
  related same_data (GenerateAll_from cfg) (GenerateAll_from cfg).
Proof.
  unfold GenerateAll_from.
  eapply (related_bind eq).
  { unfold make_slice. destruct ((NumStars cfg <? 0) || (NumStars cfg * star_size >? maxAlloc));
      [apply related_panic | apply related_ret; reflexivity]. }
  intros ? ? _. unfold for_loop. apply related_for_from; [|reflexivity].
  intros j d1 d2 Hd. apply related_star_step; exact Hd.
Qed.

Lemma GenerateAll_same ids1 ids2 cfg :
  option_map anon_data (GenerateAll ids1 cfg) = option_map anon_data (GenerateAll ids2 cfg).
Proof.
  unfold GenerateAll.
  pose proof (related_GenerateAll_from cfg
                {| rng := NewRand (Seed cfg); uuids := ids1; next_uuid := 0 |}
                {| rng := NewRand (Seed cfg); uuids := ids2; next_uuid := 0 |}
                eq_refl) as H.
  destruct (GenerateAll_from cfg _) as [[d1 w1]|], (GenerateAll_from cfg _) as [[d2 w2]|];
    try contradiction; [|reflexivity].
  destruct H as [H _]. cbn. f_equal. exact H.
Qed.


(** ** The ranges of the generated values *)

Lemma wrap32_small z : -2147483648 <= z < 2147483648 -> wrap32 z = z.
Proof.
  intros H. unfold wrap32, wrap. change (2 ^ (32 - 1)) with 2147483648.
  change (2 ^ 32) with 4294967296. rewrite Z.mod_small; lia.
Qed.

Lemma randInt_post_range lo hi x :
  -1073741824 <= lo -> lo <= hi -> hi < 1073741823 ->
  randInt_post lo hi x -> lo <= x <= hi.
Proof.
  intros Hlo Hle Hhi (v & Hv & ->).
  rewrite (wrap32_small (hi - lo)) in Hv by lia.
  rewrite (wrap32_small (hi - lo + 1)) in Hv by lia.
  rewrite wrap32_small by lia. lia.
Qed.

Lemma randFloat_post_range lo hi x U :
  randFloat_post lo hi x ->
  fnn lo -> fnn (hi - lo) -> fnn U -> (F2Q lo + F2Q (hi - lo) <= F2Q U)%Q ->
  in_range (F2Q lo) (F2Q U) x.
Proof.
  intros (f & [H0 H1] & ->) Hlo Hd HU Hsum.
  apply scaled_draw_range; assumption.
Qed.

Lemma in_range_pos a b x : in_range a b x -> (0 < a)%Q -> (0 <? x)%float = true.
Proof.
  intros [Hn Hr] Ha. assert (Hz : fnn 0) by exact I.
  apply (proj2 (ltb_Q 0 x Hz Hn)). change (F2Q 0) with 0%Q. lra.
Qed.

Lemma in_range_nonneg a b x : in_range a b x -> (0 <=? x)%float = true.
Proof.
  intros [Hn Hr]. assert (Hz : fnn 0) by exact I.
  apply (proj2 (leb_Q 0 x Hz Hn)). change (F2Q 0) with 0%Q. apply F2Q_nonneg. exact Hn.
Qed.

Lemma in_range_below a b x c :
  in_range a b x -> fnn c -> (b < F2Q c)%Q -> (x <? c)%float = true.
Proof.
  intros [Hn Hr] Hc Hb. apply (proj2 (ltb_Q x c Hn Hc)). lra.
Qed.

(** The bounds that hold for the stars of every spectral class. *)
Definition star_bounds (s : Star.t) : Prop :=
  in_range (F2Q 0x1p-4) (F2Q 0x1p+7) (Star.Mass s) /\
  in_range (F2Q 0x1p-4) (F2Q 0x1p+4) (Star.Radius s) /\
  2400 <= Star.Temperature s <= 50000.

Lemma star_post_bounds idx s : star_post idx s -> star_bounds s.
Proof.
  intros (st & d & Hst & _ & _ & _ & Hm & Hr & Ht). unfold star_bounds.
  cbn [spectralTypes In] in Hst.
  repeat (destruct Hst as [<- | Hst];
    [cbn [massRange radiusRange tempRange fst snd] in Hm, Hr, Ht;
     split; [|split];
     [ eapply in_range_weaken;
         [apply (randFloat_post_range _ _ _ 0x1p+7 Hm); closed_Q | closed_Q | apply Qle_refl]
     | eapply in_range_weaken;
         [apply (randFloat_post_range _ _ _ 0x1p+4 Hr); closed_Q | closed_Q | apply Qle_refl]
     | apply randInt_post_range in Ht; [lia | lia | lia | lia] ]
    |]).
  contradiction.
Qed.

(** The facts of the range invariants, for a star and for an orbiting body
    (the fields planets and exoplanets share). *)
Definition star_ranges (s : Star.t) : Prop :=
  (0 <? Star.Mass s)%float = true /\
  (0 <? Star.Radius s)%float = true /\
  0 < Star.Temperature s.

Definition body_ranges (ecc mass radius period axis : float) (year temp : Z) : Prop :=
  (0 <=? ecc)%float = true /\ (ecc <? 1)%float = true /\
  (0 <? mass)%float = true /\ (0 <? radius)%float = true /\
  (0 <? period)%float = true /\ (0 <? axis)%float = true /\
  1990 <= year <= 2024 /\ 0 < temp.

Lemma star_bounds_ranges s : star_bounds s -> star_ranges s.
Proof.
  intros (Hm & Hr & Ht). unfold star_ranges.
  split; [eapply in_range_pos; [exact Hm | closed_Q]|].
  split; [eapply in_range_pos; [exact Hr | closed_Q]|]. lia.
Qed.

Lemma planet_post_ranges star p :
  star_bounds star -> planet_post star p ->
  body_ranges (Planet.Eccentricity p) (Planet.Mass p) (Planet.Radius p)
    (Planet.OrbitalPeriod p) (Planet.SemiMajorAxis p)
    (Planet.DiscoveryYear p) (Planet.SurfaceTemp p).
Proof.
  intros (HM & HR & HT) (_ & Haxis & Hper & Htemp & (r & Hin & Hmass & Hrad) & Hecc & _ & Hyear).
  assert (Ha : in_range (F2Q 0x1p-7) (F2Q 0x1p+6) (Planet.SemiMajorAxis p)).
  { eapply in_range_weaken;
      [apply (randFloat_post_range _ _ _ 0x1p+6 Haxis); closed_Q | closed_Q | apply Qle_refl]. }
  assert (He : in_range (F2Q 0) (F2Q 0x1p-1) (Planet.Eccentricity p)).
  { apply (randFloat_post_range _ _ _ 0x1p-1 Hecc); closed_Q. }
  assert (Hmr : (0 <? Planet.Mass p)%float = true /\ (0 <? Planet.Radius p)%float = true).
  { cbn [planet_regimes In] in Hin.
    repeat (destruct Hin as [<- | Hin];
      [cbn [fst snd] in Hmass, Hrad; split;
       [ eapply in_range_pos;
           [apply (randFloat_post_range _ _ _ 0x1p+10 Hmass); closed_Q | closed_Q]
       | eapply in_range_pos;
           [apply (randFloat_post_range _ _ _ 0x1p+4 Hrad); closed_Q | closed_Q] ]
      |]).
    contradiction. }
  unfold body_ranges.
  split; [eapply in_range_nonneg; exact He|].
  split; [eapply in_range_below; [exact He | closed_Q | closed_Q]|].
  split; [apply Hmr|]. split; [apply Hmr|].
  split; [rewrite Hper; eapply in_range_pos; [apply kepler_period_range; eassumption | closed_Q]|].
  split; [eapply in_range_pos; [exact Ha | closed_Q]|].
  split; [apply randInt_post_range in Hyear; [lia | lia | lia | lia]|].
  rewrite Htemp. eapply proj1; apply surface_temp_range; assumption.
Qed.

Lemma exoplanet_post_ranges star e :
  star_bounds star -> exoplanet_post star e ->
  body_ranges (Exoplanet.Eccentricity e) (Exoplanet.Mass e) (Exoplanet.Radius e)
    (Exoplanet.OrbitalPeriod e) (Exoplanet.SemiMajorAxis e)
    (Exoplanet.DiscoveryYear e) (Exoplanet.SurfaceTemp e).
Proof.
  intros (HM & HR & HT)
         (_ & Haxis & Hper & Htemp & Hmass & Hrad & _ & Hecc & _ & Hyear).
  assert (Ha : in_range (F2Q 0x1p-7) (F2Q 0x1p+6) (Exoplanet.SemiMajorAxis e)).
  { eapply in_range_weaken;
      [apply (randFloat_post_range _ _ _ 0x1p+3 Haxis); closed_Q | closed_Q | closed_Q]. }
  assert (He : in_range (F2Q 0) (F2Q 0x1p-1) (Exoplanet.Eccentricity e)).
  { apply (randFloat_post_range _ _ _ 0x1p-1 Hecc); closed_Q. }
  unfold body_ranges.
  split; [eapply in_range_nonneg; exact He|].
  split; [eapply in_range_below; [exact He | closed_Q | closed_Q]|].
  split; [eapply in_range_pos;
            [apply (randFloat_post_range _ _ _ 0x1p+9 Hmass); closed_Q | closed_Q]|].
  split; [eapply in_range_pos;
            [apply (randFloat_post_range _ _ _ 0x1p+4 Hrad); closed_Q | closed_Q]|].
  split; [rewrite Hper; eapply in_range_pos; [apply kepler_period_range; eassumption | closed_Q]|].
  split; [eapply in_range_pos; [exact Ha | closed_Q]|].
  split; [apply randInt_post_range in Hyear; [lia | lia | lia | lia]|].
  rewrite Htemp. eapply proj1; apply surface_temp_range; assumption.
Qed.


(** ** What a run of the assembler establishes *)

Lemma GenerateAll_inv ids cfg d :
  GenerateAll ids cfg = Some d ->
  count_inv cfg (Z.max 0 (NumStars cfg)) d /\ data_inv d.
Proof.
  unfold GenerateAll. intros H.
  destruct (GenerateAll_from cfg _) as [[d' w']|] eqn:E; [|discriminate].
  inversion H; subst d'. exact (returns_GenerateAll_from cfg _ _ _ E).
Qed.

Lemma GenerateAll_total ids cfg :
  0 <= NumStars cfg -> NumStars cfg * star_size <= maxAlloc ->
  (0 < NumStars cfg ->
   0 < wrap64 (PlanetsPerStar cfg + 1) /\ 0 < wrap64 (ExoPerStar cfg + 1)) ->
  exists d, GenerateAll ids cfg = Some d.
Proof.
  intros HN HA Hcaps. unfold GenerateAll.
  pose proof (total_GenerateAll_from cfg HN HA Hcaps
                {| rng := NewRand (Seed cfg); uuids := ids; next_uuid := 0 |}) as T.
  destruct (GenerateAll_from cfg _) as [[d w]|]; [exists d; reflexivity | contradiction].
Qed.

Lemma wrap64_succ c : 0 <= c < maxInt64 -> wrap64 (c + 1) = c + 1.
Proof.
  unfold maxInt64, wrap64, wrap. change (2 ^ (64 - 1)) with 9223372036854775808.
  change (2 ^ 63 - 1) with 9223372036854775807. change (2 ^ 64) with 18446744073709551616.
  intros H. rewrite Z.mod_small; lia.
Qed.

Lemma draw_cap_le c : 0 <= c -> draw_cap c <= c.
Proof.
  intros H. unfold draw_cap, wrap64, wrap. change (2 ^ (64 - 1)) with 9223372036854775808.
  change (2 ^ 64) with 18446744073709551616.
  pose proof (Z.mod_le (c + 1 + 9223372036854775808) 18446744073709551616 ltac:(lia) ltac:(lia)).
  lia.
Qed.



(** ** The properties of the specification *)

(** C1, as amended.  Two calls of [GenerateAll] with the same configuration
    (seed included) either both panic or return the same stars, planets and
    exoplanets in the same order, field for field in every field other than
    the identifiers [ID] and [StarID].  (The identifiers are the values of
    [uuid.New], whatever the seed: they need not be the same in the two
    calls, see [GenerateAll_ids_not_reproducible].) *)
Theorem GenerateAll_reproducible_up_to_ids (ids1 ids2 : nat -> string) (cfg : Config) :
  option_map anon_data (GenerateAll ids1 cfg) = option_map anon_data (GenerateAll ids2 cfg).
Proof. apply GenerateAll_same. Qed.

(** C2.  For a configuration with [NumStars], [PlanetsPerStar] and
    [ExoPerStar] all at least 0, the data [GenerateAll] returns has exactly
    [NumStars] stars, at most [NumStars * PlanetsPerStar] planets and at most
    [NumStars * ExoPerStar] exoplanets. *)
Theorem GenerateAll_cardinality (ids : nat -> string) (cfg : Config) (d : GeneratedData) :
  0 <= NumStars cfg -> 0 <= PlanetsPerStar cfg -> 0 <= ExoPerStar cfg ->
  GenerateAll ids cfg = Some d ->
  Z.of_nat (List.length (Stars d)) = NumStars cfg /\
  Z.of_nat (List.length (Planets d)) <= NumStars cfg * PlanetsPerStar cfg /\
  Z.of_nat (List.length (Exoplanets d)) <= NumStars cfg * ExoPerStar cfg.
Proof.
  intros HN HP HE Hd. destruct (GenerateAll_inv ids cfg d Hd) as [(HnS & HnP & HnE) _].
  pose proof (draw_cap_le _ HP). pose proof (draw_cap_le _ HE).
  replace (Z.max 0 (NumStars cfg)) with (NumStars cfg) in * by lia.
  split; [exact HnS|]. split; nia.
Qed.

(** C3.  Every planet and every exoplanet of the data [GenerateAll] returns
    carries the [ID] of a star of the same data as its [StarID]. *)
Theorem GenerateAll_referential_integrity (ids : nat -> string) (cfg : Config) (d : GeneratedData) :
  GenerateAll ids cfg = Some d ->
  (forall p, In p (Planets d) -> exists s, In s (Stars d) /\ Planet.StarID p = Star.ID s) /\
  (forall e, In e (Exoplanets d) -> exists s, In s (Stars d) /\ Exoplanet.StarID e = Star.ID s).
Proof.
  intros Hd. destruct (GenerateAll_inv ids cfg d Hd) as [_ (_ & Hp & He)]. split.
  - intros p Hin. destruct (Hp p Hin) as (s & Hs & Hpost). exists s. split; [exact Hs | apply Hpost].
  - intros e Hin. destruct (He e Hin) as (s & Hs & Hpost). exists s. split; [exact Hs | apply Hpost].
Qed.

(** C4.  For every planet and every exoplanet of a result of [GenerateAll],
    the stored [OrbitalPeriod] is [365.25 * sqrt (a * a * a / M)], computed in
    float64 from its own stored [SemiMajorAxis] [a] and the stored [Mass] [M]
    of its parent star (a star of the same result whose [ID] is its
    [StarID]). *)
Theorem GenerateAll_kepler (ids : nat -> string) (cfg : Config) (d : GeneratedData) :
  GenerateAll ids cfg = Some d ->
  (forall p, In p (Planets d) ->
     exists s, In s (Stars d) /\ Planet.StarID p = Star.ID s /\
       Planet.OrbitalPeriod p =
         (365.25 * sqrt (Planet.SemiMajorAxis p * Planet.SemiMajorAxis p
                         * Planet.SemiMajorAxis p / Star.Mass s))%float) /\
  (forall e, In e (Exoplanets d) ->
     exists s, In s (Stars d) /\ Exoplanet.StarID e = Star.ID s /\
       Exoplanet.OrbitalPeriod e =
         (365.25 * sqrt (Exoplanet.SemiMajorAxis e * Exoplanet.SemiMajorAxis e
                         * Exoplanet.SemiMajorAxis e / Star.Mass s))%float).
Proof.
  intros Hd. destruct (GenerateAll_inv ids cfg d Hd) as [_ (_ & Hp & He)]. split.
  - intros p Hin. destruct (Hp p Hin) as (s & Hs & Hid & _ & Hper & _).
    exists s. split; [exact Hs|]. split; [exact Hid | exact Hper].
  - intros e Hin. destruct (He e Hin) as (s & Hs & Hid & _ & Hper & _).
    exists s. split; [exact Hs|]. split; [exact Hid | exact Hper].
Qed.

(** C5.  In the data [GenerateAll] returns, every star has [Mass > 0],
    [Radius > 0] and [Temperature > 0]; every planet and every exoplanet has
    [0 <= Eccentricity < 1], [Mass > 0], [Radius > 0], [OrbitalPeriod > 0],
    [SemiMajorAxis > 0], [1990 <= DiscoveryYear <= 2024] and
    [SurfaceTemp > 0] (the comparisons on floats are Go's). *)
Theorem GenerateAll_ranges (ids : nat -> string) (cfg : Config) (d : GeneratedData) :
  GenerateAll ids cfg = Some d ->
  (forall s, In s (Stars d) -> star_ranges s) /\
  (forall p, In p (Planets d) ->
     body_ranges (Planet.Eccentricity p) (Planet.Mass p) (Planet.Radius p)
       (Planet.OrbitalPeriod p) (Planet.SemiMajorAxis p)
       (Planet.DiscoveryYear p) (Planet.SurfaceTemp p)) /\
  (forall e, In e (Exoplanets d) ->
     body_ranges (Exoplanet.Eccentricity e) (Exoplanet.Mass e) (Exoplanet.Radius e)
       (Exoplanet.OrbitalPeriod e) (Exoplanet.SemiMajorAxis e)
       (Exoplanet.DiscoveryYear e) (Exoplanet.SurfaceTemp e)).
Proof.
  intros Hd. destruct (GenerateAll_inv ids cfg d Hd) as [_ (Hs & Hp & He)].
  assert (Hb : forall s, In s (Stars d) -> star_bounds s).
  { intros s Hin. destruct (Hs s Hin) as (idx & Hpost). exact (star_post_bounds idx s Hpost). }
  split; [|split].
  - intros s Hin. apply star_bounds_ranges. apply Hb. exact Hin.
  - intros p Hin. destruct (Hp p Hin) as (s & Hin' & Hpost).
    exact (planet_post_ranges s p (Hb s Hin') Hpost).
  - intros e Hin. destruct (He e Hin) as (s & Hin' & Hpost).
    exact (exoplanet_post_ranges s e (Hb s Hin') Hpost).
Qed.



(** ** The selection of the spectral class *)

(** The cumulative sums the selection loop compares the draw with, in the
    order it forms them ([c] is the sum so far). *)
Fixpoint cumulative (ws : list float) (c : float) : list float :=
  match ws with
  | [] => []
  | w :: ws' => (c + w)%float :: cumulative ws' (c + w)%float
  end.

(** [val] meets the cumulative sum of index [k], and of none before. *)
Definition first_match (cs : list float) (val : float) (k : nat) : Prop :=
  (exists ck, nth_error cs k = Some ck /\ (val <=? ck)%float = true) /\
  (forall j cj, (j < k)%nat -> nth_error cs j = Some cj -> (val <=? cj)%float = false).

Lemma pick_class_first_match ws : forall i c val,
  (exists k, first_match (cumulative ws c) val k /\
             pick_class ws i c val = i + Z.of_nat k) \/
  ((forall j cj, nth_error (cumulative ws c) j = Some cj -> (val <=? cj)%float = false) /\
   pick_class ws i c val = 0).
Proof.
  induction ws as [|w ws IH]; intros i c val; cbn [pick_class cumulative].
  - right. split; [|reflexivity]. intros [|j] cj H; discriminate H.
  - destruct (val <=? c + w)%float eqn:E.
    + left. exists 0%nat. split; [|lia]. split.
      * exists (c + w)%float. split; [reflexivity | exact E].
      * intros j cj Hj. inversion Hj.
    + destruct (IH (i + 1) (c + w)%float val) as [(k & [(ck & Hk & Hle) Hfirst] & Hp) | [Hnone Hp]].
      * left. exists (S k). split; [|lia]. split.
        -- exists ck. split; [exact Hk | exact Hle].
        -- intros [|j] cj Hj Hnth; cbn in Hnth.
           ++ inversion Hnth; subst cj. exact E.
           ++ apply (Hfirst j cj); [lia | exact Hnth].
      * right. split; [|exact Hp]. intros [|j] cj Hnth; cbn in Hnth.
        -- inversion Hnth; subst cj. exact E.
        -- apply (Hnone j cj). exact Hnth.
Qed.

Lemma float_ltb_leb x y : (x <? y)%float = true -> (x <=? y)%float = true.
Proof.
  rewrite ltb_spec, leb_spec. unfold SFltb, SFleb.
  destruct (SFcompare (Prim2SF x) (Prim2SF y)) as [[| |]|]; intros H;
    try reflexivity; discriminate H.
Qed.

Lemma total_weight_value :
  Prim2SF (total_weight weights) = S754_finite false 7126948521376136 (-46).
Proof. vm_compute. reflexivity. Qed.

(** The draw scaled by the total weight lies in the half-open interval from 0
    to the total weight. *)
Lemma scaled_weight_range f :
  unit_draw f ->
  (0 <=? f * total_weight weights)%float = true /\
  (f * total_weight weights <? total_weight weights)%float = true.
Proof.
  intros [H0 H1]. apply (mul_below f _ _ _ H0 H1 total_weight_value). reflexivity.
Qed.

(** C6.  [generateSpectralType] scales a draw of the unit interval by the sum
    of the weights 0.00003, 0.13, 2.0, 3.0, 7.6, 12.1, 76.45 (classes O, B, A,
    F, G, K, M in this order): the value lies in the half-open interval from 0
    to that sum, and the class chosen is the first, in the order O to M,
    whose cumulative weight is at least the value; a value equal to a
    cumulative weight selects the class of that cumulative weight (the
    earlier of the two it separates). *)
Theorem generateSpectralType_selection :
  weights = [0.00003; 0.13; 2.0; 3.0; 7.6; 12.1; 76.45]%float /\
  map class spectralTypes = ["O"; "B"; "A"; "F"; "G"; "K"; "M"]%string /\
  (forall w, exists s w' k st d,
     generateSpectralType w = Some (s, w') /\
     let val := (fst (Float64 (rng w)) * total_weight weights)%float in
     (0 <=? val)%float = true /\ (val <? total_weight weights)%float = true /\
     first_match (cumulative weights 0%float) val k /\
     nth_error spectralTypes k = Some st /\ 0 <= d < 10 /\
     s = (class st ++ itoa d ++ "V")%string) /\
  (forall k ck, nth_error (cumulative weights 0%float) k = Some ck ->
     first_match (cumulative weights 0%float) ck k /\
     pick_class weights 0 0%float ck = Z.of_nat k).
Proof.
  split; [reflexivity|]. split; [reflexivity|]. split.
  - intros w. unfold generateSpectralType, bind, r_Float64.
    pose proof (Float64_range (rng w)) as Hf.
    destruct (Float64 (rng w)) as [f r1]. cbn [fst] in *. cbv zeta.
    destruct (scaled_weight_range f Hf) as [Hv0 Hv1].
    set (val := (f * total_weight weights)%float) in *.
    destruct (pick_class_first_match weights 0 0%float val)
      as [(k & Hfirst & Hpick) | [Hnone _]].
    + assert (Hk : (k < 7)%nat).
      { destruct Hfirst as [(ck & Hck & _) _].
        change 7%nat with (List.length (cumulative weights 0%float)).
        apply nth_error_Some. rewrite Hck. discriminate. }
      destruct (nth_error spectralTypes k) as [st|] eqn:Est.
      2:{ apply nth_error_None in Est. cbn [spectralTypes List.length] in Est. lia. }
      rewrite Hpick. unfold index.
      destruct (0 + Z.of_nat k <? 0) eqn:Eneg; [apply Z.ltb_lt in Eneg; lia|].
      replace (Z.to_nat (0 + Z.of_nat k)) with k by lia. rewrite Est.
      unfold ret, r_Intn. change (10 <=? 0) with false. cbn [rng uuids next_uuid].
      pose proof (Intn_range 10 r1 ltac:(lia)) as Hd.
      destruct (Intn 10 r1) as [d r2]. cbn [fst] in Hd.
      eexists _, _, k, st, d. split; [reflexivity|].
      repeat (split; [assumption|]). reflexivity.
    + exfalso. assert (E : (val <=? total_weight weights)%float = false).
      { apply (Hnone 6%nat). vm_compute. reflexivity. }
      rewrite (float_ltb_leb _ _ Hv1) in E. discriminate E.
  - intros k ck Hk.
    assert (Hp : pick_class weights 0 0%float ck = Z.of_nat k).
    { do 7 (destruct k as [|k]; [inversion Hk; subst ck; vm_compute; reflexivity|]).
      destruct k; discriminate Hk. }
    split; [|exact Hp].
    destruct (pick_class_first_match weights 0 0%float ck)
      as [(k' & Hfirst & Hp') | [Hnone _]].
    + rewrite Hp in Hp'. assert (E : k' = k) by lia. subst k'. exact Hfirst.
    + exfalso. specialize (Hnone k ck Hk).
      do 7 (destruct k as [|k];
            [inversion Hk; subst ck; vm_compute in Hnone; discriminate Hnone|]).
      destruct k; discriminate Hk.
Qed.

(** ** The physical regime of a planet *)

Inductive Regime : Type := Rocky | IceGiant | GasGiant.

(** The mass range and the radius range of a regime. *)
Definition regime_mass (r : Regime) : float * float :=
  match r with
  | Rocky => (0.1, 5.0)
  | IceGiant => (5.0, 20.0)
  | GasGiant => (20.0, 1000.0)
  end%float.

Definition regime_radius (r : Regime) : float * float :=
  match r with
  | Rocky => (0.3, 2.0)
  | IceGiant => (2.0, 4.0)
  | GasGiant => (4.0, 15.0)
  end%float.

(** Sampling the mass and the radius of a regime. *)
Definition sample_regime (r : Regime) : M (float * float) :=
  mass <- randFloat (fst (regime_mass r)) (snd (regime_mass r)) ;;
  radius <- randFloat (fst (regime_radius r)) (snd (regime_radius r)) ;;
  ret (mass, radius).

(** The partition as the specification words it: bands open at their low end
    and closed at their high end. *)
Definition claimed_regime (x : float) : Regime :=
  if (x <=? 0.3)%float then Rocky
  else if (x <=? 0.6)%float then IceGiant
  else GasGiant.

(** C7, as amended.  In [generatePlanet] one draw of the unit interval
    selects exactly one of three regimes: rocky (mass sampled from 0.1 to 5.0,
    radius from 0.3 to 2.0) below 0.3, ice giant (mass 5.0 to 20.0, radius 2.0
    to 4.0) from 0.3 to below 0.6, gas giant (mass 20.0 to 1000.0, radius 4.0
    to 15.0) from 0.6 on: the bands are closed at their low end and open at
    their high end, so a draw equal to 0.3 selects ice giant and a draw equal
    to 0.6 selects gas giant. *)
Theorem planet_body_bands (x : float) :
  unit_draw x ->
  ((x <? 0.3)%float = true -> planet_body x = sample_regime Rocky) /\
  ((0.3 <=? x)%float = true -> (x <? 0.6)%float = true ->
   planet_body x = sample_regime IceGiant) /\
  ((0.6 <=? x)%float = true -> planet_body x = sample_regime GasGiant) /\
  ((x <? 0.3)%float = true \/
   ((0.3 <=? x)%float = true /\ (x <? 0.6)%float = true) \/
   (0.6 <=? x)%float = true) /\
  ~ ((x <? 0.3)%float = true /\ (0.3 <=? x)%float = true) /\
  ~ ((x <? 0.6)%float = true /\ (0.6 <=? x)%float = true) /\
  ~ ((x <? 0.3)%float = true /\ (0.6 <=? x)%float = true).
Proof.
  intros [H0 H1]. pose proof (fnn_of_bounds x 1 H0 H1) as Hx.
  assert (H3 : fnn 0.3) by closed_Q. assert (H6 : fnn 0.6) by closed_Q.
  assert (H36 : (F2Q 0.3 < F2Q 0.6)%Q) by closed_Q.
  pose proof (ltb_Q x 0.3 Hx H3) as L3. pose proof (ltb_Q x 0.6 Hx H6) as L6.
  pose proof (leb_Q 0.3 x H3 Hx) as G3. pose proof (leb_Q 0.6 x H6 Hx) as G6.
  assert (N3 : (0.3 <=? x)%float = true -> (x <? 0.3)%float = false).
  { intros H. destruct (x <? 0.3)%float; [|reflexivity].
    apply G3 in H. assert (F2Q x < F2Q 0.3)%Q by (apply L3; reflexivity). lra. }
  assert (N6 : (0.6 <=? x)%float = true -> (x <? 0.6)%float = false).
  { intros H. destruct (x <? 0.6)%float; [|reflexivity].
    apply G6 in H. assert (F2Q x < F2Q 0.6)%Q by (apply L6; reflexivity). lra. }
  assert (N36 : (0.6 <=? x)%float = true -> (x <? 0.3)%float = false).
  { intros H. destruct (x <? 0.3)%float; [|reflexivity].
    apply G6 in H. assert (F2Q x < F2Q 0.3)%Q by (apply L3; reflexivity). lra. }
  unfold planet_body. repeat split.
  - intros H. rewrite H. reflexivity.
  - intros Ha Hb. rewrite (N3 Ha), Hb. reflexivity.
  - intros H. rewrite (N36 H), (N6 H). reflexivity.
  - destruct (Qlt_le_dec (F2Q x) (F2Q 0.3)) as [Hl|Hg]; [left; apply L3; exact Hl|].
    right. destruct (Qlt_le_dec (F2Q x) (F2Q 0.6)) as [Hl|Hg'].
    + left. split; [apply G3; exact Hg | apply L6; exact Hl].
    + right. apply G6. exact Hg'.
  - intros [Ha Hb]. rewrite (N3 Hb) in Ha. discriminate Ha.
  - intros [Ha Hb]. rewrite (N6 Hb) in Ha. discriminate Ha.
  - intros [Ha Hb]. rewrite (N36 Hb) in Ha. discriminate Ha.
Qed.

(** ** Scenarios *)

(** C9.  With [NumStars] 10, [PlanetsPerStar] 5, [ExoPerStar] 3 and seed
    12345, [GenerateAll] returns exactly 10 stars, at most 50 planets and at
    most 30 exoplanets, and a second call with the same configuration returns
    a first star with the same name, mass and spectral type as the first
    star of the first call. *)
Theorem GenerateAll_scenario (ids1 ids2 : nat -> string) :
  let cfg := {| NumStars := 10; PlanetsPerStar := 5; ExoPerStar := 3; Seed := 12345 |} in
  exists d1 d2 s1 s2,
    GenerateAll ids1 cfg = Some d1 /\ GenerateAll ids2 cfg = Some d2 /\
    List.length (Stars d1) = 10%nat /\
    (List.length (Planets d1) <= 50)%nat /\
    (List.length (Exoplanets d1) <= 30)%nat /\
    hd_error (Stars d1) = Some s1 /\ hd_error (Stars d2) = Some s2 /\
    Star.Name s1 = Star.Name s2 /\ Star.Mass s1 = Star.Mass s2 /\
    Star.SpectralType s1 = Star.SpectralType s2.
Proof.
  intros cfg.
  destruct (GenerateAll_total ids1 cfg) as [d1 H1];
    [cbn; lia | vm_compute; discriminate | intros _; split; reflexivity |].
  destruct (GenerateAll_total ids2 cfg) as [d2 H2];
    [cbn; lia | vm_compute; discriminate | intros _; split; reflexivity |].
  destruct (GenerateAll_inv ids1 cfg d1 H1) as [(HnS & HnP & HnE) _].
  destruct (GenerateAll_inv ids2 cfg d2 H2) as [(HnS2 & _) _].
  change (Z.max 0 (NumStars cfg)) with 10 in *.
  change (draw_cap (PlanetsPerStar cfg)) with 5 in HnP.
  change (draw_cap (ExoPerStar cfg)) with 3 in HnE.
  pose proof (GenerateAll_same ids1 ids2 cfg) as Hsame. rewrite H1, H2 in Hsame.
  cbn [option_map] in Hsame. inversion Hsame as [[HS HP HE]].
  destruct (Stars d1) as [|s1 l1] eqn:E1; [cbn in HnS; lia|].
  destruct (Stars d2) as [|s2 l2] eqn:E2; [cbn in HnS2; lia|].
  cbn [map] in HS. inversion HS as [[Hn Hsp Hm Hr Ht Hrest]].
  exists d1, d2, s1, s2. rewrite E1, E2.
  split; [exact H1|]. split; [exact H2|].
  split; [cbn [List.length] in *; lia|]. split; [lia|]. split; [lia|].
  split; [reflexivity|]. split; [reflexivity|]. auto.
Qed.

(** C10, as amended.  For a configuration whose [NumStars] is zero,
    [GenerateAll] returns, without a panic, data whose three sequences are
    empty, whatever the seed and the two caps, negative ones too: the loop
    over the stars is not entered and no count is drawn. *)
Theorem GenerateAll_zero_stars (ids : nat -> string) (cfg : Config) :
  NumStars cfg = 0 -> GenerateAll ids cfg = Some empty_data.
Proof.
  intros H. unfold GenerateAll, GenerateAll_from, make_slice, for_loop, bind.
  rewrite H. reflexivity.
Qed.

End GeneratorProofs.

(** * The structure of a result, the ranges with both ends, the panics

    Further properties of [generator/config.go], on the same model. *)

(** ** Preliminaries *)

Lemma randFloat_post_closed lo hi x md ed :
  randFloat_post lo hi x ->
  fnn lo -> fnn hi ->
  Prim2SF (hi - lo) = S754_finite false md ed -> 2 ^ 52 < Z.pos md ->
  (F2Q lo + dy (Z.pos md - 1) ed <= F2Q hi)%Q ->
  in_range (F2Q lo) (F2Q hi) x.
Proof.
  intros (f & [H0 H1] & ->) Hlo Hhi Hd Hmd Hsum.
  destruct (mul_below f (hi - lo) md ed H0 H1 Hd Hmd) as [Hp0 Hp1].
  pose proof (fnn_of_bounds _ _ Hp0 Hp1) as Hp.
  assert (Hdn : fnn (hi - lo)) by (unfold fnn; rewrite Hd; exact I).
  assert (Hlt : (F2Q (f * (hi - lo)) < F2Q (hi - lo))%Q) by (apply ltb_Q; assumption).
  assert (Hle : (F2Q (f * (hi - lo)) <= dy (Z.pos md - 1) ed)%Q).
  { unfold F2Q in *. apply SF_below_pred.
    - apply Prim2SF_valid.
    - exact Hp.
    - pose proof (Prim2SF_valid (hi - lo)) as Hv. rewrite Hd in Hv. exact Hv.
    - exact Hmd.
    - rewrite Hd in Hlt. exact Hlt. }
  pose proof (F2Q_nonneg _ Hp) as Hp0'.
  apply add_interval; try assumption. split; lra.
Qed.

(** Go's comparisons [lo <= x] and [x <= hi]. *)
Definition within (lo hi x : float) : Prop :=
  (lo <=? x)%float = true /\ (x <=? hi)%float = true.

Lemma in_range_within lo hi x :
  fnn lo -> fnn hi -> in_range (F2Q lo) (F2Q hi) x -> within lo hi x.
Proof.
  intros Hlo Hhi [Hx [H1 H2]]. split; apply leb_Q; assumption.
Qed.

(** The result of [randFloat] for the ranges the generator uses: never below
    [min] and never above [max]. *)
Ltac randFloat_within H :=
  apply in_range_within; [closed_Q | closed_Q |];
  first
    [ apply (randFloat_post_range _ _ _ _ H); closed_Q
    | eapply (randFloat_post_closed _ _ _ _ _ H);
      [closed_Q | closed_Q | vm_compute; reflexivity | reflexivity | closed_Q] ].


Record System : Type := {
  sys_star : Star.t;
  sys_planets : list Planet.t;
  sys_exoplanets : list Exoplanet.t
}.

Definition flatten (l : list System) : GeneratedData :=
  {| Stars := map sys_star l;
     Planets := List.concat (map sys_planets l);
     Exoplanets := List.concat (map sys_exoplanets l) |}.

Definition system_ids (s : System) : list string :=
  Star.ID (sys_star s)
  :: map Planet.ID (sys_planets s) ++ map Exoplanet.ID (sys_exoplanets s).


(** [fmt.Sprintf("%d", n)] determines [n]. *)
Lemma itoa_inj a b : itoa a = itoa b -> a = b.
Proof.
  unfold itoa. intros H.
  assert (Hnz : forall z, Z.to_int z <> Decimal.Pos Decimal.Nil /\
                          Z.to_int z <> Decimal.Neg Decimal.Nil).
  { intros [|p|p]; cbn; split; try discriminate;
      intros E; inversion E as [E']; exact (DecimalPos.Unsigned.to_uint_nonnil p E'). }
  apply DecimalZ.to_int_inj.
  destruct (Hnz a) as [Ha1 Ha2]. destruct (Hnz b) as [Hb1 Hb2].
  pose proof (NilZero.isi (Z.to_int a) Ha1 Ha2) as Ia.
  pose proof (NilZero.isi (Z.to_int b) Hb1 Hb2) as Ib.
  rewrite H in Ia. rewrite Ia in Ib. inversion Ib. reflexivity.
Qed.

Lemma append_inj_r (s a b : string) : (s ++ a = s ++ b)%string -> a = b.
Proof.
  induction s as [|c s IH]; cbn; intros H; [exact H|].
  inversion H. apply IH. assumption.
Qed.

Lemma wrap64_small z : 0 <= z <= maxInt64 -> wrap64 z = z.
Proof.
  unfold maxInt64, wrap64, wrap. change (2 ^ (64 - 1)) with 9223372036854775808.
  change (2 ^ 63 - 1) with 9223372036854775807. change (2 ^ 64) with 18446744073709551616.
  intros H. rewrite Z.mod_small; lia.
Qed.

Lemma draw_cap_small c : 0 <= draw_cap c < maxInt64.
Proof.
  unfold draw_cap, maxInt64, wrap64, wrap. change (2 ^ (64 - 1)) with 9223372036854775808.
  change (2 ^ 63 - 1) with 9223372036854775807. change (2 ^ 64) with 18446744073709551616.
  pose proof (Z.mod_pos_bound (c + 1 + 9223372036854775808) 18446744073709551616 ltac:(lia)).
  lia.
Qed.

Lemma NoDup_map_eq {A B} (f : A -> B) (l : list A) a b :
  NoDup (map f l) -> In a l -> In b l -> f a = f b -> a = b.
Proof.
  induction l as [|x l IH]; cbn; intros Hnd Ha Hb E; [contradiction|].
  inversion Hnd as [|? ? Hnin Hnd']; subst.
  destruct Ha as [<-|Ha], Hb as [<-|Hb].
  - reflexivity.
  - exfalso. apply Hnin. rewrite E. apply in_map. exact Hb.
  - exfalso. apply Hnin. rewrite <- E. apply in_map. exact Ha.
  - apply IH; assumption.
Qed.

Lemma filter_all {A} (f : A -> bool) (l : list A) :
  (forall x, In x l -> f x = true) -> filter f l = l.
Proof.
  induction l as [|x l IH]; cbn; intros H; [reflexivity|].
  rewrite (H x) by (left; reflexivity). f_equal. apply IH. intros y Hy. apply H. right. exact Hy.
Qed.

Lemma filter_none {A} (f : A -> bool) (l : list A) :
  (forall x, In x l -> f x = false) -> filter f l = [].
Proof.
  induction l as [|x l IH]; cbn; intros H; [reflexivity|].
  rewrite (H x) by (left; reflexivity). apply IH. intros y Hy. apply H. right. exact Hy.
Qed.

(** The identifiers of the flattened data are those of the systems, in
    another order. *)
Definition all_ids (d : GeneratedData) : list string :=
  map Star.ID (Stars d) ++ map Planet.ID (Planets d) ++ map Exoplanet.ID (Exoplanets d).

Lemma all_ids_flatten l :
  Permutation (all_ids (flatten l)) (List.concat (map system_ids l)).
Proof.
  unfold all_ids, flatten. cbn [Stars Planets Exoplanets].
  induction l as [|s l IH]; [constructor|].
  cbn [map List.concat]. rewrite !map_app. unfold system_ids at 1. cbn [app].
  apply perm_skip.
  set (S := map Star.ID (map sys_star l)) in *.
  set (P := map Planet.ID (List.concat (map sys_planets l))) in *.
  set (E := map Exoplanet.ID (List.concat (map sys_exoplanets l))) in *.
  set (R := List.concat (map system_ids l)) in *.
  set (p := map Planet.ID (sys_planets s)). set (e := map Exoplanet.ID (sys_exoplanets s)).
  rewrite <- !app_assoc.
  transitivity (p ++ S ++ P ++ e ++ E); [apply Permutation_app_swap_app|].
  apply Permutation_app_head.
  transitivity (S ++ e ++ P ++ E).
  { apply Permutation_app_head. apply Permutation_app_swap_app. }
  transitivity (e ++ S ++ P ++ E); [apply Permutation_app_swap_app|].
  apply Permutation_app_head. exact IH.
Qed.


(** In a list of systems whose stars have distinct identifiers, the entities
    that carry the identifier of a star are those of its system. *)
Lemma filter_group {A} (key : A -> string) (group : System -> list A) (l : list System) :
  NoDup (map (fun s => Star.ID (sys_star s)) l) ->
  (forall s a, In s l -> In a (group s) -> key a = Star.ID (sys_star s)) ->
  forall s, In s l ->
    filter (fun a => String.eqb (key a) (Star.ID (sys_star s))) (List.concat (map group l))
    = group s.
Proof.
  induction l as [|x l IH]; intros Hnd Hkey s Hin; [contradiction|].
  cbn [map List.concat] in *. rewrite filter_app.
  inversion Hnd as [|? ? Hnin Hnd']; subst.
  destruct Hin as [<-|Hin].
  - rewrite filter_all.
    + rewrite filter_none; [apply app_nil_r|].
      intros a Ha. apply in_concat in Ha. destruct Ha as (g & Hg & Ha).
      apply in_map_iff in Hg. destruct Hg as (y & <- & Hy).
      apply String.eqb_neq. rewrite (Hkey y a (or_intror Hy) Ha). intros E.
      apply Hnin. rewrite <- E. apply (in_map (fun s => Star.ID (sys_star s))). exact Hy.
    + intros a Ha. apply String.eqb_eq. apply (Hkey x a); [left; reflexivity | exact Ha].
  - rewrite filter_none.
    + cbn [app]. apply IH; [exact Hnd' | | exact Hin].
      intros y a Hy. apply Hkey. right. exact Hy.
    + intros a Ha. apply String.eqb_neq. rewrite (Hkey x a (or_introl eq_refl) Ha). intros E.
      apply Hnin. rewrite E. apply (in_map (fun s => Star.ID (sys_star s))). exact Hin.
Qed.

(** ** The generator, with the state in view *)

Section GeneratorStructure.
Context {RS : RandSource}.

Notation "x <- m ;; k" := (bind m (fun x => k))
  (at level 61, m at next level, right associativity).
Notation "' pat <- m ;; k" := (bind m (fun x => match x with pat => k end))
  (at level 61, pat pattern, m at next level, right associativity).

Lemma bind_Some {A B} (m : M A) (k : A -> M B) w b w' :
  bind m k w = Some (b, w') ->
  exists a w1, m w = Some (a, w1) /\ k a w1 = Some (b, w').
Proof.
  unfold bind. destruct (m w) as [[a w1]|]; [|discriminate].
  intros H. exists a, w1. split; [reflexivity | exact H].
Qed.

(** [keeps_uuids m]: [m] does not call [uuid.New]. *)
Definition keeps_uuids {A} (m : M A) : Prop :=
  forall w a w', m w = Some (a, w') ->
    uuids w' = uuids w /\ next_uuid w' = next_uuid w.

(** [takes_uuid id m]: [m] calls [uuid.New] once, and [id] of its result is
    the identifier handed out. *)
Definition takes_uuid {A} (id : A -> string) (m : M A) : Prop :=
  forall w a w', m w = Some (a, w') ->
    uuids w' = uuids w /\ next_uuid w' = S (next_uuid w) /\
    id a = uuids w (next_uuid w).

Lemma keeps_ret {A} (a : A) : keeps_uuids (ret a).
Proof. intros w a' w' E. inversion E; subst. split; reflexivity. Qed.

Lemma keeps_panic {A} : keeps_uuids (@panic _ A).
Proof. intros w a w' E. discriminate E. Qed.

Lemma keeps_bind {A B} (m : M A) (k : A -> M B) :
  keeps_uuids m -> (forall a, keeps_uuids (k a)) -> keeps_uuids (bind m k).
Proof.
  intros Hm Hk w b w' E. apply bind_Some in E. destruct E as (a & w1 & E1 & E2).
  destruct (Hm _ _ _ E1) as [H1 H2]. destruct (Hk a _ _ _ E2) as [H3 H4].
  split; congruence.
Qed.

Lemma keeps_Float64 : keeps_uuids r_Float64.
Proof.
  intros w a w' E. unfold r_Float64 in E. destruct (Float64 (rng w)).
  inversion E; subst. split; reflexivity.
Qed.

Lemma keeps_Intn n : keeps_uuids (r_Intn n).
Proof.
  intros w a w' E. unfold r_Intn in E. destruct (n <=? 0); [discriminate|].
  destruct (Intn n (rng w)). inversion E; subst. split; reflexivity.
Qed.

Lemma keeps_Int31n n : keeps_uuids (r_Int31n n).
Proof.
  intros w a w' E. unfold r_Int31n in E. destruct (n <=? 0); [discriminate|].
  destruct (Int31n n (rng w)). inversion E; subst. split; reflexivity.
Qed.

Lemma keeps_index {A} (l : list A) i : keeps_uuids (index l i).
Proof.
  unfold index. destruct (i <? 0); [apply keeps_panic|].
  destruct (nth_error l (Z.to_nat i)); [apply keeps_ret | apply keeps_panic].
Qed.

Lemma keeps_first_byte s : keeps_uuids (first_byte s).
Proof. destruct s; [apply keeps_panic | apply keeps_ret]. Qed.

Lemma keeps_find_class l c : forall i, keeps_uuids (find_class l i c).
Proof.
  induction l as [|st l IH]; intros i; cbn [find_class].
  - apply keeps_ret.
  - apply keeps_bind; [apply keeps_first_byte|]. intros b.
    destruct (Ascii.eqb b c); [apply keeps_ret | apply IH].
Qed.

Lemma keeps_randFloat lo hi : keeps_uuids (randFloat lo hi).
Proof. apply keeps_bind; [apply keeps_Float64 | intros f; apply keeps_ret]. Qed.

Lemma keeps_randInt lo hi : keeps_uuids (randInt lo hi).
Proof. apply keeps_bind; [apply keeps_Int31n | intros f; apply keeps_ret]. Qed.

Lemma keeps_generateSpectralType : keeps_uuids generateSpectralType.
Proof.
  unfold generateSpectralType. cbv zeta.
  apply keeps_bind; [apply keeps_Float64|]. intros f.
  apply keeps_bind; [apply keeps_index|]. intros st.
  apply keeps_bind; [apply keeps_Intn|]. intros d. apply keeps_ret.
Qed.

Lemma keeps_planet_body x : keeps_uuids (planet_body x).
Proof.
  unfold planet_body.
  destruct (x <? 0.3)%float; [|destruct (x <? 0.6)%float];
    (apply keeps_bind; [apply keeps_randFloat|]; intros mass;
     apply keeps_bind; [apply keeps_randFloat|]; intros radius; apply keeps_ret).
Qed.

Lemma takes_bind {A B} (id : B -> string) (m : M A) (k : A -> M B) :
  keeps_uuids m -> (forall a, takes_uuid id (k a)) -> takes_uuid id (bind m k).
Proof.
  intros Hm Hk w b w' E. apply bind_Some in E. destruct E as (a & w1 & E1 & E2).
  destruct (Hm _ _ _ E1) as [H1 H2]. destruct (Hk a _ _ _ E2) as (H3 & H4 & H5).
  rewrite H3, H4, H5, H1, H2. repeat split; reflexivity.
Qed.

Lemma takes_uuid_New {B} (id : B -> string) (k : string -> M B) :
  (forall u, keeps_uuids (k u)) -> (forall u, returns (k u) (fun b => id b = u)) ->
  takes_uuid id (bind uuid_New k).
Proof.
  intros Hk Hid w b w' E. apply bind_Some in E. destruct E as (u & w1 & E1 & E2).
  unfold uuid_New in E1. inversion E1; subst u w1. clear E1.
  destruct (Hk _ _ _ _ E2) as [H1 H2]. cbn [uuids next_uuid] in H1, H2.
  split; [exact H1|]. split; [exact H2|]. exact (Hid _ _ _ _ E2).
Qed.

Lemma takes_generateStar idx : takes_uuid Star.ID (generateStar idx).
Proof.
  unfold generateStar.
  apply takes_bind; [apply keeps_generateSpectralType|]. intros sp.
  apply takes_bind; [apply keeps_first_byte|]. intros c.
  apply takes_bind; [apply keeps_find_class|]. intros i.
  apply takes_bind; [apply keeps_index|]. intros st.
  apply takes_uuid_New; intros u.
  - apply keeps_bind; [apply keeps_randFloat|]. intros mass.
    apply keeps_bind; [apply keeps_randFloat|]. intros radius.
    apply keeps_bind; [apply keeps_randInt|]. intros temp. apply keeps_ret.
  - eapply (returns_bind _ _ (fun _ => True)); [apply returns_any|]. intros mass _.
    eapply (returns_bind _ _ (fun _ => True)); [apply returns_any|]. intros radius _.
    eapply (returns_bind _ _ (fun _ => True)); [apply returns_any|]. intros temp _.
    apply returns_ret. reflexivity.
Qed.

Lemma takes_generatePlanet star idx : takes_uuid Planet.ID (generatePlanet star idx).
Proof.
  unfold generatePlanet. cbv zeta.
  apply takes_bind; [apply keeps_randFloat|]. intros axis.
  apply takes_bind; [apply keeps_Float64|]. intros planetType.
  apply takes_bind; [apply keeps_planet_body|]. intros [mass radius].
  apply takes_uuid_New; intros u.
  - apply keeps_bind; [apply keeps_randFloat|]. intros ecc.
    apply keeps_bind; [apply keeps_Intn|]. intros atmIdx.
    apply keeps_bind; [apply keeps_index|]. intros atm.
    apply keeps_bind; [apply keeps_Float64|]. intros rings.
    apply keeps_bind; [apply keeps_Float64|]. intros moons.
    apply keeps_bind; [apply keeps_randInt|]. intros year. apply keeps_ret.
  - eapply (returns_bind _ _ (fun _ => True)); [apply returns_any|]. intros ecc _.
    eapply (returns_bind _ _ (fun _ => True)); [apply returns_any|]. intros atmIdx _.
    eapply (returns_bind _ _ (fun _ => True)); [apply returns_any|]. intros atm _.
    eapply (returns_bind _ _ (fun _ => True)); [apply returns_any|]. intros rings _.
    eapply (returns_bind _ _ (fun _ => True)); [apply returns_any|]. intros moons _.
    eapply (returns_bind _ _ (fun _ => True)); [apply returns_any|]. intros year _.
    apply returns_ret. reflexivity.
Qed.

Lemma takes_generateExoplanet star idx :
  takes_uuid Exoplanet.ID (generateExoplanet star idx).
Proof.
  unfold generateExoplanet. cbv zeta.
  apply takes_bind; [apply keeps_randFloat|]. intros axis.
  apply takes_bind; [apply keeps_randFloat|]. intros mass.
  apply takes_bind; [apply keeps_randFloat|]. intros radius.
  apply takes_bind; [apply keeps_randFloat|]. intros dist.
  apply takes_uuid_New; intros u.
  - apply keeps_bind; [apply keeps_randFloat|]. intros ecc.
    apply keeps_bind; [apply keeps_Intn|]. intros detIdx.
    apply keeps_bind; [apply keeps_index|]. intros det.
    apply keeps_bind; [apply keeps_randInt|]. intros year. apply keeps_ret.
  - eapply (returns_bind _ _ (fun _ => True)); [apply returns_any|]. intros ecc _.
    eapply (returns_bind _ _ (fun _ => True)); [apply returns_any|]. intros detIdx _.
    eapply (returns_bind _ _ (fun _ => True)); [apply returns_any|]. intros det _.
    eapply (returns_bind _ _ (fun _ => True)); [apply returns_any|]. intros year _.
    apply returns_ret. reflexivity.
Qed.

(** The names. *)
Definition planet_named (star : Star.t) (idx : Z) (p : Planet.t) : Prop :=
  Planet.Name p = (Star.Name star ++ "-Planet-" ++ itoa idx)%string.

Definition exoplanet_named (star : Star.t) (idx : Z) (e : Exoplanet.t) : Prop :=
  Exoplanet.Name e = (Star.Name star ++ "-Exo-" ++ itoa idx)%string.

Lemma returns_generatePlanet_name star idx :
  returns (generatePlanet star idx) (planet_named star idx).
Proof.
  unfold generatePlanet. cbv zeta.
  eapply (returns_bind _ _ (fun _ => True)); [apply returns_any|]. intros axis _.
  eapply (returns_bind _ _ (fun _ => True)); [apply returns_any|]. intros planetType _.
  eapply (returns_bind _ _ (fun _ => True)); [apply returns_any|]. intros [mass radius] _.
  eapply (returns_bind _ _ (fun _ => True)); [apply returns_any|]. intros id _.
  eapply (returns_bind _ _ (fun _ => True)); [apply returns_any|]. intros ecc _.
  eapply (returns_bind _ _ (fun _ => True)); [apply returns_any|]. intros atmIdx _.
  eapply (returns_bind _ _ (fun _ => True)); [apply returns_any|]. intros atm _.
  eapply (returns_bind _ _ (fun _ => True)); [apply returns_any|]. intros rings _.
  eapply (returns_bind _ _ (fun _ => True)); [apply returns_any|]. intros moons _.
  eapply (returns_bind _ _ (fun _ => True)); [apply returns_any|]. intros year _.
  apply returns_ret. reflexivity.
Qed.

Lemma returns_generateExoplanet_name star idx :
  returns (generateExoplanet star idx) (exoplanet_named star idx).
Proof.
  unfold generateExoplanet. cbv zeta.
  eapply (returns_bind _ _ (fun _ => True)); [apply returns_any|]. intros axis _.
  eapply (returns_bind _ _ (fun _ => True)); [apply returns_any|]. intros mass _.
  eapply (returns_bind _ _ (fun _ => True)); [apply returns_any|]. intros radius _.
  eapply (returns_bind _ _ (fun _ => True)); [apply returns_any|]. intros dist _.
  eapply (returns_bind _ _ (fun _ => True)); [apply returns_any|]. intros id _.
  eapply (returns_bind _ _ (fun _ => True)); [apply returns_any|]. intros ecc _.
  eapply (returns_bind _ _ (fun _ => True)); [apply returns_any|]. intros detIdx _.
  eapply (returns_bind _ _ (fun _ => True)); [apply returns_any|]. intros det _.
  eapply (returns_bind _ _ (fun _ => True)); [apply returns_any|]. intros year _.
  apply returns_ret. reflexivity.
Qed.

(** The loop rule with the state in view. *)
Lemma for_from_inv {S} (I : Z -> S -> World -> Prop) (body : Z -> S -> M S) :
  forall count i s w s' w',
    I i s w ->
    (forall j s0 w0 s1 w1, i <= j < i + Z.of_nat count -> I j s0 w0 ->
       body j s0 w0 = Some (s1, w1) -> I (j + 1) s1 w1) ->
    for_from count i body s w = Some (s', w') ->
    I (i + Z.of_nat count) s' w'.
Proof.
  induction count as [|c IH]; intros i s w s' w' Hi Hbody E.
  - cbn in E. inversion E; subst. replace (i + Z.of_nat 0) with i by lia. exact Hi.
  - cbn [for_from] in E. apply bind_Some in E. destruct E as (s1 & w1 & E1 & E2).
    replace (i + Z.of_nat (Datatypes.S c)) with ((i + 1) + Z.of_nat c) by lia.
    apply (IH (i + 1) s1 w1); [| |exact E2].
    + apply (Hbody i s w); [lia | exact Hi | exact E1].
    + intros j s0 w0 s2 w2 Hj. apply Hbody. lia.
Qed.

Definition group_ok {A} (post : A -> Prop) (named : Z -> A -> Prop) (g : list A) : Prop :=
  forall j a, nth_error g j = Some a -> post a /\ named (wrap64 (Z.of_nat j + 1)) a.

Lemma group_ok_nil {A} (post : A -> Prop) named : group_ok post named [].
Proof. intros [|j] a H; discriminate H. Qed.

Lemma group_ok_snoc {A} (post : A -> Prop) named (g : list A) a :
  group_ok post named g -> post a -> named (wrap64 (Z.of_nat (List.length g) + 1)) a ->
  group_ok post named (g ++ [a]).
Proof.
  intros Hg Hp Hn j b Hj.
  destruct (Nat.lt_ge_cases j (List.length g)) as [Hlt|Hge].
  - rewrite nth_error_app1 in Hj by exact Hlt. exact (Hg j b Hj).
  - rewrite nth_error_app2 in Hj by exact Hge.
    destruct (j - List.length g)%nat as [|k] eqn:Ek.
    + cbn in Hj. inversion Hj; subst b. replace j with (List.length g) by lia.
      split; assumption.
    + cbn in Hj. destruct k; discriminate Hj.
Qed.


Lemma planet_loop (ids : nat -> string) star n d0 w0 d w :
  for_loop n (fun j data =>
                planet <- generatePlanet star (wrap64 (j + 1)) ;;
                ret (add_planet planet data)) d0 w0 = Some (d, w) ->
  uuids w0 = ids ->
  exists g,
    d = {| Stars := Stars d0; Planets := Planets d0 ++ g; Exoplanets := Exoplanets d0 |} /\
    Z.of_nat (List.length g) = Z.max 0 n /\
    group_ok (planet_post star) (planet_named star) g /\
    uuids w = ids /\ next_uuid w = (next_uuid w0 + List.length g)%nat /\
    map Planet.ID g = map ids (seq (next_uuid w0) (List.length g)).
Proof.
  intros E Hids. unfold for_loop in E.
  apply (for_from_inv
           (fun j d w => exists g,
              d = {| Stars := Stars d0; Planets := Planets d0 ++ g;
                     Exoplanets := Exoplanets d0 |} /\
              Z.of_nat (List.length g) = j /\
              group_ok (planet_post star) (planet_named star) g /\
              uuids w = ids /\ next_uuid w = (next_uuid w0 + List.length g)%nat /\
              map Planet.ID g = map ids (seq (next_uuid w0) (List.length g)))) in E.
  - replace (0 + Z.of_nat (Z.to_nat n)) with (Z.max 0 n) in E by lia. exact E.
  - exists []. rewrite app_nil_r. destruct d0; cbn.
    split; [reflexivity|]. split; [reflexivity|]. split; [apply group_ok_nil|].
    split; [exact Hids|]. split; [lia | reflexivity].
  - intros j d1 w1 d2 w2 _ (g & -> & Hlen & Hg & Hu & Hn & Hm) Eb.
    apply bind_Some in Eb. destruct Eb as (p & w3 & Ep & Er).
    inversion Er; subst d2 w2. clear Er.
    destruct (takes_generatePlanet _ _ _ _ _ Ep) as (Hu3 & Hn3 & Hid).
    exists (g ++ [p]). unfold add_planet. cbn [Stars Planets Exoplanets].
    rewrite length_app. cbn [List.length].
    split; [rewrite app_assoc; reflexivity|]. split; [lia|].
    split.
    { apply group_ok_snoc; [exact Hg | exact (returns_generatePlanet _ _ _ _ _ Ep)|].
      rewrite Hlen. exact (returns_generatePlanet_name _ _ _ _ _ Ep). }
    split; [congruence|]. split; [lia|].
    rewrite map_app, Nat.add_1_r, seq_S, map_app, Hm. cbn [map].
    rewrite Hid, Hu, Hn. reflexivity.
Qed.

Lemma exoplanet_loop (ids : nat -> string) star n d0 w0 d w :
  for_loop n (fun j data =>
                exoplanet <- generateExoplanet star (wrap64 (j + 1)) ;;
                ret (add_exoplanet exoplanet data)) d0 w0 = Some (d, w) ->
  uuids w0 = ids ->
  exists g,
    d = {| Stars := Stars d0; Planets := Planets d0; Exoplanets := Exoplanets d0 ++ g |} /\
    Z.of_nat (List.length g) = Z.max 0 n /\
    group_ok (exoplanet_post star) (exoplanet_named star) g /\
    uuids w = ids /\ next_uuid w = (next_uuid w0 + List.length g)%nat /\
    map Exoplanet.ID g = map ids (seq (next_uuid w0) (List.length g)).
Proof.
  intros E Hids. unfold for_loop in E.
  apply (for_from_inv
           (fun j d w => exists g,
              d = {| Stars := Stars d0; Planets := Planets d0;
                     Exoplanets := Exoplanets d0 ++ g |} /\
              Z.of_nat (List.length g) = j /\
              group_ok (exoplanet_post star) (exoplanet_named star) g /\
              uuids w = ids /\ next_uuid w = (next_uuid w0 + List.length g)%nat /\
              map Exoplanet.ID g = map ids (seq (next_uuid w0) (List.length g)))) in E.
  - replace (0 + Z.of_nat (Z.to_nat n)) with (Z.max 0 n) in E by lia. exact E.
  - exists []. rewrite app_nil_r. destruct d0; cbn.
    split; [reflexivity|]. split; [reflexivity|]. split; [apply group_ok_nil|].
    split; [exact Hids|]. split; [lia | reflexivity].
  - intros j d1 w1 d2 w2 _ (g & -> & Hlen & Hg & Hu & Hn & Hm) Eb.
    apply bind_Some in Eb. destruct Eb as (p & w3 & Ep & Er).
    inversion Er; subst d2 w2. clear Er.
    destruct (takes_generateExoplanet _ _ _ _ _ Ep) as (Hu3 & Hn3 & Hid).
    exists (g ++ [p]). unfold add_exoplanet. cbn [Stars Planets Exoplanets].
    rewrite length_app. cbn [List.length].
    split; [rewrite app_assoc; reflexivity|]. split; [lia|].
    split.
    { apply group_ok_snoc; [exact Hg | exact (returns_generateExoplanet _ _ _ _ _ Ep)|].
      rewrite Hlen. exact (returns_generateExoplanet_name _ _ _ _ _ Ep). }
    split; [congruence|]. split; [lia|].
    rewrite map_app, Nat.add_1_r, seq_S, map_app, Hm. cbn [map].
    rewrite Hid, Hu, Hn. reflexivity.
Qed.

(** A star with its planets and exoplanets, as one round of the loop over
    the stars leaves them. *)
Definition system_ok (cfg : Config) (k : nat) (s : System) : Prop :=
  star_post (wrap64 (Z.of_nat k + 1)) (sys_star s) /\
  Z.of_nat (List.length (sys_planets s)) <= draw_cap (PlanetsPerStar cfg) /\
  Z.of_nat (List.length (sys_exoplanets s)) <= draw_cap (ExoPerStar cfg) /\
  group_ok (planet_post (sys_star s)) (planet_named (sys_star s)) (sys_planets s) /\
  group_ok (exoplanet_post (sys_star s)) (exoplanet_named (sys_star s)) (sys_exoplanets s).

(** [n0] is the number of identifiers handed out before the call. *)
Definition systems_inv (ids : nat -> string) (n0 : nat) (cfg : Config)
    (i : Z) (d : GeneratedData) (w : World) : Prop :=
  exists l,
    d = flatten l /\ Z.of_nat (List.length l) = i /\
    (forall k s, nth_error l k = Some s -> system_ok cfg k s) /\
    uuids w = ids /\ (n0 <= next_uuid w)%nat /\
    List.concat (map system_ids l) = map ids (seq n0 (next_uuid w - n0)).

Lemma flatten_snoc l s :
  flatten (l ++ [s]) =
  {| Stars := Stars (flatten l) ++ [sys_star s];
     Planets := Planets (flatten l) ++ sys_planets s;
     Exoplanets := Exoplanets (flatten l) ++ sys_exoplanets s |}.
Proof.
  unfold flatten. cbn [Stars Planets Exoplanets].
  rewrite !map_app, !concat_app. cbn [map List.concat]. rewrite !app_nil_r. reflexivity.
Qed.

Lemma star_step_systems ids n0 cfg i d w d' w' :
  0 <= i -> systems_inv ids n0 cfg i d w ->
  star_step cfg i d w = Some (d', w') ->
  systems_inv ids n0 cfg (i + 1) d' w'.
Proof.
  intros Hi (l & -> & Hlen & Hok & Hu & Hn0 & Hm) E. unfold star_step in E. cbv zeta in E.
  apply bind_Some in E. destruct E as (star & w1 & Es & E).
  apply bind_Some in E. destruct E as (np & w2 & Enp & E).
  apply bind_Some in E. destruct E as (d1 & w3 & Epl & E).
  apply bind_Some in E. destruct E as (ne & w4 & Ene & Eel).
  destruct (takes_generateStar _ _ _ _ Es) as (Hu1 & Hn1 & Hid).
  pose proof (returns_generateStar _ _ _ _ Es) as Hstar.
  destruct (keeps_Intn _ _ _ _ Enp) as (Hu2 & Hn2).
  pose proof (returns_Intn _ _ _ _ Enp) as Hnp.
  destruct (planet_loop ids star np _ _ _ _ Epl) as (g & -> & Hgl & Hg & Hu3 & Hn3 & Hgm);
    [congruence|].
  destruct (keeps_Intn _ _ _ _ Ene) as (Hu4 & Hn4).
  pose proof (returns_Intn _ _ _ _ Ene) as Hne.
  destruct (exoplanet_loop ids star ne _ _ _ _ Eel) as (h & -> & Hhl & Hh & Hu5 & Hn5 & Hhm);
    [congruence|].
  cbn [Stars Planets Exoplanets add_star] in *.
  exists (l ++ [{| sys_star := star; sys_planets := g; sys_exoplanets := h |}]).
  split; [rewrite flatten_snoc; reflexivity|].
  split; [rewrite length_app; cbn [List.length]; lia|].
  split.
  { intros k s Hk.
    destruct (Nat.lt_ge_cases k (List.length l)) as [Hlt|Hge].
    - rewrite nth_error_app1 in Hk by exact Hlt. exact (Hok k s Hk).
    - rewrite nth_error_app2 in Hk by exact Hge.
      destruct (k - List.length l)%nat as [|k'] eqn:Ek;
        [|cbn in Hk; destruct k'; discriminate Hk].
      cbn in Hk. inversion Hk; subst s. clear Hk.
      assert (Ek' : Z.of_nat k = i) by lia.
      unfold system_ok, draw_cap. cbn [sys_star sys_planets sys_exoplanets].
      rewrite Ek'. split; [exact Hstar|]. split; [lia|]. split; [lia|].
      split; assumption. }
  split; [exact Hu5|]. split; [lia|].
  rewrite map_app, concat_app. cbn [map List.concat]. rewrite app_nil_r, Hm.
  unfold system_ids. cbn [sys_star sys_planets sys_exoplanets].
  rewrite Hgm, Hhm, Hid, Hn5, Hn4, Hn3, Hn2, Hn1, Hu.
  replace (Datatypes.S (next_uuid w) + List.length g + List.length h - n0)%nat
    with ((next_uuid w - n0) + (1 + (List.length g + List.length h)))%nat by lia.
  rewrite (seq_app (next_uuid w - n0)), map_app.
  replace (n0 + (next_uuid w - n0))%nat with (next_uuid w) by lia. f_equal.
  rewrite (seq_app 1), (seq_app (List.length g)), !map_app. cbn [seq map].
  rewrite Nat.add_1_r. reflexivity.
Qed.

(** A call of the assembler leaves a list of systems, flattened, whose
    identifiers are those handed out during the call, in order. *)
Lemma GenerateAll_from_systems cfg w d w' :
  GenerateAll_from cfg w = Some (d, w') ->
  exists l,
    d = flatten l /\ Z.of_nat (List.length l) = Z.max 0 (NumStars cfg) /\
    (forall k s, nth_error l k = Some s -> system_ok cfg k s) /\
    uuids w' = uuids w /\ (next_uuid w <= next_uuid w')%nat /\
    List.concat (map system_ids l)
    = map (uuids w) (seq (next_uuid w) (next_uuid w' - next_uuid w)).
Proof.
  intros E. unfold GenerateAll_from in E.
  apply bind_Some in E. destruct E as ([] & w1 & Em & E).
  apply make_slice_returns in Em. destruct Em as (_ & _ & ->).
  unfold for_loop in E.
  apply (for_from_inv (systems_inv (uuids w) (next_uuid w) cfg)) in E.
  - destruct E as (l & -> & Hlen & Hok & Hu & Hn & Hm). exists l.
    split; [reflexivity|]. split; [lia|]. repeat (split; [assumption|]). exact Hm.
  - exists []. split; [reflexivity|]. split; [reflexivity|].
    split; [intros [|k] s0 Hk; discriminate Hk|]. split; [reflexivity|].
    split; [lia|]. rewrite Nat.sub_diag. reflexivity.
  - intros j d0 w0 d1 w1 Hj Hinv Eb.
    apply (star_step_systems (uuids w) (next_uuid w) cfg j d0 w0); [lia | assumption..].
Qed.

Lemma GenerateAll_systems ids cfg d :
  GenerateAll ids cfg = Some d ->
  exists l n,
    d = flatten l /\ Z.of_nat (List.length l) = Z.max 0 (NumStars cfg) /\
    (forall k s, nth_error l k = Some s -> system_ok cfg k s) /\
    List.concat (map system_ids l) = map ids (seq 0 n).
Proof.
  unfold GenerateAll. intros H.
  destruct (GenerateAll_from cfg _) as [[d' w']|] eqn:E; [|discriminate].
  inversion H; subst d'. clear H.
  destruct (GenerateAll_from_systems cfg _ d w' E) as (l & Hd & Hlen & Hok & _ & _ & Hm).
  cbn [uuids next_uuid] in Hm. rewrite Nat.sub_0_r in Hm.
  exists l, (next_uuid w'). repeat (split; [assumption|]). exact Hm.
Qed.


Lemma system_planet_index cfg k s j p :
  system_ok cfg k s -> nth_error (sys_planets s) j = Some p ->
  wrap64 (Z.of_nat j + 1) = Z.of_nat j + 1.
Proof.
  intros (_ & Hlen & _) Hj. pose proof (draw_cap_small (PlanetsPerStar cfg)).
  assert (j < List.length (sys_planets s))%nat by (apply nth_error_Some; rewrite Hj; discriminate).
  apply wrap64_small. lia.
Qed.

Lemma system_exoplanet_index cfg k s j e :
  system_ok cfg k s -> nth_error (sys_exoplanets s) j = Some e ->
  wrap64 (Z.of_nat j + 1) = Z.of_nat j + 1.
Proof.
  intros (_ & _ & Hlen & _) Hj. pose proof (draw_cap_small (ExoPerStar cfg)).
  assert (j < List.length (sys_exoplanets s))%nat by (apply nth_error_Some; rewrite Hj; discriminate).
  apply wrap64_small. lia.
Qed.

(** The stars are named [Star-1], [Star-2], ... in the order of the
    sequence, so no two stars of a result share a name. *)
Theorem GenerateAll_star_names (ids : nat -> string) (cfg : Config) (d : GeneratedData) :
  NumStars cfg <= maxInt64 ->
  GenerateAll ids cfg = Some d ->
  (forall k s, nth_error (Stars d) k = Some s ->
     Star.Name s = ("Star-" ++ itoa (Z.of_nat k + 1))%string) /\
  NoDup (map Star.Name (Stars d)).
Proof.
  intros HN Hd. destruct (GenerateAll_systems ids cfg d Hd) as (l & n & -> & Hlen & Hok & _).
  assert (Hname : forall k s, nth_error (Stars (flatten l)) k = Some s ->
            Star.Name s = ("Star-" ++ itoa (Z.of_nat k + 1))%string).
  { intros k s Hk. cbn [flatten Stars] in Hk. rewrite nth_error_map in Hk.
    destruct (nth_error l k) as [sy|] eqn:Ek; [|discriminate]. cbn in Hk. inversion Hk; subst s.
    destruct (Hok k sy Ek) as ((st & dg & _ & _ & _ & Hn & _) & _).
    assert (k < List.length l)%nat by (apply nth_error_Some; rewrite Ek; discriminate).
    rewrite Hn, wrap64_small by lia. reflexivity. }
  split; [exact Hname|].
  apply NoDup_nth_error. intros i j Hi E. rewrite length_map in Hi.
  rewrite !nth_error_map in E.
  destruct (nth_error (Stars (flatten l)) i) as [si|] eqn:Ei;
    [|apply nth_error_None in Ei; lia].
  destruct (nth_error (Stars (flatten l)) j) as [sj|] eqn:Ej; [|discriminate].
  cbn in E. inversion E as [E']. rewrite (Hname i si Ei), (Hname j sj Ej) in E'.
  apply append_inj_r, itoa_inj in E'. lia.
Qed.

(** The result lists the planets star by star, in the order of the stars,
    and the exoplanets likewise: each star has at most [PlanetsPerStar]
    planets and [ExoPerStar] exoplanets, they carry its [ID] as [StarID], and
    they are named after it and numbered from 1. *)
Theorem GenerateAll_grouped (ids : nat -> string) (cfg : Config) (d : GeneratedData) :
  0 <= PlanetsPerStar cfg -> 0 <= ExoPerStar cfg ->
  GenerateAll ids cfg = Some d ->
  exists l, d = flatten l /\
    forall k s, nth_error l k = Some s ->
      Z.of_nat (List.length (sys_planets s)) <= PlanetsPerStar cfg /\
      Z.of_nat (List.length (sys_exoplanets s)) <= ExoPerStar cfg /\
      (forall j p, nth_error (sys_planets s) j = Some p ->
         Planet.StarID p = Star.ID (sys_star s) /\
         Planet.Name p
         = (Star.Name (sys_star s) ++ "-Planet-" ++ itoa (Z.of_nat j + 1))%string) /\
      (forall j e, nth_error (sys_exoplanets s) j = Some e ->
         Exoplanet.StarID e = Star.ID (sys_star s) /\
         Exoplanet.Name e
         = (Star.Name (sys_star s) ++ "-Exo-" ++ itoa (Z.of_nat j + 1))%string).
Proof.
  intros HP HE Hd. destruct (GenerateAll_systems ids cfg d Hd) as (l & n & -> & Hlen & Hok & _).
  exists l. split; [reflexivity|]. intros k s Hk.
  pose proof (Hok k s Hk) as Hs. destruct Hs as (_ & HlP & HlE & HgP & HgE).
  pose proof (draw_cap_le _ HP). pose proof (draw_cap_le _ HE).
  split; [lia|]. split; [lia|]. split.
  - intros j p Hj. destruct (HgP j p Hj) as [Hpost Hname].
    unfold planet_named in Hname.
    rewrite (system_planet_index cfg k s j p (Hok k s Hk) Hj) in Hname.
    split; [apply Hpost | exact Hname].
  - intros j e Hj. destruct (HgE j e Hj) as [Hpost Hname].
    unfold exoplanet_named in Hname.
    rewrite (system_exoplanet_index cfg k s j e (Hok k s Hk) Hj) in Hname.
    split; [apply Hpost | exact Hname].
Qed.

Lemma systems_ids_NoDup (ids : nat -> string) l n :
  (forall a b, ids a = ids b -> a = b) ->
  List.concat (map system_ids l) = map ids (seq 0 n) ->
  NoDup (all_ids (flatten l)).
Proof.
  intros Hinj Hm. eapply Permutation_NoDup.
  - symmetry. apply all_ids_flatten.
  - rewrite Hm. apply NoDup_map_NoDup_ForallPairs; [|apply seq_NoDup].
    intros a b _ _. apply Hinj.
Qed.

(** The identifiers of a result ([ID] of its stars, planets and exoplanets)
    are the identifiers [uuid.New] handed out during the call, each used
    once: as many as there are entities, and pairwise distinct when
    [uuid.New] does not repeat itself. *)
Theorem GenerateAll_identifiers (ids : nat -> string) (cfg : Config) (d : GeneratedData) :
  GenerateAll ids cfg = Some d ->
  Permutation (all_ids d) (map ids (seq 0 (List.length (all_ids d)))) /\
  ((forall a b, ids a = ids b -> a = b) -> NoDup (all_ids d)).
Proof.
  intros Hd. destruct (GenerateAll_systems ids cfg d Hd) as (l & n & -> & _ & _ & Hm).
  pose proof (all_ids_flatten l) as HP. rewrite Hm in HP.
  assert (Hn : List.length (all_ids (flatten l)) = n).
  { rewrite (Permutation_length HP), length_map, length_seq. reflexivity. }
  rewrite Hn. split; [exact HP|].
  intros Hinj. exact (systems_ids_NoDup ids l n Hinj Hm).
Qed.

(** When [uuid.New] does not repeat itself, the planets that refer to a star
    are at most [PlanetsPerStar], and the exoplanets that refer to it at most
    [ExoPerStar]. *)
Theorem GenerateAll_children (ids : nat -> string) (cfg : Config) (d : GeneratedData) :
  (forall a b, ids a = ids b -> a = b) ->
  0 <= PlanetsPerStar cfg -> 0 <= ExoPerStar cfg ->
  GenerateAll ids cfg = Some d ->
  Forall (fun s =>
    Z.of_nat (List.length
      (filter (fun p => String.eqb (Planet.StarID p) (Star.ID s)) (Planets d)))
      <= PlanetsPerStar cfg /\
    Z.of_nat (List.length
      (filter (fun e => String.eqb (Exoplanet.StarID e) (Star.ID s)) (Exoplanets d)))
      <= ExoPerStar cfg) (Stars d).
Proof.
  intros Hinj HP HE Hd. apply Forall_forall. intros s Hs.
  destruct (GenerateAll_systems ids cfg d Hd) as (l & n & -> & _ & Hok & Hm).
  pose proof (systems_ids_NoDup ids l n Hinj Hm) as Hnd.
  unfold all_ids in Hnd. apply NoDup_app_remove_r in Hnd.
  cbn [flatten Stars Planets Exoplanets] in *. rewrite map_map in Hnd.
  apply in_map_iff in Hs. destruct Hs as (sy & <- & Hsy).
  destruct (In_nth_error l sy Hsy) as (k & Hk).
  destruct (Hok k sy Hk) as (_ & HlP & HlE & _).
  pose proof (draw_cap_le _ HP). pose proof (draw_cap_le _ HE).
  rewrite (filter_group Planet.StarID sys_planets l Hnd), (filter_group Exoplanet.StarID sys_exoplanets l Hnd);
    try exact Hsy.
  - lia.
  - intros y e Hy He. destruct (In_nth_error l y Hy) as (ky & Hky).
    destruct (Hok ky y Hky) as (_ & _ & _ & _ & Hg).
    destruct (In_nth_error _ e He) as (j & Hj). apply (Hg j e Hj).
  - intros y p Hy Hp. destruct (In_nth_error l y Hy) as (ky & Hky).
    destruct (Hok ky y Hky) as (_ & _ & _ & Hg & _).
    destruct (In_nth_error _ p Hp) as (j & Hj). apply (Hg j p Hj).
Qed.


(** ** The ranges of the generated values, both ends *)

(** What holds of a star of spectral class [st]. *)
Definition star_in_class (st : SpectralClass) (s : Star.t) : Prop :=
  (exists digit, 0 <= digit <= 9 /\
     Star.SpectralType s = (class st ++ itoa digit ++ "V")%string) /\
  String.length (Star.SpectralType s) = 3%nat /\
  within (fst (massRange st)) (snd (massRange st)) (Star.Mass s) /\
  within (fst (radiusRange st)) (snd (radiusRange st)) (Star.Radius s) /\
  fst (tempRange st) <= Star.Temperature s <= snd (tempRange st).

Lemma star_post_in_class idx s :
  star_post idx s -> exists st, In st spectralTypes /\ star_in_class st s.
Proof.
  intros (st & d & Hst & Hd & Hsp & _ & Hm & Hr & Ht).
  exists st. split; [exact Hst|]. unfold star_in_class.
  split; [exists d; split; [lia | exact Hsp]|].
  split.
  { rewrite Hsp. assert (Hd' : d = 0 \/ d = 1 \/ d = 2 \/ d = 3 \/ d = 4 \/ d = 5 \/ d = 6
                              \/ d = 7 \/ d = 8 \/ d = 9) by lia.
    cbn [spectralTypes In] in Hst.
    repeat (destruct Hst as [<- | Hst];
            [repeat (destruct Hd' as [-> | Hd']; [reflexivity|]); subst d; reflexivity|]).
    contradiction. }
  cbn [spectralTypes In] in Hst.
  repeat (destruct Hst as [<- | Hst];
    [cbn [massRange radiusRange tempRange fst snd] in Hm, Hr, Ht |- *;
     split; [randFloat_within Hm|]; split; [randFloat_within Hr|];
     apply randInt_post_range in Ht; lia
    |]).
  contradiction.
Qed.

(** Every star of a result belongs to one of the seven spectral classes: its
    [SpectralType] is the letter of the class, a digit and [V], and its [Mass],
    [Radius] and [Temperature] lie in the ranges of that class, ends
    included. *)
Theorem GenerateAll_star_class (ids : nat -> string) (cfg : Config) (d : GeneratedData) :
  GenerateAll ids cfg = Some d ->
  Forall (fun s => exists st, In st spectralTypes /\ star_in_class st s) (Stars d).
Proof.
  intros Hd. destruct (GenerateAll_inv ids cfg d Hd) as [_ (Hs & _)].
  apply Forall_forall. intros s Hin. destruct (Hs s Hin) as (idx & Hpost).
  exact (star_post_in_class idx s Hpost).
Qed.

(** The ranges of a planet. *)
Definition planet_in_ranges (p : Planet.t) : Prop :=
  within 0.05 50.0 (Planet.SemiMajorAxis p) /\
  within 0.0 0.3 (Planet.Eccentricity p) /\
  ((within 0.1 5.0 (Planet.Mass p) /\ within 0.3 2.0 (Planet.Radius p)) \/
   (within 5.0 20.0 (Planet.Mass p) /\ within 2.0 4.0 (Planet.Radius p)) \/
   (within 20.0 1000.0 (Planet.Mass p) /\ within 4.0 15.0 (Planet.Radius p))) /\
  In (Planet.Atmosphere p) atmosphereTypes.

(** The ranges of an exoplanet. *)
Definition exoplanet_in_ranges (e : Exoplanet.t) : Prop :=
  within 0.01 5.0 (Exoplanet.SemiMajorAxis e) /\
  within 0.0 0.5 (Exoplanet.Eccentricity e) /\
  within 0.5 500.0 (Exoplanet.Mass e) /\
  within 0.5 12.0 (Exoplanet.Radius e) /\
  within 10.0 10000.0 (Exoplanet.HostDistance e) /\
  In (Exoplanet.DetectionMethod e) detectionMethods.

Lemma planet_post_in_ranges star p : planet_post star p -> planet_in_ranges p.
Proof.
  intros (_ & Haxis & _ & _ & (r & Hin & Hmass & Hrad) & Hecc & Hatm & _).
  unfold planet_in_ranges.
  split; [randFloat_within Haxis|]. split; [randFloat_within Hecc|].
  split; [|exact Hatm].
  cbn [planet_regimes In] in Hin.
  destruct Hin as [<- | [<- | [<- | []]]]; cbn [fst snd] in Hmass, Hrad.
  - left. split; [randFloat_within Hmass | randFloat_within Hrad].
  - right; left. split; [randFloat_within Hmass | randFloat_within Hrad].
  - right; right. split; [randFloat_within Hmass | randFloat_within Hrad].
Qed.

Lemma exoplanet_post_in_ranges star e : exoplanet_post star e -> exoplanet_in_ranges e.
Proof.
  intros (_ & Haxis & _ & _ & Hmass & Hrad & Hdist & Hecc & Hdet & _).
  unfold exoplanet_in_ranges.
  split; [randFloat_within Haxis|]. split; [randFloat_within Hecc|].
  split; [randFloat_within Hmass|]. split; [randFloat_within Hrad|].
  split; [randFloat_within Hdist | exact Hdet].
Qed.

(** Every planet of a result has its semi-major axis between 0.05 and 50 AU,
    its eccentricity between 0 and 0.3, its mass and its radius together in
    the ranges of one of the three regimes, and one of the eight atmospheres
    of the table; all ends included. *)
Theorem GenerateAll_planet_ranges (ids : nat -> string) (cfg : Config) (d : GeneratedData) :
  GenerateAll ids cfg = Some d -> Forall planet_in_ranges (Planets d).
Proof.
  intros Hd. destruct (GenerateAll_inv ids cfg d Hd) as [_ (_ & Hp & _)].
  apply Forall_forall. intros p Hin. destruct (Hp p Hin) as (s & _ & Hpost).
  exact (planet_post_in_ranges s p Hpost).
Qed.

(** Every exoplanet of a result has its semi-major axis between 0.01 and 5
    AU, its eccentricity between 0 and 0.5, its mass between 0.5 and 500, its
    radius between 0.5 and 12, its host distance between 10 and 10000 light
    years, and one of the six detection methods of the table; all ends
    included. *)
Theorem GenerateAll_exoplanet_ranges (ids : nat -> string) (cfg : Config) (d : GeneratedData) :
  GenerateAll ids cfg = Some d -> Forall exoplanet_in_ranges (Exoplanets d).
Proof.
  intros Hd. destruct (GenerateAll_inv ids cfg d Hd) as [_ (_ & _ & He)].
  apply Forall_forall. intros e Hin. destruct (He e Hin) as (s & _ & Hpost).
  exact (exoplanet_post_in_ranges s e Hpost).
Qed.


(** ** When the routines panic *)

Lemma star_step_exo_cap_panics cfg i d w :
  wrap64 (ExoPerStar cfg + 1) <= 0 -> star_step cfg i d w = None.
Proof.
  intros H. unfold star_step, bind.
  destruct (generateStar (wrap64 (i + 1)) w) as [[star w1]|]; [|reflexivity]. cbv zeta.
  destruct (r_Intn (wrap64 (PlanetsPerStar cfg + 1)) w1) as [[np w2]|]; [|reflexivity].
  destruct (for_loop np _ _ w2) as [[d1 w3]|]; [|reflexivity].
  unfold r_Intn. apply Z.leb_le in H. rewrite H. reflexivity.
Qed.

Lemma GenerateAll_from_exo_cap_panics cfg w :
  0 < NumStars cfg -> wrap64 (ExoPerStar cfg + 1) <= 0 ->
  GenerateAll_from cfg w = None.
Proof.
  intros HN HE. unfold GenerateAll_from, bind.
  destruct (make_slice (NumStars cfg) w) as [[[] w0]|] eqn:E; [|reflexivity].
  apply make_slice_returns in E. destruct E as (_ & _ & ->).
  unfold for_loop. destruct (Z.to_nat (NumStars cfg)) as [|c] eqn:Ec; [lia|].
  cbn [for_from]. unfold bind. rewrite (star_step_exo_cap_panics cfg 0 empty_data w HE).
  reflexivity.
Qed.

(** [cap + 1], computed on 64 bits, is positive exactly for the caps from 0
    to the largest [int] but one. *)
Lemma wrap64_cap c :
  - 2 ^ 63 <= c <= maxInt64 -> (0 < wrap64 (c + 1) <-> 0 <= c < maxInt64).
Proof.
  unfold maxInt64, wrap64, wrap. change (2 ^ (64 - 1)) with 9223372036854775808.
  change (2 ^ 63 - 1) with 9223372036854775807. change (2 ^ 64) with 18446744073709551616.
  change (2 ^ 63) with 9223372036854775808.
  intros H. destruct (Z.eq_dec c 9223372036854775807) as [->|Hne].
  - cbn. lia.
  - rewrite Z.mod_small by lia. lia.
Qed.

Lemma GenerateAll_panic_cases (ids : nat -> string) (cfg : Config) :
  - 2 ^ 63 <= PlanetsPerStar cfg <= maxInt64 ->
  - 2 ^ 63 <= ExoPerStar cfg <= maxInt64 ->
  NumStars cfg < 0 \/ maxAlloc < NumStars cfg * star_size \/
  (0 < NumStars cfg /\
   (PlanetsPerStar cfg < 0 \/ PlanetsPerStar cfg = maxInt64 \/
    ExoPerStar cfg < 0 \/ ExoPerStar cfg = maxInt64)) ->
  GenerateAll ids cfg = None.
Proof.
  intros HP HE H. pose proof (wrap64_cap _ HP) as WP. pose proof (wrap64_cap _ HE) as WE.
  unfold GenerateAll.
  set (w := {| rng := NewRand (Seed cfg); uuids := ids; next_uuid := 0 |}).
  destruct H as [Hn | [Hn | [Hn Hc]]].
  - rewrite (GenerateAll_from_negative cfg w Hn). reflexivity.
  - rewrite (GenerateAll_from_too_many cfg w Hn). reflexivity.
  - destruct (Z_le_gt_dec (wrap64 (PlanetsPerStar cfg + 1)) 0) as [HbP | HgP].
    { rewrite (GenerateAll_from_cap_panics cfg w Hn HbP). reflexivity. }
    destruct (Z_le_gt_dec (wrap64 (ExoPerStar cfg + 1)) 0) as [HbE | HgE].
    { rewrite (GenerateAll_from_exo_cap_panics cfg w Hn HbE). reflexivity. }
    exfalso. assert (0 <= PlanetsPerStar cfg < maxInt64) by (apply WP; lia).
    assert (0 <= ExoPerStar cfg < maxInt64) by (apply WE; lia). lia.
Qed.

(** The panics of [GenerateAll].  It panics when the slice of stars is
    allocated if [NumStars] is negative or so large that [NumStars] stars of
    72 bytes are more than the allocator's limit; and, for a positive
    [NumStars], it panics at the first star's call of [r.Intn] if
    [PlanetsPerStar] or [ExoPerStar] is negative or is the largest [int]
    (whose successor wraps around). *)
Theorem GenerateAll_panics (ids : nat -> string) (cfg : Config) :
  - 2 ^ 63 <= PlanetsPerStar cfg <= maxInt64 ->
  - 2 ^ 63 <= ExoPerStar cfg <= maxInt64 ->
  NumStars cfg < 0 \/ maxAlloc < NumStars cfg * star_size \/
  (0 < NumStars cfg /\
   (PlanetsPerStar cfg < 0 \/ PlanetsPerStar cfg = maxInt64 \/
    ExoPerStar cfg < 0 \/ ExoPerStar cfg = maxInt64)) ->
  GenerateAll ids cfg = None.
Proof. apply GenerateAll_panic_cases. Qed.

(** [randInt min max] on int32 arguments: when [min <= max] and the span
    [max - min] is below the largest int32 it never panics and returns a
    number from [min] to [max], ends included; it panics when the span is the
    largest int32 or more ([max - min + 1] is not a positive int32), and when
    [max] is below [min] by at most 2^31. *)
Theorem randInt_bounds (min max : Z) :
  minInt32 <= min <= maxInt32 -> minInt32 <= max <= maxInt32 ->
  (min <= max -> max - min < maxInt32 ->
   total (randInt min max) /\ returns (randInt min max) (fun x => min <= x <= max)) /\
  (maxInt32 <= max - min -> forall w, randInt min max w = None) /\
  (max < min -> min - max <= 2 ^ 31 -> forall w, randInt min max w = None).
Proof.
  unfold minInt32, maxInt32. change (2 ^ 31) with 2147483648. intros Hmin Hmax.
  assert (Hw : forall z, -2147483648 <= z < 2147483648 -> wrap32 z = z) by exact wrap32_small.
  assert (Hup : forall z, 2147483648 <= z < 6442450944 -> wrap32 z = z - 4294967296).
  { intros z Hz. unfold wrap32, wrap. change (2 ^ (32 - 1)) with 2147483648.
    change (2 ^ 32) with 4294967296.
    replace (z + 2147483648) with ((z - 2147483648) + 1 * 4294967296) by lia.
    rewrite Z.mod_add by lia. rewrite Z.mod_small; lia. }
  assert (Hpanic : wrap32 (wrap32 (max - min) + 1) <= 0 -> forall w, randInt min max w = None).
  { intros Hn w. unfold randInt, bind, r_Int31n. apply Z.leb_le in Hn. rewrite Hn. reflexivity. }
  split; [|split].
  - intros Hle Hspan.
    assert (En : wrap32 (wrap32 (max - min) + 1) = max - min + 1).
    { rewrite (Hw (max - min)) by lia. apply Hw. lia. }
    split.
    + apply total_randInt. lia.
    + eapply returns_weaken; [apply returns_randInt|].
      intros x (v & Hv & ->). rewrite En in Hv. rewrite Hw by lia. lia.
  - intros Hspan. apply Hpanic.
    destruct (Z.eq_dec (max - min) 2147483647) as [E|Hne].
    + rewrite E. vm_compute. discriminate.
    + rewrite (Hup (max - min)) by lia. rewrite Hw by lia. lia.
  - intros Hlt Hspan. apply Hpanic. rewrite (Hw (max - min)) by lia. rewrite Hw by lia. lia.
Qed.

End GeneratorStructure.

(** * Properties of package config *)

(** ** Keyspace names *)

(** The letters, digits and the underscore of ASCII. *)
Definition keyspace_char (c : ascii) : bool := is_keyspace_rune (byte c).

Definition digit_char (c : ascii) : bool := is_digit_rune (byte c).

(** A byte that is not ASCII starts a code point that is not ASCII. *)
Lemma decode_rune_cases b t :
  (b < 0x80 /\ decode_rune (b :: t) = (b, 1%nat)) \/
  (0x80 <= b /\ 0x80 <= fst (decode_rune (b :: t))).
Proof.
  unfold decode_rune, between, RuneError.
  destruct (b <? 128) eqn:E0; [left; split; [apply Z.ltb_lt; exact E0 | reflexivity]|].
  right. apply Z.ltb_ge in E0. split; [exact E0|].
  repeat match goal with
  | |- context [if ?c then _ else _] =>
      let E := fresh "E" in destruct c eqn:E; cbn [fst]
  | |- context [match ?l with [] => _ | _ :: _ => _ end] => destruct l; cbn [fst]
  end; try lia;
  repeat match goal with
  | H : (_ && _) = true |- _ => apply andb_true_iff in H; destruct H
  | H : (_ <=? _) = true |- _ => apply Z.leb_le in H
  | H : (_ =? _) = true |- _ => apply Z.eqb_eq in H
  | H : (_ =? _) = false |- _ => apply Z.eqb_neq in H
  end; lia.
Qed.

Lemma keyspace_rune_ascii r : is_keyspace_rune r = true -> r < 0x80.
Proof.
  unfold is_keyspace_rune, between. intros H.
  repeat match goal with
  | H : (_ || _) = true |- _ => apply orb_true_iff in H; destruct H
  | H : (_ && _) = true |- _ => apply andb_true_iff in H; destruct H
  | H : (_ <=? _) = true |- _ => apply Z.leb_le in H
  | H : (_ =? _) = true |- _ => apply Z.eqb_eq in H
  end; lia.
Qed.

(** What the loop accepts, on the bytes. *)
Fixpoint keyspace_bytes (i : Z) (bs : list Z) : bool :=
  match bs with
  | [] => true
  | b :: bs' =>
      negb ((i =? 0) && is_digit_rune b) && is_keyspace_rune b
      && keyspace_bytes (i + 1) bs'
  end.

Lemma keyspace_loop_bytes bs : forall fuel i,
  (List.length bs <= fuel)%nat ->
  keyspace_loop (range_from fuel i bs) = keyspace_bytes i bs.
Proof.
  induction bs as [|b t IH]; intros fuel i Hf.
  - destruct fuel; reflexivity.
  - destruct fuel as [|fuel]; [cbn in Hf; lia|]. cbn [List.length] in Hf.
    cbn [range_from keyspace_bytes].
    destruct (decode_rune_cases b t) as [[Hb E] | [Hb Hr]].
    + rewrite E. cbn [keyspace_loop skipn]. change (Z.of_nat 1) with 1.
      rewrite (IH fuel (i + 1)) by lia.
      destruct ((i =? 0) && is_digit_rune b); [reflexivity|].
      destruct (is_keyspace_rune b); reflexivity.
    + destruct (decode_rune (b :: t)) as [r n]. cbn [fst] in Hr. cbn [keyspace_loop].
      assert (Er : is_keyspace_rune r = false).
      { destruct (is_keyspace_rune r) eqn:E; [|reflexivity].
        apply keyspace_rune_ascii in E. lia. }
      assert (Eb : is_keyspace_rune b = false).
      { destruct (is_keyspace_rune b) eqn:E; [|reflexivity].
        apply keyspace_rune_ascii in E. lia. }
      assert (Ed : is_digit_rune r = false).
      { unfold is_digit_rune, between. destruct (48 <=? r) eqn:E1; [|reflexivity].
        destruct (r <=? 57) eqn:E2; [|reflexivity]. apply Z.leb_le in E2. lia. }
      rewrite Er, Eb, Ed, andb_false_r. cbn. rewrite andb_false_r. reflexivity.
Qed.

Lemma keyspace_bytes_later bs : forall i, 0 < i ->
  keyspace_bytes i bs = forallb is_keyspace_rune bs.
Proof.
  induction bs as [|b t IH]; intros i Hi; cbn [keyspace_bytes forallb]; [reflexivity|].
  rewrite IH by lia. destruct (i =? 0) eqn:E; [apply Z.eqb_eq in E; lia|]. reflexivity.
Qed.

Lemma forallb_bytes (l : list ascii) :
  forallb is_keyspace_rune (map byte l) = forallb keyspace_char l.
Proof. induction l as [|c l IH]; cbn; [reflexivity|]. rewrite IH. reflexivity. Qed.

Lemma length_bytes s : List.length (bytes s) = String.length s.
Proof. unfold bytes. rewrite length_map. induction s; cbn; congruence. Qed.

(** [isValidKeyspaceName] accepts exactly the names of 1 to 48 bytes, all of
    them ASCII letters, digits or underscores, the first not a digit: a byte
    outside ASCII, so any character outside ASCII, makes a name invalid. *)
Theorem isValidKeyspaceName_spec (name : string) :
  isValidKeyspaceName name = true <->
  (1 <= String.length name <= 48)%nat /\
  forallb keyspace_char (list_ascii_of_string name) = true /\
  match name with
  | EmptyString => True
  | String c _ => digit_char c = false
  end.
Proof.
  unfold isValidKeyspaceName, range_string. cbv zeta.
  rewrite keyspace_loop_bytes by (rewrite length_bytes; lia).
  destruct name as [|c rest].
  - cbn. split; [discriminate | intros [[H _] _]; lia].
  - unfold bytes. cbn [String.length list_ascii_of_string map keyspace_bytes forallb].
    rewrite keyspace_bytes_later by lia. rewrite forallb_bytes.
    destruct (Z.of_nat (S (String.length rest)) =? 0) eqn:E0; [apply Z.eqb_eq in E0; lia|].
    cbn [orb]. change (is_keyspace_rune (byte c)) with (keyspace_char c).
    change (is_digit_rune (byte c)) with (digit_char c). cbn [Z.eqb andb].
    destruct (Z.of_nat (S (String.length rest)) >? 48) eqn:E48.
    + split; [discriminate|]. intros [[_ H] _]. apply Z.gtb_lt in E48. lia.
    + assert (S (String.length rest) <= 48)%nat.
      { destruct (Z.gtb_spec (Z.of_nat (S (String.length rest))) 48); [discriminate | lia]. }
      destruct (digit_char c), (keyspace_char c),
        (forallb keyspace_char (list_ascii_of_string rest)); cbn;
        (split;
         [ intros Hx; first [discriminate Hx | split; [lia | split; reflexivity]]
         | intros (_ & H1 & H2);
           first [discriminate H1 | discriminate H2 | reflexivity] ]).
Qed.

(** ** The defaults *)

(** [setDefaults] leaves none of the fields it covers at its zero value, and
    changes nothing when applied again. *)
Theorem setDefaults_fills (cfg : CassandraConfig) :
  let c := setDefaults cfg in
  Hosts c <> [] /\ Keyspace c <> ""%string /\ Consistency c <> ""%string /\
  ReplicationClass c <> ""%string /\
  (ReplicationClass c = "SimpleStrategy"%string -> ReplicationFactor c <> 0) /\
  Port c <> 0 /\ Timeout c <> 0 /\ ConnectTimeout c <> 0 /\ NumConns c <> 0 /\
  setDefaults c = c.
Proof.
  destruct cfg as [hosts ks cons cls rf dcs user pw port tmo ctmo conns lookup].
  unfold setDefaults.
  cbn [Hosts Keyspace Consistency ReplicationClass ReplicationFactor DataCenters Username
       Password Port Timeout ConnectTimeout NumConns DisableInitialHostLookup].
  cbv zeta.
  cbn [Hosts Keyspace Consistency ReplicationClass ReplicationFactor DataCenters Username
       Password Port Timeout ConnectTimeout NumConns DisableInitialHostLookup].
  assert (Hh : forall l : list string,
            (if Z.of_nat (List.length l) =? 0 then ["127.0.0.1"%string] else l) <> [] /\
            (Z.of_nat (List.length
              (if Z.of_nat (List.length l) =? 0 then ["127.0.0.1"%string] else l)) =? 0)
            = false).
  { intros [|h l]; cbn; split; try discriminate; reflexivity. }
  assert (Hs : forall (s dflt : string), dflt <> ""%string ->
            (if String.eqb s "" then dflt else s) <> ""%string /\
            String.eqb (if String.eqb s "" then dflt else s) "" = false).
  { intros s dflt Hd. destruct (String.eqb_spec s "") as [->|Hn].
    - split; [exact Hd | apply String.eqb_neq; exact Hd].
    - split; [exact Hn | apply String.eqb_neq; exact Hn]. }
  assert (Hz : forall z dflt : Z, dflt <> 0 ->
            (if z =? 0 then dflt else z) <> 0 /\
            ((if z =? 0 then dflt else z) =? 0) = false).
  { intros z dflt Hd. destruct (Z.eqb_spec z 0) as [->|Hn].
    - split; [exact Hd | apply Z.eqb_neq; exact Hd].
    - split; [exact Hn | apply Z.eqb_neq; exact Hn]. }
  destruct (Hh hosts) as [Hh1 Hh2].
  destruct (Hs ks "stellargen"%string ltac:(discriminate)) as [Hk1 Hk2].
  destruct (Hs cons "QUORUM"%string ltac:(discriminate)) as [Hc1 Hc2].
  destruct (Hs cls "SimpleStrategy"%string ltac:(discriminate)) as [Hr1 Hr2].
  destruct (Hz port 9042 ltac:(discriminate)) as [Hp1 Hp2].
  destruct (Hz tmo 30 ltac:(discriminate)) as [Ht1 Ht2].
  destruct (Hz ctmo 10 ltac:(discriminate)) as [Hx1 Hx2].
  destruct (Hz conns 2 ltac:(discriminate)) as [Hn1 Hn2].
  set (cls' := if String.eqb cls "" then "SimpleStrategy"%string else cls) in *.
  assert (Hrf : (cls' = "SimpleStrategy"%string ->
                 (if (rf =? 0) && String.eqb cls' "SimpleStrategy" then 1 else rf) <> 0) /\
                ((if (rf =? 0) && String.eqb cls' "SimpleStrategy" then 1 else rf) =? 0)
                && String.eqb cls' "SimpleStrategy" = false).
  { destruct (Z.eqb_spec rf 0) as [->|Hn]; destruct (String.eqb_spec cls' "SimpleStrategy");
      cbn; split; try discriminate; try reflexivity; try congruence; try (intros _; exact Hn).
    - apply andb_false_iff. left. apply Z.eqb_neq. exact Hn.
    - apply andb_false_iff. left. apply Z.eqb_neq. exact Hn. }
  destruct Hrf as [Hrf1 Hrf2].
  repeat (split; [assumption|]).
  rewrite Hh2, Hk2, Hc2, Hr2, Hrf2, Hp2, Ht2, Hx2, Hn2. reflexivity.
Qed.

(** ** The validation *)

Section CassandraProofs.
Context {GS : GoStrings}.

(** The configurations [validateCassandraConfig] is written to accept. *)
Definition acceptable (cfg : CassandraConfig) : Prop :=
  Hosts cfg <> [] /\
  Forall (fun host => TrimSpace host <> ""%string) (Hosts cfg) /\
  isValidKeyspaceName (Keyspace cfg) = true /\
  In (ToUpper (Consistency cfg)) consistency_levels /\
  ((ReplicationClass cfg = "SimpleStrategy"%string /\ 1 <= ReplicationFactor cfg) \/
   (ReplicationClass cfg = "NetworkTopologyStrategy"%string /\ DataCenters cfg <> [] /\
    Forall (fun dc => 1 <= snd dc) (DataCenters cfg))) /\
  1 <= Port cfg <= 65535 /\
  1 <= Timeout cfg /\ 1 <= ConnectTimeout cfg /\ 1 <= NumConns cfg.

Lemma blank_host_None hosts : forall i,
  blank_host i hosts = None <-> Forall (fun host => TrimSpace host <> ""%string) hosts.
Proof.
  induction hosts as [|h t IH]; intros i; cbn [blank_host].
  - split; [constructor | reflexivity].
  - destruct (String.eqb_spec (TrimSpace h) "") as [E|E].
    + split; [discriminate|]. intros H. inversion H; subst. contradiction.
    + rewrite IH. split; [intros H; constructor; assumption | intros H; inversion H; assumption].
Qed.

Lemma bad_datacenter_None dcs :
  bad_datacenter dcs = None <-> Forall (fun dc => 1 <= snd dc) dcs.
Proof.
  induction dcs as [|[dc rf] t IH]; cbn [bad_datacenter].
  - split; [constructor | reflexivity].
  - destruct (Z.ltb_spec rf 1) as [E|E].
    + split; [discriminate|]. intros H. inversion H; subst. cbn in *. lia.
    + rewrite IH. split; [intros H; constructor; [exact E | exact H]
                         | intros H; inversion H; assumption].
Qed.

Lemma lookup_true_In keys s : lookup_true keys s = true <-> In s keys.
Proof.
  unfold lookup_true. rewrite existsb_exists. split.
  - intros (k & Hk & E). apply String.eqb_eq in E. subst. exact Hk.
  - intros H. exists s. split; [exact H | apply String.eqb_refl].
Qed.

Lemma length_zero {A} (l : list A) : (Z.of_nat (List.length l) =? 0) = true <-> l = [].
Proof.
  destruct l; cbn; split; try reflexivity; discriminate.
Qed.

(** [validateCassandraConfig] returns no error exactly for the acceptable
    configurations, and then leaves the configuration as it was but for the
    consistency level, which it puts in upper case. *)
Theorem validateCassandraConfig_accepts (cfg : CassandraConfig) :
  (error (validateCassandraConfig cfg) = None <-> acceptable cfg) /\
  (error (validateCassandraConfig cfg) = None ->
   validated (validateCassandraConfig cfg)
   = set_Consistency (ToUpper (Consistency cfg)) cfg).
Proof.
  unfold validateCassandraConfig, acceptable.
  destruct (Z.of_nat (List.length (Hosts cfg)) =? 0) eqn:E1.
  { apply length_zero in E1. cbn [error failed].
    split; [split; [discriminate | intros (H & _); contradiction] | discriminate]. }
  assert (H1 : Hosts cfg <> []).
  { intros H. apply length_zero in H. congruence. }
  destruct (blank_host 0 (Hosts cfg)) as [i|] eqn:E2.
  { cbn [error failed]. split; [split; [discriminate|] | discriminate].
    intros (_ & H & _). apply (blank_host_None _ 0) in H. congruence. }
  apply blank_host_None in E2.
  destruct (String.eqb_spec (Keyspace cfg) "") as [E3|E3].
  { cbn [error failed]. split; [split; [discriminate|] | discriminate].
    intros (_ & _ & H & _). rewrite E3 in H. discriminate H. }
  destruct (isValidKeyspaceName (Keyspace cfg)) eqn:E4; cbn [negb].
  2:{ cbn [error failed]. split; [split; [discriminate|] | discriminate].
      intros (_ & _ & H & _). discriminate H. }
  destruct (lookup_true consistency_levels (ToUpper (Consistency cfg))) eqn:E5; cbn [negb].
  2:{ cbn [error failed]. split; [split; [discriminate|] | discriminate].
      intros (_ & _ & _ & H & _). apply lookup_true_In in H. congruence. }
  apply lookup_true_In in E5. cbv zeta.
  set (cfg' := set_Consistency (ToUpper (Consistency cfg)) cfg).
  change (ReplicationClass cfg') with (ReplicationClass cfg).
  change (ReplicationFactor cfg') with (ReplicationFactor cfg).
  change (DataCenters cfg') with (DataCenters cfg).
  change (Port cfg') with (Port cfg). change (Timeout cfg') with (Timeout cfg).
  change (ConnectTimeout cfg') with (ConnectTimeout cfg).
  change (NumConns cfg') with (NumConns cfg).
  destruct (lookup_true replication_strategies (ReplicationClass cfg)) eqn:E6; cbn [negb].
  2:{ cbn [error failed]. split; [split; [discriminate|] | discriminate].
      intros (_ & _ & _ & _ & H & _).
      assert (In (ReplicationClass cfg) replication_strategies).
      { destruct H as [[-> _] | [-> _]]; cbn; auto. }
      apply lookup_true_In in H0. congruence. }
  apply lookup_true_In in E6.
  destruct (String.eqb_spec (ReplicationClass cfg) "SimpleStrategy") as [ES|ES];
    destruct (String.eqb_spec (ReplicationClass cfg) "NetworkTopologyStrategy") as [EN|EN];
    try (rewrite ES in EN; discriminate EN);
    try (exfalso; cbn in E6; destruct E6 as [E6 | [E6 | []]]; congruence);
    cbn [andb].
  - (* SimpleStrategy *)
    destruct (Z.ltb_spec (ReplicationFactor cfg) 1) as [E7|E7].
    { cbn [error failed]. split; [split; [discriminate|] | discriminate].
      intros (_ & _ & _ & _ & [[_ H] | [H _]] & _); [lia | congruence]. }
    destruct (Z.ltb_spec (Port cfg) 1) as [E8|E8]; cbn [orb].
    { cbn [error failed]. split; [split; [discriminate|] | discriminate].
      intros (_ & _ & _ & _ & _ & H & _). lia. }
    destruct (Port cfg >? 65535) eqn:E9.
    { cbn [error failed]. split; [split; [discriminate|] | discriminate].
      intros (_ & _ & _ & _ & _ & H & _). apply Z.gtb_lt in E9. lia. }
    destruct (Z.ltb_spec (Timeout cfg) 1) as [E10|E10].
    { cbn [error failed]. split; [split; [discriminate|] | discriminate].
      intros (_ & _ & _ & _ & _ & _ & H & _). lia. }
    destruct (Z.ltb_spec (ConnectTimeout cfg) 1) as [E11|E11].
    { cbn [error failed]. split; [split; [discriminate|] | discriminate].
      intros (_ & _ & _ & _ & _ & _ & _ & H & _). lia. }
    destruct (Z.ltb_spec (NumConns cfg) 1) as [E12|E12].
    { cbn [error failed]. split; [split; [discriminate|] | discriminate].
      intros (_ & _ & _ & _ & _ & _ & _ & _ & H). lia. }
    cbn [error validated]. split; [|reflexivity]. split; [intros _|reflexivity].
    assert (Port cfg <= 65535).
    { destruct (Z.gtb_spec (Port cfg) 65535); [discriminate | lia]. }
    repeat (split; [first [assumption | lia]|]); try lia.
    split; [left; split; assumption|]. repeat split; lia.
  - (* NetworkTopologyStrategy *)
    destruct (Z.of_nat (List.length (DataCenters cfg)) =? 0) eqn:E7.
    { apply length_zero in E7. cbn [error failed].
      split; [split; [discriminate|] | discriminate].
      intros (_ & _ & _ & _ & [[H _] | (_ & H & _)] & _); congruence. }
    assert (H7 : DataCenters cfg <> []).
    { intros H. apply length_zero in H. congruence. }
    destruct (bad_datacenter (DataCenters cfg)) as [dc|] eqn:E7'.
    { cbn [error failed]. split; [split; [discriminate|] | discriminate].
      intros (_ & _ & _ & _ & [[H _] | (_ & _ & H)] & _); [congruence|].
      apply bad_datacenter_None in H. congruence. }
    apply bad_datacenter_None in E7'.
    destruct (Z.ltb_spec (Port cfg) 1) as [E8|E8]; cbn [orb].
    { cbn [error failed]. split; [split; [discriminate|] | discriminate].
      intros (_ & _ & _ & _ & _ & H & _). lia. }
    destruct (Port cfg >? 65535) eqn:E9.
    { cbn [error failed]. split; [split; [discriminate|] | discriminate].
      intros (_ & _ & _ & _ & _ & H & _). apply Z.gtb_lt in E9. lia. }
    destruct (Z.ltb_spec (Timeout cfg) 1) as [E10|E10].
    { cbn [error failed]. split; [split; [discriminate|] | discriminate].
      intros (_ & _ & _ & _ & _ & _ & H & _). lia. }
    destruct (Z.ltb_spec (ConnectTimeout cfg) 1) as [E11|E11].
    { cbn [error failed]. split; [split; [discriminate|] | discriminate].
      intros (_ & _ & _ & _ & _ & _ & _ & H & _). lia. }
    destruct (Z.ltb_spec (NumConns cfg) 1) as [E12|E12].
    { cbn [error failed]. split; [split; [discriminate|] | discriminate].
      intros (_ & _ & _ & _ & _ & _ & _ & _ & H). lia. }
    cbn [error validated]. split; [|reflexivity]. split; [intros _|reflexivity].
    assert (Port cfg <= 65535).
    { destruct (Z.gtb_spec (Port cfg) 65535); [discriminate | lia]. }
    repeat (split; [first [assumption | lia]|]); try lia.
    split; [right; repeat split; assumption|]. repeat split; lia.
Qed.


(** The validation looks at the consistency level only through its upper
    case. *)
Lemma validate_set_Consistency cfg U :
  error (validateCassandraConfig cfg) = None ->
  ToUpper U = ToUpper (Consistency cfg) ->
  validateCassandraConfig (set_Consistency U cfg) = validateCassandraConfig cfg.
Proof.
  intros He HU. unfold validateCassandraConfig in *.
  cbn [set_Consistency Hosts Keyspace Consistency ReplicationClass ReplicationFactor
       DataCenters Port Timeout ConnectTimeout NumConns] in *.
  rewrite HU.
  destruct (Z.of_nat (List.length (Hosts cfg)) =? 0); [discriminate He|].
  destruct (blank_host 0 (Hosts cfg)); [discriminate He|].
  destruct (String.eqb (Keyspace cfg) ""); [discriminate He|].
  destruct (negb (isValidKeyspaceName (Keyspace cfg))); [discriminate He|].
  destruct (negb (lookup_true consistency_levels (ToUpper (Consistency cfg))));
    [discriminate He|].
  reflexivity.
Qed.

Lemma consistency_level_upper c :
  In c consistency_levels -> ToUpper c = c /\ c <> ""%string.
Proof.
  intros H. cbn in H.
  repeat (destruct H as [<- | H];
          [split; [rewrite ToUpper_ascii by reflexivity; reflexivity | discriminate]|]).
  contradiction.
Qed.

Lemma acceptable_set_Consistency cfg :
  acceptable cfg -> acceptable (set_Consistency (ToUpper (Consistency cfg)) cfg).
Proof.
  intros (H1 & H2 & H3 & H4 & H5). unfold acceptable.
  cbn [set_Consistency Hosts Keyspace Consistency ReplicationClass ReplicationFactor
       DataCenters Port Timeout ConnectTimeout NumConns].
  rewrite (proj1 (consistency_level_upper _ H4)). repeat (split; [assumption|]). exact H5.
Qed.

Lemma acceptable_setDefaults cfg :
  acceptable cfg -> Consistency cfg <> ""%string -> setDefaults cfg = cfg.
Proof.
  intros (H1 & _ & H3 & _ & H5 & H6 & H7 & H8 & H9) Hc.
  destruct cfg as [hosts ks cons cls rf dcs user pw port tmo ctmo conns lookup].
  cbn [Hosts Keyspace Consistency ReplicationClass ReplicationFactor DataCenters Port
       Timeout ConnectTimeout NumConns] in *.
  unfold setDefaults.
  cbn [Hosts Keyspace Consistency ReplicationClass ReplicationFactor DataCenters Username
       Password Port Timeout ConnectTimeout NumConns DisableInitialHostLookup].
  cbv zeta.
  assert (Eh : (Z.of_nat (List.length hosts) =? 0) = false).
  { destruct hosts; [contradiction | reflexivity]. }
  assert (Ek : String.eqb ks "" = false).
  { apply String.eqb_neq. intros ->. discriminate H3. }
  assert (Ec : String.eqb cons "" = false) by (apply String.eqb_neq; exact Hc).
  assert (Ecl : String.eqb cls "" = false).
  { apply String.eqb_neq. destruct H5 as [[-> _] | [-> _]]; discriminate. }
  assert (Ep : (port =? 0) = false) by (apply Z.eqb_neq; lia).
  assert (Et : (tmo =? 0) = false) by (apply Z.eqb_neq; lia).
  assert (Ex : (ctmo =? 0) = false) by (apply Z.eqb_neq; lia).
  assert (En : (conns =? 0) = false) by (apply Z.eqb_neq; lia).
  rewrite Eh, Ek, Ec, Ecl, Ep, Et, Ex, En.
  assert (Er : (rf =? 0) && String.eqb cls "SimpleStrategy" = false).
  { destruct H5 as [[-> Hrf] | [-> _]].
    - apply andb_false_iff. left. apply Z.eqb_neq. lia.
    - apply andb_false_iff. right. reflexivity. }
  rewrite Er. reflexivity.
Qed.

(** A configuration that [LoadCassandraConfig] returns is acceptable, has
    one of the nine consistency levels, in upper case, lacks none of the
    defaults, and loads again as itself, with the same warnings. *)
Theorem LoadCassandraConfig_stable (file : FileContents) (cfg : CassandraConfig)
    (ws : list string) :
  LoadCassandraConfig file = (inl cfg, ws) ->
  acceptable cfg /\ In (Consistency cfg) consistency_levels /\
  setDefaults cfg = cfg /\
  LoadCassandraConfig (Unmarshalled cfg) = (inl cfg, ws).
Proof.
  destruct file as [e|e|c0]; cbn [LoadCassandraConfig]; try discriminate.
  cbv zeta. set (c1 := setDefaults c0).
  destruct (error (validateCassandraConfig c1)) as [e|] eqn:Ee; [discriminate|].
  intros H. inversion H as [[Hc Hw]]. clear H.
  destruct (validateCassandraConfig_accepts c1) as [Hacc Hval].
  specialize (Hval Ee). apply Hacc in Ee as Ha. rewrite Hval in *.
  set (U := ToUpper (Consistency c1)) in *.
  assert (HU : In U consistency_levels) by apply Ha.
  destruct (consistency_level_upper U HU) as [HUU HUn].
  pose proof (acceptable_set_Consistency c1 Ha) as Ha'. fold U in Ha'.
  assert (Hsd : setDefaults (set_Consistency U c1) = set_Consistency U c1).
  { apply acceptable_setDefaults; [exact Ha' | exact HUn]. }
  split; [exact Ha'|]. split; [exact HU|]. split; [exact Hsd|].
  rewrite Hsd.
  rewrite (validate_set_Consistency c1 U (proj2 Hacc Ha) HUU).
  rewrite (proj2 Hacc Ha). rewrite Hval. reflexivity.
Qed.

Definition no_host_error : string := "at least one host must be specified".
Definition no_keyspace_error : string := "keyspace name cannot be empty".

Lemma validate_dead_errors cfg e :
  Hosts cfg <> [] -> Keyspace cfg <> ""%string ->
  error (validateCassandraConfig cfg) = Some e ->
  e <> no_host_error /\ e <> no_keyspace_error.
Proof.
  intros Hh Hk. unfold validateCassandraConfig.
  destruct (Z.of_nat (List.length (Hosts cfg)) =? 0) eqn:E1;
    [apply length_zero in E1; contradiction|].
  destruct (blank_host 0 (Hosts cfg));
    [cbn; intros H; inversion H; split; discriminate|].
  destruct (String.eqb_spec (Keyspace cfg) ""); [contradiction|].
  repeat match goal with
  | |- error (if ?c then _ else _) = _ -> _ =>
      destruct c; [cbn; intros H; inversion H; split; discriminate|]
  | |- error (match ?c with Some _ => _ | None => _ end) = _ -> _ =>
      destruct c; [cbn; intros H; inversion H; split; discriminate|]
  | |- error (let _ := _ in _) = _ -> _ => cbv zeta
  end.
  cbn. discriminate.
Qed.

(** [LoadCassandraConfig] never reports that no host is specified or that
    the keyspace name is empty: [setDefaults] has filled both in before the
    validation looks. *)
Theorem LoadCassandraConfig_dead_errors (file : FileContents) (err : string)
    (ws : list string) :
  LoadCassandraConfig file = (inr err, ws) ->
  err <> ("invalid configuration: " ++ no_host_error)%string /\
  err <> ("invalid configuration: " ++ no_keyspace_error)%string.
Proof.
  destruct file as [e|e|c0]; cbn [LoadCassandraConfig].
  - intros H. inversion H. split; discriminate.
  - intros H. inversion H. split; discriminate.
  - cbv zeta. destruct (error (validateCassandraConfig (setDefaults c0))) as [e|] eqn:Ee;
      [|discriminate].
    intros H. inversion H. subst err. clear H.
    pose proof (setDefaults_fills c0) as Hf. cbv zeta in Hf.
    destruct Hf as (Hh & Hk & _).
    destruct (validate_dead_errors _ e Hh Hk Ee) as [N1 N2].
    split; intros E; apply (append_inj_r "invalid configuration: " e) in E; contradiction.
Qed.

(** The configuration with every field at its zero value: what
    [yaml.Unmarshal] makes of an empty document. *)
Definition zero_config : CassandraConfig :=
  {| Hosts := []; Keyspace := ""; Consistency := ""; ReplicationClass := "";
     ReplicationFactor := 0; DataCenters := []; Username := ""; Password := "";
     Port := 0; Timeout := 0; ConnectTimeout := 0; NumConns := 0;
     DisableInitialHostLookup := false |}.

(** An empty document loads, without a warning, as [DefaultConfig()], and
    [MultiDCConfig()] passes the validation unchanged. *)
Theorem DefaultConfig_loads :
  LoadCassandraConfig (Unmarshalled zero_config) = (inl DefaultConfig, []) /\
  validateCassandraConfig MultiDCConfig
  = {| validated := MultiDCConfig; warnings := []; error := None |}.
Proof.
  split.
  - unfold LoadCassandraConfig. change (setDefaults zero_config) with DefaultConfig.
    unfold validateCassandraConfig. cbn [Hosts DefaultConfig blank_host Consistency].
    rewrite (TrimSpace_ascii "127.0.0.1") by reflexivity.
    rewrite (ToUpper_ascii "QUORUM") by reflexivity. vm_compute. reflexivity.
  - unfold validateCassandraConfig. cbn [Hosts MultiDCConfig blank_host Consistency].
    rewrite (TrimSpace_ascii "10.0.1.1"), (TrimSpace_ascii "10.0.2.1"),
      (TrimSpace_ascii "10.0.3.1") by reflexivity.
    rewrite (ToUpper_ascii "LOCAL_QUORUM") by reflexivity. vm_compute. reflexivity.
Qed.

End CassandraProofs.

(** ** The flags and the generator *)

Section FlagsProofs.
Context {RS : RandSource}.

(** What [main] hands to [GenerateAll]. *)
Lemma generator_config_ParseFlags cl now :
  generator_config (ParseFlags cl now) =
  {| NumStars := Z.max 1 (flag_value 100 (num_stars cl));
     PlanetsPerStar := Z.min (flag_value 8 (planets_per_star cl)) 15;
     ExoPerStar := Z.min (flag_value 5 (exo_per_star cl)) 8;
     Seed := if flag_value 0 (seed cl) =? 0 then now else flag_value 0 (seed cl) |}.
Proof.
  unfold generator_config, ParseFlags. cbv zeta.
  cbn [AppConfig.NumStars AppConfig.PlanetsPerStar AppConfig.ExoPerStar AppConfig.Seed].
  f_equal.
  - destruct (Z.ltb_spec (flag_value 100 (num_stars cl)) 1); lia.
  - destruct (Z.gtb_spec (flag_value 8 (planets_per_star cl)) 15); lia.
  - destruct (Z.gtb_spec (flag_value 5 (exo_per_star cl)) 8); lia.
Qed.


(** With a seed other than 0 on the command line two runs of the program
    generate the same data, identifiers apart, whatever the clock; with no
    seed, or the seed 0, the seed is the clock's reading. *)
Theorem ParseFlags_seed (cl : CommandLine) (now1 now2 : Z) (ids1 ids2 : nat -> string) :
  (flag_value 0 (seed cl) <> 0 ->
   option_map anon_data (GenerateAll ids1 (generator_config (ParseFlags cl now1)))
   = option_map anon_data (GenerateAll ids2 (generator_config (ParseFlags cl now2)))) /\
  (flag_value 0 (seed cl) = 0 ->
   Seed (generator_config (ParseFlags cl now1)) = now1).
Proof.
  rewrite !generator_config_ParseFlags. split.
  - intros Hs. apply Z.eqb_neq in Hs. rewrite Hs. apply GenerateAll_same.
  - intros Hs. cbn [Seed]. rewrite Hs. reflexivity.
Qed.

End FlagsProofs.

(** * Properties of package tests *)

Lemma for_each_none {A} (l : list A) (errors : A -> nat) :
  (forall x, In x l -> errors x = 0%nat) -> for_each l errors = 0%nat.
Proof.
  unfold for_each. induction l as [|x l IH]; cbn; intros H; [reflexivity|].
  rewrite (H x) by (left; reflexivity). apply IH. intros y Hy. apply H. right. exact Hy.
Qed.

Lemma float_pos_not_le x : (0 <? x)%float = true -> (x <=? 0)%float = false.
Proof.
  rewrite ltb_spec, leb_spec. change (Prim2SF 0) with (S754_zero false).
  destruct (Prim2SF x) as [s|s| |s m e]; try destruct s; cbn; intros H;
    first [discriminate H | reflexivity].
Qed.

Lemma float_unit_checks x :
  (0 <=? x)%float = true -> (x <? 1)%float = true ->
  ((x <? 0)%float || (1 <? x)%float) = false.
Proof.
  intros H0 H1. pose proof (fnn_of_bounds x 1 H0 H1) as Hx.
  assert (Hz : fnn 0) by exact I. assert (Hone : fnn 1) by exact I.
  apply (leb_Q 0 x Hz Hx) in H0. apply (ltb_Q x 1 Hx Hone) in H1.
  apply orb_false_iff. split.
  - destruct (x <? 0)%float eqn:E; [|reflexivity]. apply (ltb_Q x 0 Hx Hz) in E. lra.
  - destruct (1 <? x)%float eqn:E; [|reflexivity]. apply (ltb_Q 1 x Hone Hx) in E. lra.
Qed.

Lemma float_eqb_refl x : fnn x -> (x =? x)%float = true.
Proof.
  intros Hx. rewrite eqb_spec. unfold SFeqb.
  rewrite (SFcompare_Q _ _ (Prim2SF_valid x) Hx (Prim2SF_valid x) Hx).
  assert (E : (F2Q x ?= F2Q x)%Q = Eq) by (apply Qeq_alt; reflexivity).
  unfold F2Q in E. rewrite E. reflexivity.
Qed.

Section TestsProofs.
Context {RS : RandSource}.

Notation "x <- m ;; k" := (bind m (fun x => k))
  (at level 61, m at next level, right associativity).

(** The identifiers of the data a call returns are among those of the
    process. *)
Definition ids_of (w : World) (d : GeneratedData) : Prop :=
  forall id, In id (all_ids d) -> exists k, id = uuids w k.

Lemma call_GenerateAll_spec cfg w :
  0 <= NumStars cfg -> NumStars cfg * star_size <= maxAlloc ->
  0 < wrap64 (PlanetsPerStar cfg + 1) -> 0 < wrap64 (ExoPerStar cfg + 1) ->
  exists d w',
    call_GenerateAll cfg w = Some (d, w') /\ uuids w' = uuids w /\
    count_inv cfg (Z.max 0 (NumStars cfg)) d /\ data_inv d /\ ids_of w d.
Proof.
  intros HN HA HP HE. unfold call_GenerateAll.
  set (w0 := {| rng := NewRand (Seed cfg); uuids := uuids w; next_uuid := next_uuid w |}).
  pose proof (total_GenerateAll_from cfg HN HA (fun _ => conj HP HE) w0) as T.
  destruct (GenerateAll_from cfg w0) as [[d w1]|] eqn:E; [|contradiction].
  destruct (returns_GenerateAll_from cfg _ _ _ E) as [Hc Hi].
  destruct (GenerateAll_from_systems cfg _ _ _ E) as (l & -> & _ & _ & Hu & _ & Hm).
  exists (flatten l), {| rng := rng w; uuids := uuids w1; next_uuid := next_uuid w1 |}.
  split; [reflexivity|]. split; [exact Hu|]. split; [exact Hc|]. split; [exact Hi|].
  intros id Hin. apply (Permutation_in _ (all_ids_flatten l)) in Hin. rewrite Hm in Hin.
  apply in_map_iff in Hin. destruct Hin as (k & <- & _). exists k. reflexivity.
Qed.

Lemma strlen_zero s : (strlen s =? 0) = false <-> s <> ""%string.
Proof.
  unfold strlen. destruct s; cbn; split; intros H; try discriminate; try reflexivity.
  exfalso. apply H. reflexivity.
Qed.

(** [TestGenerateAllBasic] passes, whatever the random stream. *)
Theorem TestGenerateAllBasic_passes (w : World) :
  exists w', TestGenerateAllBasic w = Some (0%nat, w').
Proof.
  unfold TestGenerateAllBasic. cbv zeta.
  set (cfg := {| NumStars := 10; PlanetsPerStar := 5; ExoPerStar := 3; Seed := 12345 |}).
  destruct (call_GenerateAll_spec cfg w) as (d & w' & E & _ & (HS & HP & HE) & _);
    [cbn; lia | vm_compute; discriminate | reflexivity | reflexivity |].
  exists w'. unfold bind. rewrite E. unfold ret. f_equal. f_equal.
  change (Z.max 0 (NumStars cfg)) with 10 in *.
  change (draw_cap (PlanetsPerStar cfg)) with 5 in HP.
  change (draw_cap (ExoPerStar cfg)) with 3 in HE.
  change (wrap64 (NumStars cfg * PlanetsPerStar cfg)) with 50.
  change (wrap64 (NumStars cfg * ExoPerStar cfg)) with 30.
  change (NumStars cfg) with 10. unfold len.
  assert (E1 : (Z.of_nat (List.length (Stars d)) =? 10) = true) by (apply Z.eqb_eq; exact HS).
  assert (E2 : (Z.of_nat (List.length (Planets d)) >? 50) = false).
  { destruct (Z.gtb_spec (Z.of_nat (List.length (Planets d))) 50); [lia | reflexivity]. }
  assert (E3 : (Z.of_nat (List.length (Exoplanets d)) >? 30) = false).
  { destruct (Z.gtb_spec (Z.of_nat (List.length (Exoplanets d))) 30); [lia | reflexivity]. }
  rewrite E1, E2, E3. reflexivity.
Qed.


(** [TestGenerateAllReproducibility] passes, whatever the random stream and
    the identifiers: it compares the counts, and the name and the mass of the
    first stars. *)
Theorem TestGenerateAllReproducibility_passes (w : World) :
  exists w', TestGenerateAllReproducibility w = Some (0%nat, w').
Proof.
  unfold TestGenerateAllReproducibility. cbv zeta.
  set (cfg := {| NumStars := 5; PlanetsPerStar := 3; ExoPerStar := 2; Seed := 99999 |}).
  destruct (call_GenerateAll_spec cfg w) as (d1 & w1 & E1 & _ & (HS1 & _) & (Hs1 & _) & _);
    [cbn; lia | vm_compute; discriminate | reflexivity | reflexivity |].
  destruct (call_GenerateAll_spec cfg w1) as (d2 & w2 & E2 & _ & (HS2 & _) & _ & _);
    [cbn; lia | vm_compute; discriminate | reflexivity | reflexivity |].
  assert (Hsame : same_data d1 d2).
  { unfold call_GenerateAll in E1, E2.
    pose proof (related_GenerateAll_from cfg
      {| rng := NewRand (Seed cfg); uuids := uuids w; next_uuid := next_uuid w |}
      {| rng := NewRand (Seed cfg); uuids := uuids w1; next_uuid := next_uuid w1 |}
      eq_refl) as R.
    destruct (GenerateAll_from cfg {| rng := NewRand (Seed cfg); uuids := uuids w |})
      as [[da wa]|]; [|discriminate E1].
    destruct (GenerateAll_from cfg {| rng := NewRand (Seed cfg); uuids := uuids w1 |})
      as [[db wb]|]; [|discriminate E2].
    inversion E1; inversion E2; subst. apply R. }
  unfold same_data, anon_data in Hsame. inversion Hsame as [[HS HP HE]].
  exists w2. unfold bind at 1. rewrite E1. unfold bind at 1. rewrite E2.
  change (Z.max 0 (NumStars cfg)) with 5 in *.
  destruct (Stars d1) as [|s1 l1] eqn:Ed1; [cbn in HS1; lia|].
  destruct (Stars d2) as [|s2 l2] eqn:Ed2; [cbn in HS2; lia|].
  cbn [index Z.ltb Z.compare Z.to_nat nth_error]. unfold bind, ret.
  cbn [map] in HS. inversion HS as [[Hn Hsp Hm Hr Ht Hrest]].
  assert (Hlen : forall A B (f : A -> B) l l', map f l = map f l' ->
                 List.length l = List.length l').
  { intros A B f l l' H. rewrite <- (length_map f l), H. apply length_map. }
  unfold len. rewrite (Hlen _ _ _ _ _ HP), (Hlen _ _ _ _ _ HE).
  cbn [List.length]. rewrite (Hlen _ _ _ _ _ Hrest). rewrite !Z.eqb_refl.
  rewrite Hn, String.eqb_refl, Hm.
  assert (Hf : fnn (Star.Mass s2)).
  { destruct (Hs1 s1 (or_introl eq_refl)) as (idx & Hpost).
    destruct (star_post_bounds idx s1 Hpost) as ((Hx & _) & _). rewrite <- Hm. exact Hx. }
  rewrite (float_eqb_refl _ Hf). reflexivity.
Qed.

Lemma ids_of_nonempty w d id :
  (forall k, uuids w k <> ""%string) -> ids_of w d -> In id (all_ids d) ->
  (strlen id =? 0) = false.
Proof.
  intros Hne Hids Hin. destruct (Hids id Hin) as (k & ->). apply strlen_zero. apply Hne.
Qed.

Lemma year_checks y : 1990 <= y <= 2024 -> ((y <? 1990) || (y >? 2024)) = false.
Proof.
  intros H. apply orb_false_iff. split.
  - apply Z.ltb_ge. lia.
  - destruct (Z.gtb_spec y 2024); [lia | reflexivity].
Qed.

(** [TestStarValidation] passes, whatever the random stream, when
    [uuid.New] hands out no empty identifier. *)
Theorem TestStarValidation_passes (w : World) :
  (forall k, uuids w k <> ""%string) ->
  exists w', TestStarValidation w = Some (0%nat, w').
Proof.
  intros Hne. unfold TestStarValidation. cbv zeta.
  set (cfg := {| NumStars := 100; PlanetsPerStar := 5; ExoPerStar := 3; Seed := 54321 |}).
  destruct (call_GenerateAll_spec cfg w) as (d & w' & E & _ & _ & (Hs & _) & Hids);
    [cbn; lia | vm_compute; discriminate | reflexivity | reflexivity |].
  exists w'. unfold bind. rewrite E. unfold ret. f_equal. f_equal.
  apply for_each_none. intros s Hin. destruct (Hs s Hin) as (idx & Hpost).
  destruct (star_bounds_ranges s (star_post_bounds idx s Hpost)) as (Hm & Hr & Ht).
  destruct (star_post_in_class idx s Hpost) as (st & _ & _ & Hl & _).
  unfold star_errors.
  rewrite (ids_of_nonempty w d (Star.ID s) Hne Hids)
    by (unfold all_ids; apply in_or_app; left; apply in_map; exact Hin).
  rewrite (float_pos_not_le _ Hm), (float_pos_not_le _ Hr).
  unfold strlen. rewrite Hl.
  destruct (Z.leb_spec (Star.Temperature s) 0); [lia | reflexivity].
Qed.

(** [TestPlanetValidation] passes, whatever the random stream, when
    [uuid.New] hands out no empty identifier. *)
Theorem TestPlanetValidation_passes (w : World) :
  (forall k, uuids w k <> ""%string) ->
  exists w', TestPlanetValidation w = Some (0%nat, w').
Proof.
  intros Hne. unfold TestPlanetValidation. cbv zeta.
  set (cfg := {| NumStars := 50; PlanetsPerStar := 8; ExoPerStar := 3; Seed := 11111 |}).
  destruct (call_GenerateAll_spec cfg w) as (d & w' & E & _ & _ & (Hs & Hp & _) & Hids);
    [cbn; lia | vm_compute; discriminate | reflexivity | reflexivity |].
  exists w'. unfold bind. rewrite E. unfold ret. f_equal. f_equal.
  apply for_each_none. intros p Hin. destruct (Hp p Hin) as (s & Hsin & Hpost).
  destruct (Hs s Hsin) as (idx & Hspost).
  destruct (planet_post_ranges s p (star_post_bounds idx s Hspost) Hpost)
    as (He0 & He1 & Hm & Hr & Hper & Hax & Hy & _).
  unfold planet_errors.
  rewrite (ids_of_nonempty w d (Planet.ID p) Hne Hids)
    by (unfold all_ids; apply in_or_app; right; apply in_or_app; left;
        apply in_map; exact Hin).
  replace (Planet.StarID p) with (Star.ID s) by (symmetry; apply Hpost).
  rewrite (ids_of_nonempty w d (Star.ID s) Hne Hids)
    by (unfold all_ids; apply in_or_app; left; apply in_map; exact Hsin).
  rewrite (float_pos_not_le _ Hper), (float_pos_not_le _ Hax),
    (float_pos_not_le _ Hm), (float_pos_not_le _ Hr).
  rewrite (float_unit_checks _ He0 He1), (year_checks _ Hy). reflexivity.
Qed.

(** [TestExoplanetValidation] passes, whatever the random stream, when
    [uuid.New] hands out no empty identifier. *)
Theorem TestExoplanetValidation_passes (w : World) :
  (forall k, uuids w k <> ""%string) ->
  exists w', TestExoplanetValidation w = Some (0%nat, w').
Proof.
  intros Hne. unfold TestExoplanetValidation. cbv zeta.
  set (cfg := {| NumStars := 50; PlanetsPerStar := 5; ExoPerStar := 5; Seed := 22222 |}).
  destruct (call_GenerateAll_spec cfg w) as (d & w' & E & _ & _ & (Hs & _ & Hx) & Hids);
    [cbn; lia | vm_compute; discriminate | reflexivity | reflexivity |].
  exists w'. unfold bind. rewrite E. unfold ret. f_equal. f_equal.
  apply for_each_none. intros e Hin. destruct (Hx e Hin) as (s & Hsin & Hpost).
  destruct (Hs s Hsin) as (idx & Hspost).
  destruct (exoplanet_post_ranges s e (star_post_bounds idx s Hspost) Hpost)
    as (He0 & He1 & _ & _ & _ & _ & Hy & _).
  assert (Hd : (0 <? Exoplanet.HostDistance e)%float = true).
  { destruct Hpost as (_ & _ & _ & _ & _ & _ & Hdist & _).
    eapply in_range_pos; [apply (randFloat_post_range _ _ _ 0x1p+14 Hdist); closed_Q | closed_Q]. }
  assert (Hm : (strlen (Exoplanet.DetectionMethod e) =? 0) = false).
  { destruct Hpost as (_ & _ & _ & _ & _ & _ & _ & _ & Hdet & _).
    cbn in Hdet. repeat (destruct Hdet as [<- | Hdet]; [reflexivity|]). contradiction. }
  unfold exoplanet_errors.
  rewrite (ids_of_nonempty w d (Exoplanet.ID e) Hne Hids)
    by (unfold all_ids; apply in_or_app; right; apply in_or_app; right;
        apply in_map; exact Hin).
  replace (Exoplanet.StarID e) with (Star.ID s) by (symmetry; apply Hpost).
  rewrite (ids_of_nonempty w d (Star.ID s) Hne Hids)
    by (unfold all_ids; apply in_or_app; left; apply in_map; exact Hsin).
  rewrite Hm, (float_pos_not_le _ Hd), (float_unit_checks _ He0 He1), (year_checks _ Hy).
  reflexivity.
Qed.

(** [TestReferentialIntegrity] passes, whatever the random stream and the
    identifiers. *)
Theorem TestReferentialIntegrity_passes (w : World) :
  exists w', TestReferentialIntegrity w = Some (0%nat, w').
Proof.
  unfold TestReferentialIntegrity. cbv zeta.
  set (cfg := {| NumStars := 20; PlanetsPerStar := 5; ExoPerStar := 3; Seed := 33333 |}).
  destruct (call_GenerateAll_spec cfg w) as (d & w' & E & _ & _ & (_ & Hp & Hx) & _);
    [cbn; lia | vm_compute; discriminate | reflexivity | reflexivity |].
  exists w'. unfold bind. rewrite E. unfold ret. f_equal. f_equal.
  rewrite !for_each_none; [reflexivity | |].
  - intros e Hin. destruct (Hx e Hin) as (s & Hsin & Hpost).
    assert (H : lookup_true (map Star.ID (Stars d)) (Exoplanet.StarID e) = true).
    { apply lookup_true_In. replace (Exoplanet.StarID e) with (Star.ID s)
        by (symmetry; apply Hpost). apply in_map. exact Hsin. }
    rewrite H. reflexivity.
  - intros p Hin. destruct (Hp p Hin) as (s & Hsin & Hpost).
    assert (H : lookup_true (map Star.ID (Stars d)) (Planet.StarID p) = true).
    { apply lookup_true_In. replace (Planet.StarID p) with (Star.ID s)
        by (symmetry; apply Hpost). apply in_map. exact Hsin. }
    rewrite H. reflexivity.
Qed.

End TestsProofs.


(** * Runs on scripted draws

    A random stream that replays a script: the floats and the integers it is
    to return, in order.  A float outside the unit interval is replaced by 0,
    an integer is reduced modulo the bound, and 0 is returned once a script is
    used up.  It meets the contract of [RandSource], so the theorems above
    apply to it, and the generator can be run on it. *)

Record Script : Type := {
  script_floats : list float;
  script_ints : list Z
}.

Definition script_Float64 (t : Script) : float * Script :=
  let f := hd 0%float (script_floats t) in
  (if ((0 <=? f) && (f <? 1))%float then f else 0%float,
   {| script_floats := tl (script_floats t); script_ints := script_ints t |}).

Definition script_Intn (n : Z) (t : Script) : Z * Script :=
  (hd 0 (script_ints t) mod n,
   {| script_floats := script_floats t; script_ints := tl (script_ints t) |}).

Lemma script_Float64_range t :
  (0 <=? fst (script_Float64 t))%float = true /\
  (fst (script_Float64 t) <? 1)%float = true.
Proof.
  unfold script_Float64. cbn [fst].
  destruct ((0 <=? hd 0 (script_floats t)) && (hd 0 (script_floats t) <? 1))%float eqn:E.
  - apply andb_true_iff in E. exact E.
  - split; reflexivity.
Qed.

Lemma script_Intn_range n t : 0 < n -> 0 <= fst (script_Intn n t) < n.
Proof. intros H. unfold script_Intn. cbn [fst]. apply Z.mod_pos_bound. exact H. Qed.

Definition scripted (start : Z -> Script) : RandSource :=
  {| Rand := Script;
     NewRand := start;
     Float64 := script_Float64;
     Int31n := script_Intn;
     Intn := script_Intn;
     Float64_range := script_Float64_range;
     Int31n_range := script_Intn_range;
     Intn_range := script_Intn_range |}.

(** The draws of a run with two stars: the first with one planet and one
    exoplanet, the second with two planets. *)
Definition demo_script : Script :=
  {| script_floats :=
       [0.99; 0.5; 0.25;
        0.1; 0.3; 0.5; 0.5; 0.5; 0.1; 0.7;
        0.2; 0.3; 0.4; 0.5; 0.6;
        0.1; 0.5; 0.5;
        0.3; 0.1; 0.2; 0.3; 0.4; 0.5; 0.6;
        0.7; 0.8; 0.9; 0.1; 0.2; 0.3; 0.4]%float;
     script_ints := [2; 100; 1; 3; 10; 1; 4; 20; 5; 7; 2; 1; 5; 2; 6; 0] |}.

Definition demo_source : RandSource := scripted (fun _ => demo_script).

Definition demo_ids (n : nat) : string := "uuid-" ++ itoa (Z.of_nat n).

Definition demo_cfg : Config :=
  {| NumStars := 2; PlanetsPerStar := 2; ExoPerStar := 1; Seed := 12345 |}.

Definition demo_data : GeneratedData :=
  Eval vm_compute in
    match GenerateAll (RS := demo_source) demo_ids demo_cfg with
    | Some d => d
    | None => empty_data
    end.

Lemma demo_run : GenerateAll (RS := demo_source) demo_ids demo_cfg = Some demo_data.
Proof. vm_compute. reflexivity. Qed.

(** A state of the scripted stream, for runs of single routines. *)
Definition demo_world (fs : list float) (ns : list Z) : @World demo_source :=
  @Build_World demo_source {| script_floats := fs; script_ints := ns |} demo_ids 0.

(** ** The theorems at these runs *)

(** C2 at the scripted run: 2 stars, 3 planets (at most 2 * 2), 1 exoplanet
    (at most 2 * 1). *)
Lemma GenerateAll_cardinality_demo :
  Z.of_nat (List.length (Stars demo_data)) = 2 /\
  Z.of_nat (List.length (Planets demo_data)) <= 2 * 2 /\
  Z.of_nat (List.length (Exoplanets demo_data)) <= 2 * 1.
Proof.
  assert (HN : 0 <= NumStars demo_cfg) by (cbn; lia).
  assert (HP : 0 <= PlanetsPerStar demo_cfg) by (cbn; lia).
  assert (HE : 0 <= ExoPerStar demo_cfg) by (cbn; lia).
  exact (GenerateAll_cardinality (RS := demo_source) demo_ids demo_cfg demo_data
                                 HN HP HE demo_run).
Defined.

(** C3 at the scripted run. *)
Lemma GenerateAll_referential_integrity_demo :
  (forall p, In p (Planets demo_data) ->
     exists s, In s (Stars demo_data) /\ Planet.StarID p = Star.ID s) /\
  (forall e, In e (Exoplanets demo_data) ->
     exists s, In s (Stars demo_data) /\ Exoplanet.StarID e = Star.ID s).
Proof.
  exact (GenerateAll_referential_integrity (RS := demo_source)
           demo_ids demo_cfg demo_data demo_run).
Defined.

(** C4 at the scripted run. *)
Lemma GenerateAll_kepler_demo :
  (forall p, In p (Planets demo_data) ->
     exists s, In s (Stars demo_data) /\ Planet.StarID p = Star.ID s /\
       Planet.OrbitalPeriod p =
         (365.25 * sqrt (Planet.SemiMajorAxis p * Planet.SemiMajorAxis p
                         * Planet.SemiMajorAxis p / Star.Mass s))%float) /\
  (forall e, In e (Exoplanets demo_data) ->
     exists s, In s (Stars demo_data) /\ Exoplanet.StarID e = Star.ID s /\
       Exoplanet.OrbitalPeriod e =
         (365.25 * sqrt (Exoplanet.SemiMajorAxis e * Exoplanet.SemiMajorAxis e
                         * Exoplanet.SemiMajorAxis e / Star.Mass s))%float).
Proof.
  exact (GenerateAll_kepler (RS := demo_source) demo_ids demo_cfg demo_data demo_run).
Defined.

(** C5 at the scripted run. *)
Lemma GenerateAll_ranges_demo :
  (forall s, In s (Stars demo_data) -> star_ranges s) /\
  (forall p, In p (Planets demo_data) ->
     body_ranges (Planet.Eccentricity p) (Planet.Mass p) (Planet.Radius p)
       (Planet.OrbitalPeriod p) (Planet.SemiMajorAxis p)
       (Planet.DiscoveryYear p) (Planet.SurfaceTemp p)) /\
  (forall e, In e (Exoplanets demo_data) ->
     body_ranges (Exoplanet.Eccentricity e) (Exoplanet.Mass e) (Exoplanet.Radius e)
       (Exoplanet.OrbitalPeriod e) (Exoplanet.SemiMajorAxis e)
       (Exoplanet.DiscoveryYear e) (Exoplanet.SurfaceTemp e)).
Proof.
  exact (GenerateAll_ranges (RS := demo_source) demo_ids demo_cfg demo_data demo_run).
Defined.


(** C7 at the draw 0.3: the band that holds is the second, ice giant. *)
Lemma planet_body_bands_at_cut :
  unit_draw 0.3 /\
  planet_body (RS := demo_source) 0.3 = sample_regime IceGiant.
Proof.
  assert (H : unit_draw 0.3) by (split; reflexivity).
  split; [exact H|].
  destruct (planet_body_bands (RS := demo_source) 0.3 H) as (_ & Hice & _).
  apply Hice; reflexivity.
Defined.

(** C10 at a configuration with no star and negative caps. *)
Lemma GenerateAll_zero_stars_demo :
  GenerateAll (RS := demo_source) demo_ids
    {| NumStars := 0; PlanetsPerStar := -3; ExoPerStar := -1; Seed := 7 |}
  = Some empty_data.
Proof.
  apply (GenerateAll_zero_stars (RS := demo_source) demo_ids
           {| NumStars := 0; PlanetsPerStar := -3; ExoPerStar := -1; Seed := 7 |}).
  reflexivity.
Defined.

(** ** Further properties at the scripted run *)

(** The scripted identifiers do not repeat. *)
Lemma demo_ids_inj a b : demo_ids a = demo_ids b -> a = b.
Proof.
  unfold demo_ids. intros H. apply append_inj_r, itoa_inj in H. lia.
Qed.

(** The names of the two stars of the scripted run. *)
Lemma GenerateAll_star_names_demo :
  (forall k s, nth_error (Stars demo_data) k = Some s ->
     Star.Name s = ("Star-" ++ itoa (Z.of_nat k + 1))%string) /\
  NoDup (map Star.Name (Stars demo_data)).
Proof.
  apply (GenerateAll_star_names (RS := demo_source) demo_ids demo_cfg demo_data).
  - vm_compute. discriminate.
  - exact demo_run.
Defined.

(** The scripted run, star by star. *)
Lemma GenerateAll_grouped_demo :
  exists l, demo_data = flatten l /\
    forall k s, nth_error l k = Some s ->
      Z.of_nat (List.length (sys_planets s)) <= 2 /\
      Z.of_nat (List.length (sys_exoplanets s)) <= 1 /\
      (forall j p, nth_error (sys_planets s) j = Some p ->
         Planet.StarID p = Star.ID (sys_star s) /\
         Planet.Name p
         = (Star.Name (sys_star s) ++ "-Planet-" ++ itoa (Z.of_nat j + 1))%string) /\
      (forall j e, nth_error (sys_exoplanets s) j = Some e ->
         Exoplanet.StarID e = Star.ID (sys_star s) /\
         Exoplanet.Name e
         = (Star.Name (sys_star s) ++ "-Exo-" ++ itoa (Z.of_nat j + 1))%string).
Proof.
  apply (GenerateAll_grouped (RS := demo_source) demo_ids demo_cfg demo_data).
  - vm_compute. discriminate.
  - vm_compute. discriminate.
  - exact demo_run.
Defined.

(** The six identifiers of the scripted run. *)
Lemma GenerateAll_identifiers_demo :
  Permutation (all_ids demo_data) (map demo_ids (seq 0 6)) /\
  NoDup (all_ids demo_data).
Proof.
  destruct (GenerateAll_identifiers (RS := demo_source) demo_ids demo_cfg demo_data demo_run)
    as [HP HN].
  split; [exact HP | exact (HN demo_ids_inj)].
Defined.

(** The planets and exoplanets per star of the scripted run. *)
Lemma GenerateAll_children_demo :
  Forall (fun s =>
    Z.of_nat (List.length
      (filter (fun p => String.eqb (Planet.StarID p) (Star.ID s)) (Planets demo_data)))
      <= 2 /\
    Z.of_nat (List.length
      (filter (fun e => String.eqb (Exoplanet.StarID e) (Star.ID s)) (Exoplanets demo_data)))
      <= 1) (Stars demo_data).
Proof.
  apply (GenerateAll_children (RS := demo_source) demo_ids demo_cfg demo_data demo_ids_inj).
  - vm_compute. discriminate.
  - vm_compute. discriminate.
  - exact demo_run.
Defined.

Lemma GenerateAll_star_class_demo :
  Forall (fun s => exists st, In st spectralTypes /\ star_in_class st s) (Stars demo_data).
Proof.
  exact (GenerateAll_star_class (RS := demo_source) demo_ids demo_cfg demo_data demo_run).
Defined.

Lemma GenerateAll_planet_ranges_demo : Forall planet_in_ranges (Planets demo_data).
Proof.
  exact (GenerateAll_planet_ranges (RS := demo_source) demo_ids demo_cfg demo_data demo_run).
Defined.

Lemma GenerateAll_exoplanet_ranges_demo : Forall exoplanet_in_ranges (Exoplanets demo_data).
Proof.
  exact (GenerateAll_exoplanet_ranges (RS := demo_source) demo_ids demo_cfg demo_data demo_run).
Defined.

(** Two panics: [2 ^ 62] stars are more than [make] accepts, and with one
    star and [ExoPerStar = -1] the call [r.Intn(0)] panics. *)
Lemma GenerateAll_panics_demo :
  GenerateAll (RS := demo_source) demo_ids
    {| NumStars := 2 ^ 62; PlanetsPerStar := 2; ExoPerStar := 1; Seed := 12345 |} = None /\
  GenerateAll (RS := demo_source) demo_ids
    {| NumStars := 1; PlanetsPerStar := 2; ExoPerStar := -1; Seed := 12345 |} = None.
Proof.
  split.
  - apply (GenerateAll_panics (RS := demo_source)).
    + split; vm_compute; discriminate.
    + split; vm_compute; discriminate.
    + right. left. vm_compute. reflexivity.
  - apply (GenerateAll_panics (RS := demo_source)).
    + split; vm_compute; discriminate.
    + split; vm_compute; discriminate.
    + right. right. split; [reflexivity|]. right. right. left. reflexivity.
Defined.

(** [randInt 1990 2024], the discovery year. *)
Lemma randInt_bounds_year :
  total (RS := demo_source) (randInt 1990 2024) /\
  returns (RS := demo_source) (randInt 1990 2024) (fun x => 1990 <= x <= 2024).
Proof.
  assert (H1 : minInt32 <= 1990 <= maxInt32) by (split; vm_compute; discriminate).
  assert (H2 : minInt32 <= 2024 <= maxInt32) by (split; vm_compute; discriminate).
  destruct (randInt_bounds (RS := demo_source) 1990 2024 H1 H2) as (H & _).
  apply H; [lia | vm_compute; reflexivity].
Defined.

(** ** Package config on concrete inputs *)

(** The two string functions on ASCII strings, extended to all strings byte
    by byte: an instance of the contract. *)
Definition ascii_strings : GoStrings :=
  {| ToUpper := ascii_to_upper;
     TrimSpace := ascii_trim;
     ToUpper_ascii := fun s _ => eq_refl;
     TrimSpace_ascii := fun s _ => eq_refl |}.




(** A document that only names a keyspace and a lower-case consistency
    level. *)
Definition demo_document : CassandraConfig :=
  {| Hosts := []; Keyspace := "stars_2"; Consistency := "local_one"; ReplicationClass := "";
     ReplicationFactor := 0; DataCenters := []; Username := ""; Password := "";
     Port := 0; Timeout := 0; ConnectTimeout := 0; NumConns := 0;
     DisableInitialHostLookup := false |}.

Definition demo_loaded : CassandraConfig :=
  {| Hosts := ["127.0.0.1"%string]; Keyspace := "stars_2"; Consistency := "LOCAL_ONE";
     ReplicationClass := "SimpleStrategy"; ReplicationFactor := 1; DataCenters := [];
     Username := ""; Password := ""; Port := 9042; Timeout := 30; ConnectTimeout := 10;
     NumConns := 2; DisableInitialHostLookup := false |}.

Lemma LoadCassandraConfig_stable_demo :
  LoadCassandraConfig (GS := ascii_strings) (Unmarshalled demo_document)
    = (inl demo_loaded, []) /\
  acceptable (GS := ascii_strings) demo_loaded /\
  In (Consistency demo_loaded) consistency_levels /\
  setDefaults demo_loaded = demo_loaded /\
  LoadCassandraConfig (GS := ascii_strings) (Unmarshalled demo_loaded) = (inl demo_loaded, []).
Proof.
  assert (H : LoadCassandraConfig (GS := ascii_strings) (Unmarshalled demo_document)
              = (inl demo_loaded, [])) by (vm_compute; reflexivity).
  split; [exact H|].
  exact (LoadCassandraConfig_stable (GS := ascii_strings) _ _ _ H).
Defined.

(** A document with a port out of range: the error names the port. *)
Definition demo_bad_document : CassandraConfig :=
  {| Hosts := []; Keyspace := ""; Consistency := ""; ReplicationClass := "";
     ReplicationFactor := 0; DataCenters := []; Username := ""; Password := "";
     Port := 70000; Timeout := 0; ConnectTimeout := 0; NumConns := 0;
     DisableInitialHostLookup := false |}.

Definition demo_port_error : string :=
  "invalid configuration: invalid port 70000, must be between 1 and 65535".

Lemma LoadCassandraConfig_dead_errors_demo :
  LoadCassandraConfig (GS := ascii_strings) (Unmarshalled demo_bad_document)
    = (inr demo_port_error, []) /\
  demo_port_error <> ("invalid configuration: " ++ no_host_error)%string /\
  demo_port_error <> ("invalid configuration: " ++ no_keyspace_error)%string.
Proof.
  assert (H : LoadCassandraConfig (GS := ascii_strings) (Unmarshalled demo_bad_document)
              = (inr demo_port_error, [])) by (vm_compute; reflexivity).
  split; [exact H|].
  exact (LoadCassandraConfig_dead_errors (GS := ascii_strings) _ _ _ H).
Defined.

(** ** Package tests on the scripted identifiers *)

Lemma demo_ids_nonempty k : demo_ids k <> ""%string.
Proof. unfold demo_ids. cbn. discriminate. Qed.

Lemma TestStarValidation_passes_demo :
  exists w', TestStarValidation (RS := demo_source) (demo_world [] []) = Some (0%nat, w').
Proof.
  exact (TestStarValidation_passes (RS := demo_source) (demo_world [] []) demo_ids_nonempty).
Defined.

Lemma TestPlanetValidation_passes_demo :
  exists w', TestPlanetValidation (RS := demo_source) (demo_world [] []) = Some (0%nat, w').
Proof.
  exact (TestPlanetValidation_passes (RS := demo_source) (demo_world [] []) demo_ids_nonempty).
Defined.

Lemma TestExoplanetValidation_passes_demo :
  exists w', TestExoplanetValidation (RS := demo_source) (demo_world [] []) = Some (0%nat, w').
Proof.
  exact (TestExoplanetValidation_passes (RS := demo_source) (demo_world [] [])
           demo_ids_nonempty).
Defined.

(** ** Where the specification's wording and the code part *)

(** C1.  Two calls with the same configuration and seed whose stars have
    different identifiers: the second call receives the UUIDs that follow the
    one the first call consumed. *)
Lemma GenerateAll_ids_not_reproducible :
  let cfg := {| NumStars := 1; PlanetsPerStar := 0; ExoPerStar := 0; Seed := 12345 |} in
  exists d1 d2,
    GenerateAll (RS := demo_source) demo_ids cfg = Some d1 /\
    GenerateAll (RS := demo_source) (fun n => demo_ids (S n)) cfg = Some d2 /\
    map Star.ID (Stars d1) = ["uuid-0"]%string /\
    map Star.ID (Stars d2) = ["uuid-1"]%string.
Proof.
  cbv zeta. eexists _, _.
  split; [vm_compute; reflexivity|]. split; [vm_compute; reflexivity|].
  split; reflexivity.
Qed.

(** C7.  At the cut points the code selects the upper band: a draw equal to
    0.3 samples the ice giant ranges (mass 12.5 where the rocky ranges give
    2.55) and a draw equal to 0.6 the gas giant ranges (mass 510 where the ice
    giant ranges give 12.5), while the bands as worded, closed at their high
    end, put 0.3 in rocky and 0.6 in ice giant. *)
Lemma planet_body_cut_points :
  let w := demo_world [0.5; 0.5]%float [] in
  claimed_regime 0.3 = Rocky /\
  option_map fst (sample_regime Rocky w) = Some (2.5500000000000003, 1.1499999999999999)%float /\
  option_map fst (planet_body 0.3 w) = Some (12.5, 3)%float /\
  claimed_regime 0.6 = IceGiant /\
  option_map fst (sample_regime IceGiant w) = Some (12.5, 3)%float /\
  option_map fst (planet_body 0.6 w) = Some (510, 9.5)%float.
Proof. cbv zeta. repeat split; vm_compute; reflexivity. Qed.

(** C10.  With a negative [NumStars] the allocation of the stars slice
    panics: [GenerateAll] returns nothing. *)
Lemma GenerateAll_negative_stars_panics :
  GenerateAll (RS := demo_source) demo_ids
    {| NumStars := -1; PlanetsPerStar := 5; ExoPerStar := 3; Seed := 12345 |}
  = None.
Proof. reflexivity. Qed.

(** At the largest [int] a cap makes [cap + 1] wrap around to a negative
    number, and [r.Intn] panics on the first star. *)
Lemma GenerateAll_max_cap_panics :
  GenerateAll (RS := demo_source) demo_ids
    {| NumStars := 1; PlanetsPerStar := maxInt64; ExoPerStar := 0; Seed := 12345 |}
  = None.
Proof. vm_compute. reflexivity. Qed.
